(** * Field-extraction engine of the On-Korea announcement crawlers

    A shallow embedding of the text-processing core of the four crawler
    scripts ([junggu.py], [pr-1.py], [pr-2.py], [liveinkorea.py]):
    item segmentation, noise trimming, key classification, the field
    accumulator and record de-duplication.

    Python strings are sequences of Unicode code points; they are modelled
    as [list N].  Dictionaries with string keys are [gmap string _].
    Regular expressions of the scripts that only involve one character
    class are written as list functions; the others are given as syntax
    trees to a small backtracking matcher with the priorities of Python's
    [re] module. *)

From Stdlib Require Import NArith Bool List String Ascii Lia.
From stdpp Require Import gmap strings list.
Import ListNotations.

Local Open Scope N_scope.
Local Open Scope list_scope.

(** ** Python string primitives *)

Module Py.

Abbreviation str := (list N).

(** Decoding of the UTF-8 bytes of a literal into code points, so that the
    constants of the scripts can be written as they appear there. *)
Fixpoint utf8 (bs : list N) : str :=
  match bs with
  | [] => []
  | b :: r =>
    if b <? 0x80 then b :: utf8 r
    else if b <? 0xE0 then
      match r with
      | b1 :: r1 => ((b - 0xC0) * 64 + (b1 - 0x80)) :: utf8 r1
      | _ => []
      end
    else if b <? 0xF0 then
      match r with
      | b1 :: b2 :: r2 =>
        ((b - 0xE0) * 4096 + (b1 - 0x80) * 64 + (b2 - 0x80)) :: utf8 r2
      | _ => []
      end
    else
      match r with
      | b1 :: b2 :: b3 :: r3 =>
        ((b - 0xF0) * 262144 + (b1 - 0x80) * 4096 + (b2 - 0x80) * 64
         + (b3 - 0x80)) :: utf8 r3
      | _ => []
      end
  end.

Definition U (s : string) : str :=
  utf8 (map N_of_ascii (list_ascii_of_string s)).

Arguments U : simpl never.

(** Single characters that occur in the scripts. *)
Definition LF : N := 10.
Definition CR : N := 13.
Definition SP : N := 32.
Definition NBSP : N := 0xA0.
Definition IDSP : N := 0x3000.

Definition str_eqb (a b : str) : bool := bool_decide (a = b).

Definition is_nil (s : str) : bool :=
  match s with [] => true | _ => false end.

Definition mem (c : N) (cs : str) : bool := existsb (N.eqb c) cs.

(** [str.isspace] for one character, which is also what [\s] matches in a
    pattern over [str]. *)
Definition isspace (c : N) : bool :=
  ((9 <=? c) && (c <=? 13)) || ((28 <=? c) && (c <=? 32))
  || (c =? 0x85) || (c =? 0xA0) || (c =? 0x1680)
  || ((0x2000 <=? c) && (c <=? 0x200A))
  || (c =? 0x2028) || (c =? 0x2029) || (c =? 0x202F) || (c =? 0x205F)
  || (c =? 0x3000).

Arguments isspace : simpl never.

Fixpoint dropwhile (p : N -> bool) (s : str) : str :=
  match s with
  | [] => []
  | c :: r => if p c then dropwhile p r else s
  end.

Fixpoint takewhile (p : N -> bool) (s : str) : str :=
  match s with
  | [] => []
  | c :: r => if p c then c :: takewhile p r else []
  end.

(** Removal of the longest suffix whose characters all satisfy [p]. *)
Fixpoint rdropwhile (p : N -> bool) (s : str) : str :=
  match s with
  | [] => []
  | c :: r =>
    match rdropwhile p r with
    | [] => if p c then [] else [c]
    | r' => c :: r'
    end
  end.

Fixpoint remove (p : N -> bool) (s : str) : str :=
  match s with
  | [] => []
  | c :: r => if p c then remove p r else c :: remove p r
  end.

(** [s.lstrip()], [s.rstrip()], [s.strip()] *)
Definition lstrip (s : str) : str := dropwhile isspace s.
Definition rstrip (s : str) : str := rdropwhile isspace s.
Definition strip (s : str) : str := lstrip (rstrip s).

(** [s.lstrip(cs)], [s.strip(cs)] *)
Definition lstrip_chars (cs s : str) : str := dropwhile (fun c => mem c cs) s.
Definition strip_chars (cs s : str) : str :=
  dropwhile (fun c => mem c cs) (rdropwhile (fun c => mem c cs) s).

(** [s.replace(a, b)] for single characters [a], [b] *)
Definition replace1 (a b : N) (s : str) : str :=
  map (fun c => if c =? a then b else c) s.

(** [s.startswith(p)] *)
Fixpoint startswith (p s : str) : bool :=
  match p, s with
  | [], _ => true
  | _ :: _, [] => false
  | a :: p', b :: s' => (a =? b) && startswith p' s'
  end.

(** [s.startswith((p1, ..., pn))] *)
Definition startswith_any (ps : list str) (s : str) : bool :=
  existsb (fun p => startswith p s) ps.

(** [s.endswith(p)] *)
Definition endswith (p s : str) : bool := startswith (rev p) (rev s).

(** [sub in s] *)
Fixpoint contains (sub s : str) : bool :=
  startswith sub s
  || match s with
     | [] => false
     | _ :: r => contains sub r
     end.

(** [s.split(d, 1)[0]] for a single character [d]; also the first piece of
    [re.split] with [maxsplit=1] on a one-character class. *)
Definition before (p : N -> bool) (s : str) : str := takewhile (fun c => negb (p c)) s.

(** The rest after the first character satisfying [p], when there is one. *)
Fixpoint after (p : N -> bool) (s : str) : option str :=
  match s with
  | [] => None
  | c :: r => if p c then Some r else after p r
  end.

(** [sep.join(l)] *)
Fixpoint join (sep : str) (l : list str) : str :=
  match l with
  | [] => []
  | x :: r =>
    match r with
    | [] => x
    | _ :: _ => x ++ sep ++ join sep r
    end
  end.

(** Line boundaries of [str.splitlines]. *)
Definition is_linebreak (c : N) : bool :=
  ((10 <=? c) && (c <=? 13)) || ((28 <=? c) && (c <=? 30))
  || (c =? 0x85) || (c =? 0x2028) || (c =? 0x2029).

Fixpoint splitlines_from (cur : str) (s : str) : list str :=
  match s with
  | [] => if is_nil cur then [] else [cur]
  | c :: r =>
    if c =? CR then
      match r with
      | c' :: r' =>
        if c' =? LF then cur :: splitlines_from [] r'
        else cur :: splitlines_from [] r
      | [] => cur :: splitlines_from [] r
      end
    else if is_linebreak c then cur :: splitlines_from [] r
    else splitlines_from (cur ++ [c]) r
  end.

(** [s.splitlines()] *)
Definition splitlines (s : str) : list str := splitlines_from [] s.

Fixpoint words_from (cur : str) (s : str) : list str :=
  match s with
  | [] => if is_nil cur then [] else [cur]
  | c :: r =>
    if isspace c then
      (if is_nil cur then words_from [] r else cur :: words_from [] r)
    else words_from (cur ++ [c]) r
  end.

(** [s.split()] *)
Definition words (s : str) : list str := words_from [] s.

(** [\[ln.strip() for ln in text.splitlines() if ln.strip()\]] *)
Definition stripped_lines (text : str) : list str :=
  List.filter (fun l => negb (is_nil l)) (map strip (splitlines text)).

End Py.

Import Py.

(** ** A backtracking matcher for the patterns of the scripts

    Alternatives are tried left to right, a greedy repetition tries one
    more iteration before stopping and a lazy one the reverse, as [re]
    does.  A repetition only iterates when its body consumed input, which
    every repeated body of the scripts' patterns does. *)

Module Re.

Inductive regex : Type :=
| Eps
| Cls (p : N -> bool)
| Cat (a b : regex)
| Alt (a b : regex)
| Rep (greedy : bool) (lo : nat) (hi : option nat) (a : regex)
| Grp (i : nat) (a : regex)
| Bos
| Eos
| Ahead (a : regex).

(** Captured groups: group index, start and end offset in the subject. *)
Definition caps := list (nat * (nat * nat)).
Definition result := option (nat * str * caps).
Definition kont := nat -> str -> caps -> result.

Definition below (cnt : nat) (hi : option nat) : bool :=
  match hi with
  | None => true
  | Some h => (cnt <? h)%nat
  end.

(** The loop of a repetition whose body is matched by [body]: [cnt]
    iterations are done, [n] bounds the iterations still possible. *)
Fixpoint rep_loop (body : nat -> str -> caps -> kont -> result)
  (g : bool) (lo : nat) (hi : option nat) (k : kont)
  (n cnt pos : nat) (s : str) (c : caps) {struct n} : result :=
  match n with
  | O => None
  | S n' =>
    if g then
      match (if below cnt hi then
               body pos s c
                 (fun pos' s' c' =>
                    if (length s' <? length s)%nat
                    then rep_loop body g lo hi k n' (S cnt) pos' s' c'
                    else None)
             else None) with
      | Some x => Some x
      | None => if (lo <=? cnt)%nat then k pos s c else None
      end
    else
      match (if (lo <=? cnt)%nat then k pos s c else None) with
      | Some x => Some x
      | None =>
        if below cnt hi then
          body pos s c
            (fun pos' s' c' =>
               if (length s' <? length s)%nat
               then rep_loop body g lo hi k n' (S cnt) pos' s' c'
               else None)
        else None
      end
  end.

(** [mt r fuel pos s c k]: match [r] at offset [pos], where [s] is the rest
    of the subject from [pos] on, then continue with [k]. *)
Fixpoint mt (r : regex) (fuel : nat) (pos : nat) (s : str) (c : caps)
  (k : kont) {struct r} : result :=
  match r with
  | Eps => k pos s c
  | Cls p =>
    match s with
    | x :: s' => if p x then k (S pos) s' c else None
    | [] => None
    end
  | Cat a b => mt a fuel pos s c (fun pos' s' c' => mt b fuel pos' s' c' k)
  | Alt a b =>
    match mt a fuel pos s c k with
    | Some x => Some x
    | None => mt b fuel pos s c k
    end
  | Rep g lo hi a =>
    rep_loop (fun pos' s' c' k' => mt a fuel pos' s' c' k') g lo hi k
             fuel O pos s c
  | Grp i a =>
    mt a fuel pos s c (fun pos' s' c' => k pos' s' ((i, (pos, pos')) :: c'))
  | Bos => if (pos =? 0)%nat then k pos s c else None
  | Eos =>
    match s with
    | [] => k pos s c
    | [x] => if x =? LF then k pos s c else None
    | _ => None
    end
  | Ahead a =>
    match mt a fuel pos s c (fun pos' s' c' => Some (pos', s', c')) with
    | Some (_, _, c') => k pos s c'
    | None => None
    end
  end.

Definition accept : kont := fun pos s c => Some (pos, s, c).

(** One match attempt at offset [pos] of a subject whose rest is [s]:
    the end offset and the groups. *)
Definition match_at (r : regex) (pos : nat) (s : str) : option (nat * caps) :=
  match mt r (S (length s)) pos s [] accept with
  | Some (e, _, c) => Some (e, c)
  | None => None
  end.

(** [re.match(r, s)] *)
Definition rmatch (r : regex) (s : str) : option (nat * caps) := match_at r O s.

Fixpoint search_from (r : regex) (pos : nat) (s : str)
  : option (nat * nat * caps) :=
  match match_at r pos s with
  | Some (e, c) => Some (pos, e, c)
  | None =>
    match s with
    | [] => None
    | _ :: s' => search_from r (S pos) s'
    end
  end.

(** [re.search(r, s)]: start, end and groups of the leftmost match. *)
Definition search (r : regex) (s : str) : option (nat * nat * caps) :=
  search_from r O s.

Definition matches (r : regex) (s : str) : bool :=
  match rmatch r s with Some _ => true | None => false end.

Definition found (r : regex) (s : str) : bool :=
  match search r s with Some _ => true | None => false end.

(** [m.group(i)] *)
Definition group (i : nat) (c : caps) (s : str) : str :=
  match List.find (fun e => (fst e =? i)%nat) c with
  | Some (_, (b, e)) => take (e - b) (drop b s)
  | None => []
  end.

(** [re.split(r, s)[0]] for a pattern that matches no empty string. *)
Definition split_head (r : regex) (s : str) : str :=
  match search r s with
  | Some (b, _, _) => take b s
  | None => s
  end.

(** [re.sub(r, repl, s)] for a pattern that matches no empty string. *)
Fixpoint sub_from (r : regex) (repl : str) (fuel pos : nat) (s : str) : str :=
  match fuel with
  | O => s
  | S fuel' =>
    match s with
    | [] => []
    | x :: s' =>
      match match_at r pos s with
      | Some (e, _) =>
        if (pos <? e)%nat
        then repl ++ sub_from r repl fuel' e (drop (e - pos) s)
        else x :: sub_from r repl fuel' (S pos) s'
      | None => x :: sub_from r repl fuel' (S pos) s'
      end
    end
  end.

Definition sub (r : regex) (repl : str) (s : str) : str :=
  sub_from r repl (length s) O s.

(** Pattern constructors. *)
Definition chr (c : N) : regex := Cls (N.eqb c).
Definition oneof (cs : str) : regex := Cls (fun c => mem c cs).
Definition dot : regex := Cls (fun c => negb (c =? LF)).
Definition ws : regex := Cls isspace.
Definition star (a : regex) : regex := Rep true O None a.
Definition plus (a : regex) : regex := Rep true 1 None a.
Definition lazy_star (a : regex) : regex := Rep false O None a.
Definition lazy_plus (a : regex) : regex := Rep false 1 None a.
Definition opt (a : regex) : regex := Rep true O (Some 1%nat) a.

Fixpoint seq (rs : list regex) : regex :=
  match rs with
  | [] => Eps
  | [a] => a
  | a :: rs' => Cat a (seq rs')
  end.

Fixpoint alt (rs : list regex) : regex :=
  match rs with
  | [] => Cls (fun _ => false)
  | [a] => a
  | a :: rs' => Alt a (alt rs')
  end.

Definition lit (s : str) : regex := seq (map chr s).

End Re.

Import Re.

(** ** Character classes and tables shared by the scripts *)

Module Chars.

(** [ZERO_WIDTH = \[​‌‍⁠﻿\]] *)
Definition ZERO_WIDTH (c : N) : bool :=
  mem c [0x200b; 0x200c; 0x200d; 0x2060; 0xfeff].

(** [\d] over [str]: the decimal digits (category Nd), each block of ten
    given by its zero, as of the Unicode 14.0 tables. *)
Definition decimal_zeros : list N :=
  [0x30; 0x660; 0x6f0; 0x7c0; 0x966; 0x9e6; 0xa66; 0xae6; 0xb66; 0xbe6;
   0xc66; 0xce6; 0xd66; 0xde6; 0xe50; 0xed0; 0xf20; 0x1040; 0x1090; 0x17e0;
   0x1810; 0x1946; 0x19d0; 0x1a80; 0x1a90; 0x1b50; 0x1bb0; 0x1c40; 0x1c50;
   0xa620; 0xa8d0; 0xa900; 0xa9d0; 0xa9f0; 0xaa50; 0xabf0; 0xff10; 0x104a0;
   0x10d30; 0x11066; 0x110f0; 0x11136; 0x111d0; 0x112f0; 0x11450; 0x114d0;
   0x11650; 0x116c0; 0x11730; 0x118e0; 0x11950; 0x11c50; 0x11d50; 0x11da0;
   0x16a60; 0x16ac0; 0x16b50; 0x1d7ce; 0x1d7d8; 0x1d7e2; 0x1d7ec; 0x1d7f6;
   0x1e140; 0x1e2f0; 0x1e950; 0x1fbf0].

Definition isdecimal (c : N) : bool :=
  existsb (fun z => (z <=? c) && (c <? z + 10)) decimal_zeros.

(** [\[0-9\]], [\[A-Za-z\]], [\[가-힣\]] *)
Definition ascii_digit (c : N) : bool := (0x30 <=? c) && (c <=? 0x39).
Definition ascii_letter (c : N) : bool :=
  ((0x41 <=? c) && (c <=? 0x5A)) || ((0x61 <=? c) && (c <=? 0x7A)).
Definition hangul (c : N) : bool := (0xAC00 <=? c) && (c <=? 0xD7A3).

(** [\[:：\-–\]] and [\[:：\]] *)
Definition delimiter (c : N) : bool := mem c (U ":：-–").
Definition colon (c : N) : bool := mem c (U ":：").

(** [\[<〈《\]], [\[>〉》\]] *)
Definition open_bracket (c : N) : bool := mem c (U "<〈《").
Definition close_bracket (c : N) : bool := mem c (U ">〉》").

Definition drop_tokens : list str :=
  [U "첨부"; U "바로보기"; U "목록"; U "이전글"; U "다음글"].

(** The placeholder title ["(본문)"]. *)
Definition placeholder : str := U "(본문)".

(** [x or d] for a string [x] that may be [None]. *)
Definition or_else (x : option str) (d : str) : str :=
  match x with
  | Some (c :: r) => c :: r
  | _ => d
  end.

(** Truth value of an optional string. *)
Definition truthy (x : option str) : bool :=
  match x with
  | Some (_ :: _) => true
  | _ => false
  end.

(** One announcement item, the dictionary with keys ["item_title"] and
    ["detail_lines"]. *)
Record item := Item { item_title : str; detail_lines : list str }.

(** State of the loop of [split_items]. *)
Record seg := Seg {
  items : list item;
  current_title : option str;
  current_details : list str
}.

End Chars.

Import Chars.

(** ** junggu.py: keyword-inclusion classifier, locked accumulator *)

Module Junggu.

(** [normalize_key], lines 36-44 *)
Definition TRUNCATE : regex := seq [Cls (fun c => (c =? 58) || ascii_digit c); star dot; Eos].

Definition normalize_key (k : str) : str :=
  let k := remove ZERO_WIDTH k in
  let k := replace1 IDSP SP (replace1 NBSP SP k) in
  let k := remove (fun c => mem c (U "★☆•·▶▷■○●※-=+()[]{}<>")) k in
  let k := remove isspace k in
  let k := Re.sub TRUNCATE [] k in
  strip k.

Definition any_in (ws : list str) (s : str) : bool :=
  existsb (fun w => contains w s) ws.

(** [auto_map_key], lines 48-62 *)
Definition auto_map_key (pre_norm : str) : option string :=
  if any_in [U "대상"; U "자격"] pre_norm then Some "target"%string
  else if any_in [U "기간"; U "일시"; U "시간"; U "기한"; U "일정"] pre_norm
  then Some "period"%string
  else if any_in [U "방법"; U "금액"] pre_norm then Some "method"%string
  else if any_in [U "문의"; U "연락처"; U "전화번호"; U "담당"; U "접수"] pre_norm
  then Some "contact"%string
  else if any_in [U "장소"; U "위치"; U "지역"; U "운영장소"; U "현황"] pre_norm
  then Some "location"%string
  else if any_in [U "내용"; U "소개"; U "개요"; U "설명"; U "보장내용";
                  U "지원내용"; U "사업내용"] pre_norm
  then Some "content"%string
  else None.

(** State of the loop of [parse_detail_lines_to_fields]. *)
Record acc := Acc {
  fields : gmap string str;
  current_section : option string;
  locked_section : option string
}.

Definition init : acc := Acc ∅ None None.

(** [fields.get(k, '')] *)
Definition get (f : gmap string str) (k : string) : str := default [] (f !! k).

(** [f"{fields.get(k, '')} / {v}".strip(" /")] *)
Definition joined (f : gmap string str) (k : string) (v : str) : str :=
  strip_chars (U " /") (get f k ++ U " / " ++ v).

(** Truth value of a section variable ([None] or a key). *)
Definition section (x : option string) : option string :=
  match x with
  | Some k => if String.eqb k "" then None else Some k
  | None => None
  end.

(** [re.sub(r"&nbsp;?", " ", text)] *)
Definition NBSP_ENTITY : regex := seq [lit (U "&nbsp"); opt (chr 59)].

(** [text] of a raw line, [None] for a line skipped as blank (lines 166-169) *)
Definition line_text (raw : str) : option str :=
  let text := strip (remove ZERO_WIDTH raw) in
  if is_nil text then None else Some (Re.sub NBSP_ENTITY [SP] text).

(** The key a line is checked for while a section is locked (lines 174-176) *)
Definition locked_candidate (text : str) : option string :=
  let check_key :=
    dropwhile (fun c => isspace c || mem c (U "○●※-–•·∙⋅☆▶▷")) text in
  let key_norm :=
    normalize_key (before (N.eqb 45) (before (N.eqb 58) check_key)) in
  section (auto_map_key key_norm).

(** The value of the line that unlocks (lines 183-186) *)
Definition unlock_value (text : str) : str :=
  match after delimiter text with
  | Some r => strip r
  | None => []
  end.

(** The bullet pattern of line 201 *)
Definition BULLET : regex :=
  seq [Bos; star (Cls (fun c => isspace c || (c =? IDSP)));
       oneof (U "▶▷○●□■◆◇☆-–•·∙⋅●◦❍"); star ws;
       Ahead (seq [opt (chr 40);
                   Cls (fun c => hangul c || ascii_letter c || ascii_digit c)])].

(** [stripped], lines 196-204 *)
Definition stripped_of (text : str) : str :=
  if startswith (U "※") (lstrip text) then strip text
  else strip (Re.sub BULLET [] text).

(** The pattern of line 224 *)
Definition DASH : regex :=
  seq [Bos; Grp 1 (lazy_plus (Cls (fun c => hangul c || isspace c)));
       star ws; oneof (U "-–"); star ws; Grp 2 (plus dot); Eos].

(** What a line contributes outside a locked section: the key it is
    classified to, with the value appended when there is one
    (lines 208-247); [None] for a line that is no key line. *)
Definition classify (stripped : str) : option (string * option str) :=
  let by_colon :=
    if existsb colon stripped then
      let key := before colon stripped in
      let val := default [] (after colon stripped) in
      match section (auto_map_key (normalize_key key)) with
      | Some mapped => Some (mapped, Some (strip key ++ U " : " ++ strip val))
      | None => None
      end
    else None in
  match by_colon with
  | Some r => Some r
  | None =>
    let by_dash :=
      match rmatch DASH stripped with
      | Some (_, g) =>
        let key := group 1 g stripped in
        let val := group 2 g stripped in
        match section (auto_map_key (normalize_key key)) with
        | Some mapped => Some (mapped, Some (strip key ++ U " - " ++ strip val))
        | None => None
        end
      | None => None
      end in
    match by_dash with
    | Some r => Some r
    | None =>
      match section (auto_map_key (normalize_key stripped)) with
      | Some mapped => Some (mapped, None)
      | None => None
      end
    end
  end.

Definition lock_of (mapped : string) (locked : option string) : option string :=
  if String.eqb mapped "method" then Some "method"%string else locked.

(** One iteration of the loop of [parse_detail_lines_to_fields],
    lines 165-251 *)
Definition step (st : acc) (raw : str) : acc :=
  match line_text raw with
  | None => st
  | Some text =>
    match section (locked_section st) with
    | Some locked =>
      match locked_candidate text with
      | Some new_mapped =>
        if negb (String.eqb new_mapped locked) then
          Acc (<[new_mapped := joined (fields st) new_mapped (unlock_value text)]>
                 (fields st))
              (Some new_mapped) None
        else
          Acc (<[locked := joined (fields st) locked text]> (fields st))
              (current_section st) (locked_section st)
      | None =>
        Acc (<[locked := joined (fields st) locked text]> (fields st))
            (current_section st) (locked_section st)
      end
    | None =>
      match classify (stripped_of text) with
      | Some (mapped, Some v) =>
        Acc (<[mapped := joined (fields st) mapped v]> (fields st))
            (Some mapped) (lock_of mapped (locked_section st))
      | Some (mapped, None) =>
        Acc (fields st) (Some mapped) (lock_of mapped (locked_section st))
      | None =>
        let target := default "content"%string (section (current_section st)) in
        Acc (<[target := joined (fields st) target text]> (fields st))
            (current_section st) (locked_section st)
      end
    end
  end.

Definition run (st : acc) (detail_lines : list str) : acc :=
  fold_left step detail_lines st.

(** [parse_detail_lines_to_fields], lines 160-253 *)
Definition parse_detail_lines_to_fields (detail_lines : list str)
  : gmap string str :=
  fields (run init detail_lines).

(** Item boundaries of [split_items], line 283 *)
Definition ANGLE_LINE : regex :=
  seq [Bos; Cls open_bracket; plus dot; Cls close_bracket; Eos].
Definition NUMBERED : regex :=
  seq [Bos; plus (Cls isdecimal); chr 46; star ws;
       Cls (fun c => ascii_letter c || hangul c)].

Definition is_boundary (ln : str) : bool :=
  startswith (U "▶") ln || matches ANGLE_LINE ln || matches NUMBERED ln.

(** [re.sub(r"^\[▶\s\]*", "", ln).strip()], line 285 *)
Definition title_of (ln : str) : str :=
  strip (dropwhile (fun c => mem c (U "▶") || isspace c) ln).

(** [re.sub(r"\[<〈《>〉》\]", "", s).strip()], lines 290-291 *)
Definition unbracket (s : str) : str :=
  strip (remove (fun c => open_bracket c || close_bracket c) s).

(** [flush_if_has_details], lines 269-276 *)
Definition flush_if_has_details (st : seg) : seg :=
  Seg (match current_title st, current_details st with
       | Some (c :: t), _ :: _ =>
         items st ++ [Item (strip (c :: t)) (current_details st)]
       | _, _ => items st
       end) None [].

(** One iteration of the loop of [split_items], lines 278-298 *)
Definition seg_step (fallback_title : option str) (st : seg) (ln : str) : seg :=
  if startswith_any drop_tokens ln then st
  else if is_boundary ln then
    Seg (items (flush_if_has_details st)) (Some (title_of ln)) []
  else if truthy fallback_title
          && str_eqb (unbracket ln) (unbracket (default [] fallback_title))
  then st
  else if truthy (current_title st)
  then Seg (items st) (current_title st) (current_details st ++ [ln])
  else st.

(** The items found from explicit boundaries, lines 278-301 *)
Definition explicit_items (fallback_title : option str) (lines : list str)
  : list item :=
  items (flush_if_has_details
           (fold_left (seg_step fallback_title) lines (Seg [] None []))).

(** [split_items], lines 264-310 *)
Definition split_items (text : str) (fallback_title : option str) : list item :=
  let lines := stripped_lines text in
  match explicit_items fallback_title lines, lines with
  | [], _ :: _ => [Item (or_else fallback_title placeholder) lines]
  | its, _ => its
  end.

(** The record of one item, [build_records] lines 333-348 *)
Record record := Record_ {
  region : str;
  source_category : str;
  rec_item_title : str;
  target : str;
  period : str;
  content : str;
  method : str;
  contact : str;
  location : str;
  full_text : str;
  source_url : str
}.

Definition REGION : str := U "중구".

Definition build_record (url : str) (it : item) : record :=
  let f := parse_detail_lines_to_fields (detail_lines it) in
  {| region := REGION;
     source_category := [];
     rec_item_title := item_title it;
     target := get f "target";
     period := get f "period";
     content := get f "content";
     method := get f "method";
     contact := get f "contact";
     location := get f "location";
     full_text := U "▶ " ++ item_title it ++ [LF] ++ join [LF] (detail_lines it);
     source_url := url |}.

(** [build_records] after the page was fetched and rendered to [text],
    with [item_title] the page heading. *)
Definition build_records (url text item_title : str) : list record :=
  map (build_record url) (split_items text (Some item_title)).

(** [collect_detail_urls_from_list], lines 130-156.  The list pages are
    given by [fetch_links]: for the number of a page, the [href] attributes
    of the anchors selected on it, or [None] when the request fails;
    [urljoin] resolves a relative link against the list URL. *)
Section Crawl.

Variable fetch_links : nat -> option (list str).
Variable urljoin : str -> str.

(** The body of the loop over the anchors, lines 144-151; the state is
    [urls] and [seen]. *)
Definition add_link (st : list str * list str) (href : str)
  : list str * list str :=
  let href := strip href in
  if is_nil href then st
  else
    let href := if startswith (U "http") href then href else urljoin href in
    if existsb (str_eqb href) (snd st) then st
    else (fst st ++ [href], href :: snd st).

(** The loop over the pages [page], [page + 1], ..., of which [n] are
    left. *)
Fixpoint collect_pages (n page : nat) (urls seen : list str) : list str :=
  match n with
  | O => urls
  | S n' =>
    match fetch_links page with
    | None => urls
    | Some hrefs =>
      let st := fold_left add_link hrefs (urls, seen) in
      if (length (fst st) =? length urls)%nat then fst st
      else collect_pages n' (S page) (fst st) (snd st)
    end
  end.

Definition collect_detail_urls_from_list (max_pages : nat) : list str :=
  collect_pages max_pages 1 [] [].

End Crawl.

End Junggu.

(** ** The alias-table accumulator shared by pr-1.py and pr-2.py

    The two scripts differ in the alias table, in the leading marker that
    is removed from a line and in the bullet prefixes; these are the
    variables of the section. *)

Module Alias.

(** [KEY_VALUE_PAT] and [PHONE_SEQ] *)
Definition KEY_VALUE_PAT : regex :=
  seq [star ws; Grp 1 (lazy_plus dot); star ws; Cls delimiter; star ws;
       Grp 2 (plus dot); Eos].

Definition digits (lo hi : nat) : regex := Rep true lo (Some hi) (Cls isdecimal).

Definition PHONE : regex :=
  seq [digits 2 4; star ws; chr 45; star ws; digits 3 4; star ws; chr 45;
       star ws; digits 4 4].

Definition PHONE_SEQ : regex :=
  seq [PHONE; star (seq [star ws; chr 47; star ws; PHONE])].

(** [NUM_BULLET] *)
Definition NUM_BULLET : regex :=
  alt [seq [Bos; plus (Cls isdecimal); chr 46; star ws];
       seq [Bos; oneof (U "①②③④⑤⑥⑦⑧⑨⑩")]].

(** A letter of a pattern compiled with [re.I]. *)
Definition ci (c : N) : regex :=
  Cls (fun x => (x =? c) || (x =? c - 32)
                || ((c =? 115) && (x =? 0x17f))
                || ((c =? 105) && ((x =? 0x130) || (x =? 0x131)))).

Definition lit_ci (s : str) : regex := seq (map ci s).

(** The two splitting patterns of the contact value *)
Definition CONTACT_TAIL : regex :=
  alt [chr 91; lit (U "첨부"); lit (U "바로보기"); lit (U "목록");
       lit (U "이전글"); lit (U "다음글"); lit (U "만족"); lit (U "불만");
       lit (U "확인")].

Definition FILE_SUFFIX : regex :=
  seq [chr 46;
       Grp 1 (alt [lit_ci (U "pdf"); lit_ci (U "hwp"); lit_ci (U "hwpx");
                   seq [lit_ci (U "doc"); opt (ci 120)];
                   seq [lit_ci (U "xls"); opt (ci 120)];
                   seq [lit_ci (U "ppt"); opt (ci 120)];
                   lit_ci (U "zip");
                   seq [lit_ci (U "jp"); opt (ci 101); ci 103];
                   lit_ci (U "png")])].

(** The value kept for a contact line *)
Definition contact_value (v : str) : str :=
  let v := strip (split_head CONTACT_TAIL v) in
  let v := strip (split_head FILE_SUFFIX v) in
  match search PHONE_SEQ v with
  | Some (_, e, _) => strip (take e v)
  | None => v
  end.

(** [normalize_key] *)
Definition normalize_key (k : str) : str :=
  let k := remove ZERO_WIDTH k in
  let k := replace1 IDSP SP (replace1 NBSP SP k) in
  let k := remove (fun c => mem c (U "★☆•·[](){}")) k in
  let k := remove (fun c => mem c (U "-–—")) k in
  remove isspace k.

(** [append_field] *)
Definition append_field (fields : gmap string str) (key : string) (val : str)
  : gmap string str :=
  if is_nil val then fields
  else
    match fields !! key with
    | Some (c :: old) => <[key := (c :: old) ++ U " / " ++ val]> fields
    | _ => <[key := val]> fields
    end.

(** State of the loop of [parse_detail_lines_to_fields]. *)
Record acc := Acc {
  fields : gmap string str;
  current_section : option string
}.

Definition init : acc := Acc ∅ None.

(** Truth value of a section variable ([None] or a key). *)
Definition section (x : option string) : option string :=
  match x with
  | Some k => if String.eqb k "" then None else Some k
  | None => None
  end.

Section Variant.

Variable KEY_ALIAS : list (str * string).
Variable LEADING : regex.
Variable BULLET_PREFIXES : list str.

(** [KEY_ALIAS.get(k)] *)
Definition alias_get (k : str) : option string :=
  match List.find (fun e => str_eqb (fst e) k) KEY_ALIAS with
  | Some (_, v) => Some v
  | None => None
  end.

(** Step 1: a line of the form key, delimiter, value *)
Definition key_value (head_candidate : str) : option (string * str) :=
  match rmatch KEY_VALUE_PAT head_candidate with
  | Some (_, g) =>
    let pre := strip (group 1 g head_candidate) in
    let post := strip (group 2 g head_candidate) in
    match section (alias_get (normalize_key pre)) with
    | Some k_std =>
      Some (k_std, if String.eqb k_std "contact" then contact_value post else post)
    | None => None
    end
  | None => None
  end.

(** Step 2: the longest prefix of words that is an alias, with the rest of
    the line *)
Fixpoint scan_from (i : nat) (words : list str) (head_candidate : str)
  : option (string * str) :=
  match i with
  | O => None
  | S i' =>
    let pre_part := join [SP] (take i words) in
    match alias_get (normalize_key pre_part) with
    | Some k_std => Some (k_std, strip (drop (length pre_part) head_candidate))
    | None => scan_from i' words head_candidate
    end
  end.

Definition scan (head_candidate : str) : option (string * str) :=
  scan_from (length (words head_candidate)) (words head_candidate) head_candidate.

(** One iteration of the loop of [parse_detail_lines_to_fields] *)
Definition step (st : acc) (raw : str) : acc :=
  let raw_norm := strip (remove ZERO_WIDTH raw) in
  if is_nil raw_norm then st
  else
    let head_candidate := Re.sub LEADING [] raw_norm in
    match key_value head_candidate with
    | Some (k_std, v) => Acc (append_field (fields st) k_std v) (Some k_std)
    | None =>
      match scan head_candidate with
      | Some (k_std, rest) =>
        Acc (if is_nil rest then fields st
             else append_field (fields st) k_std rest) (Some k_std)
      | None =>
        let target := default "content"%string (section (current_section st)) in
        if startswith_any BULLET_PREFIXES raw_norm || matches NUM_BULLET raw_norm
        then Acc (append_field (fields st) target raw_norm) (current_section st)
        else Acc (append_field (fields st) target raw_norm) (current_section st)
      end
    end.

Definition run (st : acc) (detail_lines : list str) : acc :=
  fold_left step detail_lines st.

Definition parse_detail_lines_to_fields (detail_lines : list str)
  : gmap string str :=
  fields (run init detail_lines).

End Variant.

(** [item_block_text] *)
Definition item_block_text (it : item) : str :=
  let title := strip (item_title it) in
  let lines := List.filter (fun l => negb (is_nil l)) (map strip (detail_lines it)) in
  let body := join [LF] lines in
  match title, body with
  | _ :: _, _ :: _ => U "▶ " ++ title ++ [LF] ++ body
  | _ :: _, [] => U "▶ " ++ title
  | [], _ => body
  end.

(** The noise patterns and the pattern a contact line is cut at *)
Definition NOISE_LINE_PAT : regex :=
  alt [seq [chr 91; lazy_plus dot; chr 93; star dot];
       lit (U "해당 메뉴에 대한 만족도");
       seq [lit (U "아주"); star ws; lit (U "만족")];
       lit (U "보통");
       seq [lit (U "아주"); star ws; lit (U "불만")]].

Definition NOISE_CUT : regex :=
  alt [seq [chr 91; lazy_star dot; chr 93];
       lit (U "해당 메뉴에 대한 만족도");
       seq [lit (U "아주"); star ws; lit (U "만족")];
       lit (U "보통");
       seq [lit (U "아주"); star ws; lit (U "불만")]].

End Alias.

(** ** The table written by [save_records] of pr-1.py and pr-2.py *)

Module Frame.

(** One row; a cell is a string or [None]. The columns are [COLS]. *)
Record row := Row {
  region : option str;
  source_category : option str;
  item_title : option str;
  target : option str;
  application_period : option str;
  content : option str;
  application_method : option str;
  contact : option str;
  notes : option str;
  purchase_method : option str;
  location : option str;
  full_text : option str;
  source_url : option str
}.

(** The patterns of [_canon_text] *)
Definition BLANKS : regex := plus (oneof [SP; 9]).
Definition NEWLINE_RUN : regex := seq [star ws; chr LF; star ws].
Definition NEWLINES : regex := Rep true 2 None (chr LF).

(** [_canon_text] *)
Definition _canon_text (x : option str) : str :=
  match x with
  | None => []
  | Some s =>
    let s := remove ZERO_WIDTH s in
    let s := replace1 IDSP SP (replace1 NBSP SP s) in
    let s := Re.sub BLANKS [SP] s in
    let s := Re.sub NEWLINE_RUN [LF] s in
    let s := Re.sub NEWLINES [LF] s in
    strip s
  end.

(** The cells of [compare_cols], every column but [source_url] and
    [full_text] *)
Definition compare_cols (r : row) : list (option str) :=
  [region r; source_category r; item_title r; target r; application_period r;
   content r; application_method r; contact r; notes r; purchase_method r;
   location r].

(** [df\[c\] = df\[c\].apply(_canon_text)] for every [c] of [compare_cols] *)
Definition canon_row (r : row) : row :=
  {| region := Some (_canon_text (region r));
     source_category := Some (_canon_text (source_category r));
     item_title := Some (_canon_text (item_title r));
     target := Some (_canon_text (target r));
     application_period := Some (_canon_text (application_period r));
     content := Some (_canon_text (content r));
     application_method := Some (_canon_text (application_method r));
     contact := Some (_canon_text (contact r));
     notes := Some (_canon_text (notes r));
     purchase_method := Some (_canon_text (purchase_method r));
     location := Some (_canon_text (location r));
     full_text := full_text r;
     source_url := source_url r |}.

Definition seen_before (key : list (option str)) (seen : list (list (option str)))
  : bool :=
  existsb (fun k => bool_decide (k = key)) seen.

(** [df.drop_duplicates(subset=compare_cols, keep="first")]: a row is kept
    unless an earlier row has the same cells in [compare_cols]. *)
Fixpoint drop_duplicates (seen : list (list (option str))) (rows : list row)
  : list row :=
  match rows with
  | [] => []
  | r :: rest =>
    if seen_before (compare_cols r) seen then drop_duplicates seen rest
    else r :: drop_duplicates (compare_cols r :: seen) rest
  end.

(** The rows [save_records] writes, lines 358-370 of pr-1.py *)
Definition save_records (records : list row) : list row :=
  drop_duplicates [] (map canon_row records).

End Frame.

(** ** pr-1.py *)

Module Pr1.

Definition KEY_ALIAS : list (str * string) :=
  [(U "대상", "target"); (U "지원대상", "target"); (U "지원자격", "target");
   (U "내용", "content"); (U "주요내용", "content"); (U " 주요내용", "content");
   (U "지원내용", "content"); (U "보장내용", "content");
   (U "제출서류", "content"); (U "지원한도", "content"); (U "지원금액", "content");
   (U "지원 금액", "content"); (U "한도", "content"); (U "지원형태", "content");
   (U "사용처", "notes"); (U "기타", "notes"); (U "비고", "notes");
   (U "이용방법", "application_method"); (U "신청방법", "application_method");
   (U "신청", "application_method");
   (U "청구방법", "application_method"); (U "인증방법", "application_method");
   (U "문의", "contact"); (U "문 의", "contact"); (U "연락처", "contact");
   (U "기간", "application_period"); (U "신청기간", "application_period");
   (U "신청기한", "application_period");
   (U "청구기간", "application_period"); (U "보장기간", "application_period");
   (U "추진일정", "application_period");
   (U "일시", "application_period"); (U "일 시", "application_period");
   (U "구입방법", "purchase_method"); (U "구 입 방법", "purchase_method");
   (U "장소", "location"); (U "장 소", "location")]%string.

(** [strip_leading_oi]: [re.sub(r"^ㅇ\s*", "", s)] *)
Definition LEADING : regex := seq [Bos; chr 0x3147; star ws].

Definition BULLET_PREFIXES : list str :=
  [U "☞"; U "•"; U "·"; U "-"; U "▶"; U "▷"; U "■"].

Definition normalize_key := Alias.normalize_key.
Definition append_field := Alias.append_field.

Definition step : Alias.acc -> str -> Alias.acc :=
  Alias.step KEY_ALIAS LEADING BULLET_PREFIXES.

Definition parse_detail_lines_to_fields : list str -> gmap string str :=
  Alias.parse_detail_lines_to_fields KEY_ALIAS LEADING BULLET_PREFIXES.

(** The contact headers of [trim_noise_lines], line 90 *)
Definition INQUIRY : regex :=
  seq [Bos; chr 0x3147; star ws; chr 0xBB38; star ws; chr 0xC758].
Definition CONTACT : regex := seq [Bos; chr 0x3147; star ws; lit (U "연락처")].

(** [trim_noise_lines], lines 86-98 *)
Fixpoint trim_noise_lines (lines : list str) : list str :=
  match lines with
  | [] => []
  | ln :: rest =>
    let text := strip ln in
    if matches INQUIRY text || matches CONTACT text then
      let text := strip (split_head Alias.NOISE_CUT text) in
      if is_nil text then trim_noise_lines rest
      else text :: trim_noise_lines rest
    else if found Alias.NOISE_LINE_PAT text then []
    else ln :: trim_noise_lines rest
  end.

(** [ANGLE_TITLE_PAT] *)
Definition ANGLE_TITLE_PAT : regex :=
  seq [Bos; star ws; Cls open_bracket; Grp 1 (lazy_plus dot);
       Cls close_bracket; star ws; Eos].

(** [flush_if_has_details], lines 150-154 *)
Definition flush_if_has_details (st : seg) : seg :=
  Seg (match current_title st, current_details st with
       | Some (c :: t), _ :: _ => items st ++ [Item (c :: t) (current_details st)]
       | _, _ => items st
       end) None [].

(** [current_details\[-1\] += " " + ln] *)
Fixpoint extend_last (details : list str) (ln : str) : list str :=
  match details with
  | [] => []
  | [d] => [d ++ [SP] ++ ln]
  | d :: r => d :: extend_last r ln
  end.

(** One iteration of the loop of [split_items], lines 156-179 *)
Definition seg_step (st : seg) (ln : str) : seg :=
  if startswith_any drop_tokens ln then st
  else if startswith (U "▶") ln then
    Seg (items (flush_if_has_details st))
        (Some (strip (lstrip_chars (U "▶") ln))) []
  else
    match rmatch ANGLE_TITLE_PAT ln with
    | Some (_, g) =>
      Seg (items (flush_if_has_details st)) (Some (strip (group 1 g ln))) []
    | None =>
      if startswith (U "ㅇ") ln then
        match current_title st with
        | None => st
        | Some _ => Seg (items st) (current_title st) (current_details st ++ [ln])
        end
      else
        match current_details st with
        | _ :: _ => Seg (items st) (current_title st) (extend_last (current_details st) ln)
        | [] =>
          if truthy (current_title st)
          then Seg (items st) (current_title st) (current_details st ++ [ln])
          else st
        end
    end.

(** The items found from explicit boundaries, lines 156-182 *)
Definition explicit_items (lines : list str) : list item :=
  items (flush_if_has_details (fold_left seg_step lines (Seg [] None []))).

(** [split_items], lines 145-188 *)
Definition split_items (text : str) (fallback_title : option str) : list item :=
  let lines := stripped_lines text in
  match explicit_items lines, lines with
  | [], _ :: _ => [Item (or_else fallback_title placeholder) lines]
  | its, _ => its
  end.

Definition item_block_text := Alias.item_block_text.

(** The row of one item, [build_records] lines 319-339 *)
Definition REGION : str := U "중구".

Definition build_record (category url : str) (it : item) : Frame.row :=
  let clean_lines := trim_noise_lines (detail_lines it) in
  let fields := parse_detail_lines_to_fields clean_lines in
  {| Frame.region := Some REGION;
     Frame.source_category := Some category;
     Frame.item_title := Some (item_title it);
     Frame.target := fields !! "target"%string;
     Frame.application_period := fields !! "application_period"%string;
     Frame.content := fields !! "content"%string;
     Frame.application_method := fields !! "application_method"%string;
     Frame.contact := fields !! "contact"%string;
     Frame.notes := fields !! "notes"%string;
     Frame.purchase_method := fields !! "purchase_method"%string;
     Frame.location := fields !! "location"%string;
     Frame.full_text := Some (item_block_text (Item (item_title it) clean_lines));
     Frame.source_url := Some url |}.

(** [build_records] after the page was fetched and rendered to [text],
    with its heading and its category. *)
Definition build_records (category url text page_heading : str)
  : list Frame.row :=
  map (build_record category url) (split_items text (Some page_heading)).

Definition save_records := Frame.save_records.

(** [s.split(d)] for a single character [d] *)
Fixpoint split_on (d : N) (cur : str) (s : str) : list str :=
  match s with
  | [] => [cur]
  | c :: r =>
    if c =? d then cur :: split_on d [] r else split_on d (cur ++ [c]) r
  end.

(** [get_category_from_breadcrumb], lines 291-306, on the text of the
    breadcrumb node ([None] when the page has no such node) *)
Definition get_category_from_breadcrumb (bc_text : option str) : option str :=
  match bc_text with
  | None => None
  | Some t =>
    match List.filter (fun p => negb (is_nil p)) (map strip (split_on 124 [] t)) with
    | [] => None
    | first :: _ =>
      if contains (U "정책") first then Some (U "정책")
      else if contains (U "교육·문화") first then Some (U "교육문화")
      else Some first
    end
  end.

(** [category], line 314 *)
Definition category_of (bc_text : option str) : str :=
  or_else (get_category_from_breadcrumb bc_text) (U "기타").

End Pr1.

(** ** pr-2.py *)

Module Pr2.

Definition KEY_ALIAS : list (str * string) :=
  [(U "대상", "target"); (U "지원대상", "target"); (U "지원자격", "target");
   (U "내용", "content"); (U "주요내용", "content"); (U "지원내용", "content");
   (U "보장내용", "content"); (U "제출서류", "content");
   (U "지원한도", "content"); (U "지원금액", "content"); (U "지원 금액", "content");
   (U "한도", "content"); (U "지원형태", "content");
   (U "사용처", "notes"); (U "기타", "notes"); (U "비고", "notes");
   (U "이용방법", "application_method"); (U "신청방법", "application_method");
   (U "신청", "application_method");
   (U "청구방법", "application_method"); (U "인증방법", "application_method");
   (U "문의", "contact"); (U "문 의", "contact"); (U "연락처", "contact");
   (U "기간", "application_period"); (U "신청기간", "application_period");
   (U "신청기한", "application_period");
   (U "청구기간", "application_period"); (U "보장기간", "application_period");
   (U "추진일정", "application_period");
   (U "일시", "application_period"); (U "일 시", "application_period");
   (U "구입방법", "purchase_method"); (U "구 입 방법", "purchase_method");
   (U "장소", "location"); (U "장 소", "location")]%string.

(** [strip_leading_marker]: [re.sub(r"^\[ㅇ○\]\s*", "", s)] *)
Definition LEADING : regex := seq [Bos; oneof (U "ㅇ○"); star ws].

Definition BULLET_PREFIXES : list str :=
  [U "☞"; U "•"; U "·"; U "-"; U "▶"; U "▷"; U "■"; U "※"; U "●"; U "○"].

Definition normalize_key := Alias.normalize_key.
Definition append_field := Alias.append_field.

Definition step : Alias.acc -> str -> Alias.acc :=
  Alias.step KEY_ALIAS LEADING BULLET_PREFIXES.

Definition parse_detail_lines_to_fields : list str -> gmap string str :=
  Alias.parse_detail_lines_to_fields KEY_ALIAS LEADING BULLET_PREFIXES.

(** The contact headers of [trim_noise_lines], line 104 *)
Definition INQUIRY : regex :=
  seq [Bos; opt (seq [oneof (U "ㅇ○"); star ws]); chr 0xBB38; star ws; chr 0xC758].
Definition CONTACT : regex :=
  seq [Bos; opt (seq [oneof (U "ㅇ○"); star ws]); lit (U "연락처")].

(** [trim_noise_lines], lines 100-109: a contact line whose cut text is
    empty falls through to the noise test, which is applied to the cut
    text. *)
Fixpoint trim_noise_lines (lines : list str) : list str :=
  match lines with
  | [] => []
  | ln :: rest =>
    let t := strip ln in
    let is_contact := matches INQUIRY t || matches CONTACT t in
    let t := if is_contact then strip (split_head Alias.NOISE_CUT t) else t in
    if is_contact && negb (is_nil t) then t :: trim_noise_lines rest
    else if found Alias.NOISE_LINE_PAT t then []
    else ln :: trim_noise_lines rest
  end.

(** [split_items], lines 111-115: the page is one item; the navigation
    lines and the caption of the table are left out. *)
Definition NAV_DROPS : list str :=
  [U "홈"; U "복지"; U "외국인 지원"; U "교육·문화"; U "공유하기"; U "링크복사"].

Definition TABLE_CAPTION : str :=
  U "상세 : 제목, 작성자, 작성일, 조회, 내용, 첨부로 구성".

Definition split_items (text : str) (fallback_title : option str) : list item :=
  let lines := stripped_lines text in
  let lines :=
    List.filter (fun ln => negb (existsb (str_eqb ln) NAV_DROPS)
                           && negb (endswith TABLE_CAPTION ln)) lines in
  [Item (or_else fallback_title placeholder) lines].

Definition item_block_text := Alias.item_block_text.

(** The row of one item, [build_records] lines 198-215 *)
Definition REGION : str := U "중구".
Definition CATEGORY : str := U "교육문화".

Definition build_record (url : str) (it : item) : Frame.row :=
  let clean_lines := trim_noise_lines (detail_lines it) in
  let fields := parse_detail_lines_to_fields clean_lines in
  {| Frame.region := Some REGION;
     Frame.source_category := Some CATEGORY;
     Frame.item_title := Some (item_title it);
     Frame.target := fields !! "target"%string;
     Frame.application_period := fields !! "application_period"%string;
     Frame.content := fields !! "content"%string;
     Frame.application_method := fields !! "application_method"%string;
     Frame.contact := fields !! "contact"%string;
     Frame.notes := fields !! "notes"%string;
     Frame.purchase_method := fields !! "purchase_method"%string;
     Frame.location := fields !! "location"%string;
     Frame.full_text := Some (item_block_text (Item (item_title it) clean_lines));
     Frame.source_url := Some url |}.

(** [build_records] after the page was fetched and rendered to [text],
    with [item_title] the title found for the page. *)
Definition build_records (url text item_title : str) : list Frame.row :=
  map (build_record url) (split_items text (Some item_title)).

Definition save_records := Frame.save_records.

End Pr2.

(** * Properties *)

(** ** Facts about the string primitives *)

Section PyFacts.

Implicit Types (s t : str) (p : N -> bool).

Lemma dropwhile_suffix p s : exists pre, s = pre ++ dropwhile p s.
Proof.
  induction s as [|c r [pre IH]]; simpl.
  - exists []. reflexivity.
  - destruct (p c).
    + exists (c :: pre). simpl. now rewrite <- IH.
    + exists []. reflexivity.
Qed.

Lemma dropwhile_head p s c r : dropwhile p s = c :: r -> p c = false.
Proof.
  induction s as [|x s IH]; simpl; [discriminate|].
  destruct (p x) eqn:E; [exact IH|].
  intros H. injection H as -> _. exact E.
Qed.

Lemma dropwhile_id p c r : p c = false -> dropwhile p (c :: r) = c :: r.
Proof. intros H. simpl. now rewrite H. Qed.

Lemma rdropwhile_snoc p s c :
  rdropwhile p (s ++ [c]) = if p c then rdropwhile p s else s ++ [c].
Proof.
  induction s as [|x s IH]; simpl.
  - destruct (p c); reflexivity.
  - rewrite IH. destruct (p c) eqn:E; [reflexivity|].
    destruct (s ++ [c]) eqn:F; [|reflexivity].
    destruct s; discriminate.
Qed.

Lemma rdropwhile_prefix p s : exists post, s = rdropwhile p s ++ post.
Proof.
  induction s as [|c s IH] using rev_ind.
  - exists []. reflexivity.
  - rewrite rdropwhile_snoc. destruct (p c).
    + destruct IH as [post IH]. exists (post ++ [c]).
      rewrite app_assoc. now rewrite <- IH.
    + exists []. now rewrite app_nil_r.
Qed.

Lemma rdropwhile_last p s r c : rdropwhile p s = r ++ [c] -> p c = false.
Proof.
  induction s as [|x s IH] using rev_ind; simpl.
  - destruct r; discriminate.
  - rewrite rdropwhile_snoc. destruct (p x) eqn:E; [exact IH|].
    intros H. apply app_inj_tail in H as [_ ->]. exact E.
Qed.

Lemma rdropwhile_cons_keep p c r :
  p c = false -> exists r', rdropwhile p (c :: r) = c :: r'.
Proof.
  intros H. simpl. destruct (rdropwhile p r); rewrite ?H; eauto.
Qed.

Lemma rdropwhile_id p s c :
  p c = false -> rdropwhile p (s ++ [c]) = s ++ [c].
Proof. intros H. now rewrite rdropwhile_snoc, H. Qed.

(** A string is tidy when stripping leaves it as it is. *)
Definition tidy (s : str) : Prop := strip s = s.

Lemma tidy_nil : tidy [].
Proof. reflexivity. Qed.

Lemma tidy_edges c s d :
  isspace c = false -> isspace d = false -> tidy (c :: s ++ [d]).
Proof.
  intros Hc Hd. unfold tidy, strip, rstrip, lstrip.
  change (c :: s ++ [d]) with ((c :: s) ++ [d]).
  rewrite rdropwhile_id by assumption. simpl. now rewrite Hc.
Qed.

Lemma tidy_single c : isspace c = false -> tidy [c].
Proof.
  intros H. unfold tidy, strip, rstrip, lstrip. simpl. rewrite H. simpl.
  now rewrite H.
Qed.

(** The shape of a tidy string: empty, or between two characters that are
    no whitespace. *)
Lemma tidy_inv s :
  tidy s ->
  s = [] \/ (exists c, s = [c] /\ isspace c = false)
  \/ exists c m d, s = c :: m ++ [d] /\ isspace c = false /\ isspace d = false.
Proof.
  unfold tidy, strip, lstrip, rstrip. intros H.
  destruct s as [|c r]; [now left|right].
  assert (Hc : isspace c = false).
  { eapply dropwhile_head. rewrite H. reflexivity. }
  destruct (rdropwhile_cons_keep isspace c r Hc) as [r' Hr].
  rewrite Hr in H. rewrite dropwhile_id in H by assumption.
  injection H as ->.
  destruct r as [|d m _] using rev_ind.
  - left. eauto.
  - right. exists c, m, d. repeat split; try assumption.
    change (c :: m ++ [d]) with ((c :: m) ++ [d]) in Hr.
    eapply rdropwhile_last. exact Hr.
Qed.

Lemma strip_head s c r : strip s = c :: r -> isspace c = false.
Proof. unfold strip, lstrip. apply dropwhile_head. Qed.

Lemma strip_tidy s : tidy (strip s).
Proof.
  destruct (strip s) as [|c r] eqn:E; [apply tidy_nil|].
  assert (Hc : isspace c = false) by (eapply strip_head; exact E).
  destruct r as [|d m _] using rev_ind; [now apply tidy_single|].
  apply tidy_edges; [assumption|].
  unfold strip, lstrip, rstrip in E.
  destruct (dropwhile_suffix isspace (rdropwhile isspace s)) as [pre Hpre].
  rewrite E in Hpre.
  eapply (rdropwhile_last isspace s (pre ++ c :: m) d).
  rewrite Hpre. rewrite <- app_assoc. reflexivity.
Qed.

Lemma strip_idem s : strip (strip s) = strip s.
Proof. apply strip_tidy. Qed.

Lemma strip_cons_nonempty c r : isspace c = false -> strip (c :: r) <> [].
Proof.
  intros Hc. unfold strip, lstrip, rstrip.
  destruct (rdropwhile_cons_keep isspace c r Hc) as [r' ->].
  rewrite dropwhile_id by assumption. discriminate.
Qed.

(** Joining two tidy non-empty lines with a space gives a tidy line. *)
Lemma tidy_glue s t :
  tidy s -> s <> [] -> tidy t -> t <> [] -> tidy (s ++ [SP] ++ t).
Proof.
  intros Hs Ns Ht Nt.
  assert (exists c s', s = c :: s' /\ isspace c = false) as (c & s' & -> & Hc).
  { destruct (tidy_inv s Hs) as [?|[(c & -> & ?)|(c & m & d & -> & ? & ?)]];
      [contradiction|eauto|eauto]. }
  assert (exists t' d, t = t' ++ [d] /\ isspace d = false) as (t' & d & -> & Hd).
  { destruct (tidy_inv t Ht) as [?|[(c' & -> & ?)|(c' & m & d & -> & ? & ?)]];
      [contradiction|exists [], c'; eauto|exists (c' :: m), d; eauto]. }
  replace ((c :: s') ++ [SP] ++ t' ++ [d]) with (c :: (s' ++ [SP] ++ t') ++ [d]).
  - now apply tidy_edges.
  - simpl. rewrite <- !app_assoc. reflexivity.
Qed.

Lemma startswith_app (l s : str) : startswith l (l ++ s) = true.
Proof. induction l; simpl; [reflexivity|]. now rewrite N.eqb_refl. Qed.

Lemma startswith_spec (l s : str) : startswith l s = true -> exists r, s = l ++ r.
Proof.
  revert s. induction l as [|a l IH]; intros s H.
  - exists s. reflexivity.
  - destruct s as [|b s]; [discriminate|]. simpl in H.
    apply andb_prop in H as [Hab H]. apply N.eqb_eq in Hab as ->.
    destruct (IH _ H) as [r ->]. exists r. reflexivity.
Qed.

Lemma contains_start (sub s : str) : startswith sub s = true -> contains sub s = true.
Proof. intros H. destruct s; simpl; rewrite H; reflexivity. Qed.

Lemma contains_app (pre sub post : str) : contains sub (pre ++ sub ++ post) = true.
Proof.
  induction pre as [|c pre IH]; simpl.
  - apply contains_start, startswith_app.
  - rewrite IH. apply orb_true_r.
Qed.

Lemma contains_spec (sub s : str) :
  contains sub s = true -> exists pre post, s = pre ++ sub ++ post.
Proof.
  induction s as [|c s IH]; simpl; intros H.
  - rewrite orb_false_r in H. destruct (startswith_spec _ _ H) as [r ->].
    exists [], r. reflexivity.
  - apply orb_prop in H as [H|H].
    + destruct (startswith_spec _ _ H) as [r ->]. exists [], r. reflexivity.
    + destruct (IH H) as (pre & post & ->). exists (c :: pre), post. reflexivity.
Qed.

Lemma contains_join (sep : str) (l : list str) (x : str) :
  In x l -> contains x (join sep l) = true.
Proof.
  induction l as [|y l IH]; [contradiction|].
  intros [->|H].
  - simpl. destruct l.
    + rewrite <- (app_nil_r x) at 2. apply (contains_app [] x []).
    + apply (contains_app [] x).
  - specialize (IH H). simpl. destruct l as [|z l]; [contradiction|].
    destruct (contains_spec _ _ IH) as (pre & post & ->).
    replace (y ++ sep ++ pre ++ x ++ post) with ((y ++ sep ++ pre) ++ x ++ post)
      by (now rewrite <- !app_assoc).
    apply contains_app.
Qed.

End PyFacts.

(** ** Item segmentation *)

Section Segmenter.

Implicit Types (s t ln : str) (p : N -> bool).

Lemma dropwhile_split p s :
  exists lead, s = lead ++ dropwhile p s /\ Forall (fun c => p c = true) lead.
Proof.
  induction s as [|c r (lead & IH & F)]; simpl.
  - exists []. split; [reflexivity|constructor].
  - destruct (p c) eqn:E.
    + exists (c :: lead). split; [simpl; now rewrite <- IH|now constructor].
    + exists []. split; [reflexivity|constructor].
Qed.

Lemma rdropwhile_split p s :
  exists tail, s = rdropwhile p s ++ tail /\ Forall (fun c => p c = true) tail.
Proof.
  induction s as [|c s (tail & IH & F)] using rev_ind.
  - exists []. split; [reflexivity|constructor].
  - rewrite rdropwhile_snoc. destruct (p c) eqn:E.
    + exists (tail ++ [c]). split.
      * rewrite app_assoc. now rewrite <- IH.
      * apply Forall_app. split; [assumption|]. now repeat constructor.
    + exists []. split; [now rewrite app_nil_r|constructor].
Qed.

(** Stripping removes whitespace at both ends and nothing else. *)
Lemma strip_split s :
  exists lead tail,
    s = lead ++ strip s ++ tail
    /\ Forall (fun c => isspace c = true) lead
    /\ Forall (fun c => isspace c = true) tail.
Proof.
  destruct (rdropwhile_split isspace s) as (tail & Hs & Ft).
  destruct (dropwhile_split isspace (rdropwhile isspace s)) as (lead & Hr & Fl).
  exists lead, tail. repeat split; try assumption.
  unfold strip, lstrip, rstrip. rewrite app_assoc, <- Hr. exact Hs.
Qed.

(** A line that starts with the marker starts with no drop token. *)
Lemma marker_is_no_drop_token ln :
  startswith (U "▶") ln = true -> startswith_any drop_tokens ln = false.
Proof.
  intros H. apply startswith_spec in H as [r ->]. reflexivity.
Qed.

Definition marker_or_space (c : N) : bool := mem c (U "▶") || isspace c.

(** The title [t] is what is left of the line [ln] between marker glyphs
    and whitespace in front and whitespace behind. *)
Definition title_within (t ln : str) : Prop :=
  tidy t /\
  exists lead tail,
    ln = lead ++ t ++ tail
    /\ Forall (fun c => marker_or_space c = true) lead
    /\ Forall (fun c => isspace c = true) tail.

Lemma junggu_title_within ln : title_within (Junggu.title_of ln) ln.
Proof.
  split; [apply strip_tidy|]. unfold Junggu.title_of.
  destruct (dropwhile_split marker_or_space ln) as (l1 & H1 & F1).
  fold marker_or_space.
  destruct (strip_split (dropwhile marker_or_space ln)) as (l2 & tail & H2 & F2 & Ft).
  exists (l1 ++ l2), tail. repeat split; try assumption.
  - rewrite <- app_assoc, <- H2. exact H1.
  - apply Forall_app. split; [assumption|].
    eapply Forall_impl; [exact F2|]. intros c Hc. unfold marker_or_space.
    rewrite Hc. apply orb_true_r.
Qed.

Lemma pr1_title_within ln :
  title_within (strip (lstrip_chars (U "▶") ln)) ln.
Proof.
  split; [apply strip_tidy|]. unfold lstrip_chars.
  set (q := fun c => mem c (U "▶")).
  destruct (dropwhile_split q ln) as (l1 & H1 & F1).
  destruct (strip_split (dropwhile q ln)) as (l2 & tail & H2 & F2 & Ft).
  exists (l1 ++ l2), tail. repeat split; try assumption.
  - rewrite <- app_assoc, <- H2. exact H1.
  - apply Forall_app. split.
    + eapply Forall_impl; [exact F1|]. intros c Hc. unfold marker_or_space.
      subst q. cbv beta in Hc. now rewrite Hc.
    + eapply Forall_impl; [exact F2|]. intros c Hc. unfold marker_or_space.
      rewrite Hc. apply orb_true_r.
Qed.

(** The text whose lines are [l]. *)
Definition text_of (l : list str) : str := join [LF] l.

End Segmenter.

(** Whether junggu.py takes the line for a repetition of the fallback
    title (lines 289-293). *)
Definition repeats_title (fallback_title : option str) (ln : str) : bool :=
  truthy fallback_title
  && str_eqb (Junggu.unbracket ln) (Junggu.unbracket (default [] fallback_title)).

Lemma filter_sublist (f : str -> bool) (l : list str) : sublist (List.filter f l) l.
Proof.
  induction l as [|x l IH]; simpl; [constructor|].
  destruct (f x); now constructor.
Qed.

(** C6, as amended: when no item comes from explicit boundaries and there
    is at least one line, [split_items] returns one item, titled with the
    fallback title (the placeholder when the fallback is [None] or empty).
    In pr-1.py its detail lines are all the lines, none removed; in
    junggu.py they are lines of the document in their order, among them
    every line that does not repeat the fallback title.  When there is no
    line, no item is returned. *)
Theorem fallback_item_holds_the_lines :
  forall (text : str) (fallback_title : option str),
    let lines := stripped_lines text in
    (Pr1.explicit_items lines = [] ->
     Pr1.split_items text fallback_title
     = match lines with
       | [] => []
       | _ :: _ => [Item (or_else fallback_title placeholder) lines]
       end)
    /\ (Junggu.explicit_items fallback_title lines = [] ->
        match lines with
        | [] => Junggu.split_items text fallback_title = []
        | _ :: _ =>
          exists details,
            Junggu.split_items text fallback_title
            = [Item (or_else fallback_title placeholder) details]
            /\ sublist (List.filter
                          (fun ln => negb (repeats_title fallback_title ln))
                          lines) details
            /\ sublist details lines
        end)
    /\ or_else None placeholder = U "(본문)"
    /\ or_else (Some []) placeholder = U "(본문)"
    /\ (forall c r, or_else (Some (c :: r)) placeholder = c :: r).
Proof.
  intros text fb lines. repeat split.
  - intros H. unfold Pr1.split_items. fold lines. rewrite H.
    destruct lines; reflexivity.
  - intros H. unfold Junggu.split_items. fold lines. rewrite H.
    destruct lines as [|l ls]; [reflexivity|].
    exists (l :: ls). repeat split; [apply filter_sublist|reflexivity].
Qed.

Lemma fallback_item_holds_the_lines_witness :
  Pr1.split_items (text_of [U "공지"; U "내용"]) (Some (U "공지"))
  = [Item (U "공지") [U "공지"; U "내용"]].
Proof.
  exact (proj1 (fallback_item_holds_the_lines
                  (text_of [U "공지"; U "내용"]) (Some (U "공지"))) eq_refl).
Defined.

(** C6 as stated fails: in pr-1.py the line that repeats the fallback
    title stays among the detail lines of the fallback item, and in both
    scripts a document without lines gives no item at all. *)
Lemma fallback_keeps_title_line :
  Pr1.split_items (text_of [U "공지"; U "내용"]) (Some (U "공지"))
  = [Item (U "공지") [U "공지"; U "내용"]]
  /\ Pr1.split_items [] (Some (U "공지")) = []
  /\ Junggu.split_items [] (Some (U "공지")) = [].
Proof. repeat split; vm_compute; reflexivity. Qed.

(** ** The locked section of junggu.py *)

Section Locking.

Import Junggu.

(** While [sec] is locked, a line with text [text] stays in it unless the
    key found in the line is another one. *)
Definition stays (sec : string) (text : str) : bool :=
  match locked_candidate text with
  | Some k => String.eqb k sec
  | None => true
  end.

(** The fields after a block of lines was appended to the section [sec]. *)
Definition appended (sec : string) (f : gmap string str) (block : list str)
  : gmap string str :=
  fold_left (fun f raw => match line_text raw with
                          | Some text => <[sec := joined f sec text]> f
                          | None => f
                          end) block f.

Definition lock_ok (st : acc) : Prop :=
  locked_section st = None \/ locked_section st = Some "method"%string.

Lemma lock_of_ok mapped locked :
  locked = None \/ locked = Some "method"%string ->
  lock_of mapped locked = None \/ lock_of mapped locked = Some "method"%string.
Proof. unfold lock_of. destruct (String.eqb mapped "method"); auto. Qed.

Lemma step_lock_ok st raw : lock_ok st -> lock_ok (step st raw).
Proof.
  unfold lock_ok, step. intros H.
  destruct (line_text raw) as [text|]; [|exact H].
  destruct (section (locked_section st)) as [locked|].
  - destruct (locked_candidate text) as [k|]; [|exact H].
    destruct (negb (String.eqb k locked)); [now left|exact H].
  - destruct (classify (stripped_of text)) as [[mapped [v|]]|]; simpl;
      auto using lock_of_ok.
Qed.

Lemma run_lock_ok lines st : lock_ok st -> lock_ok (run st lines).
Proof.
  revert st. induction lines as [|raw lines IH]; intros st H; [exact H|].
  apply IH, step_lock_ok, H.
Qed.

Lemma step_blank st raw : line_text raw = None -> step st raw = st.
Proof. unfold step. now intros ->. Qed.

Lemma step_stays st raw text sec :
  section (locked_section st) = Some sec ->
  line_text raw = Some text ->
  stays sec text = true ->
  step st raw
  = Acc (<[sec := joined (fields st) sec text]> (fields st))
        (current_section st) (locked_section st).
Proof.
  unfold step, stays. intros -> -> H.
  destruct (locked_candidate text) as [k|]; [|reflexivity].
  now rewrite H.
Qed.

Lemma step_unlocks st raw text sec k :
  section (locked_section st) = Some sec ->
  line_text raw = Some text ->
  locked_candidate text = Some k ->
  k <> sec ->
  step st raw
  = Acc (<[k := joined (fields st) k (unlock_value text)]> (fields st))
        (Some k) None.
Proof.
  unfold step. intros -> -> -> H.
  destruct (String.eqb_spec k sec); [contradiction|reflexivity].
Qed.

Lemma step_locks st raw text v :
  section (locked_section st) = None ->
  line_text raw = Some text ->
  classify (stripped_of text) = Some ("method"%string, v) ->
  locked_section (step st raw) = Some "method"%string
  /\ current_section (step st raw) = Some "method"%string.
Proof.
  unfold step. intros -> -> ->. destruct v; split; reflexivity.
Qed.

Lemma run_stays block : forall st sec,
  section (locked_section st) = Some sec ->
  (forall raw text, In raw block -> line_text raw = Some text ->
                    stays sec text = true) ->
  run st block
  = Acc (appended sec (fields st) block) (current_section st) (locked_section st).
Proof.
  induction block as [|raw block IH]; intros st sec L H.
  - destruct st; reflexivity.
  - unfold run, appended in *. simpl.
    destruct (line_text raw) as [text|] eqn:T.
    + rewrite (step_stays st raw text sec L T) by (eapply H; [now left|exact T]).
      rewrite (IH _ sec); [reflexivity|exact L|].
      intros r t Hin. apply H. now right.
    + rewrite (step_blank st raw T).
      apply (IH st sec L). intros r t Hin. apply H. now right.
Qed.

Definition sep_char (c : N) : bool := mem c (U " /").

(** The value stored by [joined] is the old value, the separator and the
    new text, when neither has a blank or a slash at its ends. *)
Lemma strip_chars_edges (c d : N) (m : str) :
  sep_char c = false -> sep_char d = false ->
  strip_chars (U " /") (c :: m ++ [d]) = c :: m ++ [d].
Proof.
  intros Hc Hd. unfold strip_chars. fold sep_char.
  change (c :: m ++ [d]) with ((c :: m) ++ [d]).
  rewrite rdropwhile_id by assumption. simpl. now rewrite Hc.
Qed.

Lemma joined_appends (f : gmap string str) (k : string) (c d : N) (old v : str) :
  sep_char c = false -> sep_char d = false ->
  f !! k = Some (c :: old) ->
  joined f k (v ++ [d]) = (c :: old) ++ U " / " ++ v ++ [d].
Proof.
  intros Hc Hd Hk. unfold joined, get. rewrite Hk. simpl default.
  replace ((c :: old) ++ U " / " ++ v ++ [d])
    with (c :: (old ++ U " / " ++ v) ++ [d])
    by (simpl; now rewrite <- !app_assoc).
  now apply strip_chars_edges.
Qed.

Lemma joined_first (f : gmap string str) (k : string) (c d : N) (v : str) :
  sep_char c = false -> sep_char d = false ->
  get f k = [] ->
  joined f k (c :: v ++ [d]) = c :: v ++ [d]
  /\ joined f k [c] = [c].
Proof.
  intros Hc Hd Hk. unfold joined. rewrite Hk. split.
  - change ([] ++ U " / " ++ c :: v ++ [d])
      with ((U " / " ++ c :: v) ++ [d]).
    unfold strip_chars. fold sep_char. rewrite rdropwhile_id by assumption.
    rewrite <- app_assoc. simpl. now rewrite Hc.
  - change ([] ++ U " / " ++ [c]) with (U " / " ++ [c]).
    unfold strip_chars. fold sep_char. rewrite rdropwhile_id by assumption.
    simpl. now rewrite Hc.
Qed.

End Locking.

(** C1: the locking invariant of [parse_detail_lines_to_fields] of
    junggu.py.  (1) At every point of the accumulation no section is locked
    or the one section [method] is.  (2) A line that is classified to
    [method] outside a lock locks [method].  (3) While a section is locked,
    every line of a block in which no line carries another key is appended
    to that section, and the section stays locked.  (4) A line whose
    candidate key is another key unlocks, makes that key the current
    section and stores the value behind the delimiter under it.  (5) What
    is appended is the old value, the separator [" / "] and the text of the
    line. *)
Theorem locking_invariant :
  (forall lines : list str,
     Junggu.locked_section (Junggu.run Junggu.init lines) = None
     \/ Junggu.locked_section (Junggu.run Junggu.init lines)
        = Some "method"%string)
  /\ (forall (st : Junggu.acc) (raw text : str) (v : option str),
        Junggu.section (Junggu.locked_section st) = None ->
        Junggu.line_text raw = Some text ->
        Junggu.classify (Junggu.stripped_of text) = Some ("method"%string, v) ->
        Junggu.locked_section (Junggu.step st raw) = Some "method"%string
        /\ Junggu.current_section (Junggu.step st raw) = Some "method"%string)
  /\ (forall (st : Junggu.acc) (sec : string) (block : list str),
        Junggu.section (Junggu.locked_section st) = Some sec ->
        (forall raw text, In raw block -> Junggu.line_text raw = Some text ->
                          stays sec text = true) ->
        Junggu.run st block
        = Junggu.Acc (appended sec (Junggu.fields st) block)
                     (Junggu.current_section st) (Junggu.locked_section st))
  /\ (forall (st : Junggu.acc) (raw text : str) (sec k : string),
        Junggu.section (Junggu.locked_section st) = Some sec ->
        Junggu.line_text raw = Some text ->
        Junggu.locked_candidate text = Some k ->
        k <> sec ->
        Junggu.step st raw
        = Junggu.Acc (<[k := Junggu.joined (Junggu.fields st) k
                                (Junggu.unlock_value text)]> (Junggu.fields st))
                     (Some k) None)
  /\ (forall (f : gmap string str) (k : string) (c d : N) (old v : str),
        sep_char c = false -> sep_char d = false ->
        f !! k = Some (c :: old) ->
        Junggu.joined f k (v ++ [d]) = (c :: old) ++ U " / " ++ v ++ [d]).
Proof.
  split; [|split; [|split; [|split]]].
  - intros lines. apply (run_lock_ok lines Junggu.init). now left.
  - apply step_locks.
  - intros st sec block. apply run_stays.
  - apply step_unlocks.
  - apply joined_appends.
Qed.

Lemma locking_invariant_witness :
  Junggu.step (Junggu.Acc ∅ (Some "method"%string) (Some "method"%string))
              (U "ㅇ 장소 : 중구청 2층")
  = Junggu.Acc (<["location"%string :=
                    Junggu.joined ∅ "location"
                      (Junggu.unlock_value (U "ㅇ 장소 : 중구청 2층"))]> ∅)
               (Some "location"%string) None.
Proof.
  refine (proj1 (proj2 (proj2 (proj2 locking_invariant)))
            (Junggu.Acc ∅ (Some "method"%string) (Some "method"%string))
            (U "ㅇ 장소 : 중구청 2층") (U "ㅇ 장소 : 중구청 2층")
            "method"%string "location"%string _ _ _ _).
  - reflexivity.
  - vm_compute. reflexivity.
  - vm_compute. reflexivity.
  - discriminate.
Defined.

(** The block of the second scenario of the specification: the header
    locks [method], the two numbered lines are appended to it, the line
    with the key [장소] unlocks. *)
Example locked_block_scenario :
  let f := Junggu.parse_detail_lines_to_fields
             [U "ㅇ 신청방법"; U "1. 온라인 접수"; U "2. 방문 접수";
              U "ㅇ 장소 : 중구청 2층"] in
  f !! "method"%string = Some (U "1. 온라인 접수 / 2. 방문 접수")
  /\ f !! "location"%string = Some (U "중구청 2층")
  /\ Junggu.locked_section
       (Junggu.run Junggu.init [U "ㅇ 신청방법"; U "1. 온라인 접수"])
     = Some "method"%string.
Proof. repeat split; vm_compute; reflexivity. Qed.

(** ** Lines that begin with the reference marker *)

(** C4 (defect of junggu.py): a detail line that begins with ※ is still a
    classification candidate there.  With the section [target] open, the
    line ["※ 문의 : 02-123"] is stored under [contact] and not appended to
    [target]; the line ["※ 신청방법"] is taken as a header of [method],
    locks it, and its text reaches no field.  pr-1.py and pr-2.py append
    both lines to the open section. *)
Theorem reference_line_is_classified :
  let open_target := U "ㅇ 대상 : 외국인" in
  let f := Junggu.parse_detail_lines_to_fields [open_target; U "※ 문의 : 02-123"] in
  let g := Junggu.run Junggu.init [open_target; U "※ 신청방법"] in
  (f !! "target"%string = Some (U "ㅇ 대상 : 외국인")
   /\ f !! "contact"%string = Some (U "※ 문의 : 02-123"))
  /\ (Junggu.fields g !! "target"%string = Some (U "ㅇ 대상 : 외국인")
      /\ Junggu.fields g !! "method"%string = None
      /\ Junggu.current_section g = Some "method"%string
      /\ Junggu.locked_section g = Some "method"%string)
  /\ (Pr2.parse_detail_lines_to_fields [open_target; U "※ 문의 : 02-123"]
        !! "target"%string = Some (U "외국인 / ※ 문의 : 02-123")
      /\ Pr2.parse_detail_lines_to_fields [open_target; U "※ 문의 : 02-123"]
           !! "contact"%string = None
      /\ Pr1.parse_detail_lines_to_fields [open_target; U "※ 신청방법"]
           !! "target"%string = Some (U "외국인 / ※ 신청방법")).
Proof. repeat split; vm_compute; reflexivity. Qed.

(** ** The alias-table accumulator *)

Section AliasAccumulator.

Variable KEY_ALIAS : list (str * string).
Variable LEADING : regex.
Variable BULLET_PREFIXES : list str.

(** No key of the mapping has an empty value. *)
Definition filled (f : gmap string str) : Prop :=
  forall (k : string) (v : str), f !! k = Some v -> v <> [].

Lemma filled_empty : filled ∅.
Proof. intros k v H. rewrite lookup_empty in H. discriminate. Qed.

Lemma append_field_empty (f : gmap string str) (k : string) :
  Alias.append_field f k [] = f.
Proof. reflexivity. Qed.

Lemma append_field_filled (f : gmap string str) (k : string) (v : str) :
  filled f -> filled (Alias.append_field f k v).
Proof.
  intros F. unfold Alias.append_field.
  destruct v as [|c v]; [exact F|]. simpl is_nil. cbv iota.
  assert (forall w : str, w <> [] -> filled (<[k := w]> f)) as Ins.
  { intros w Hw k' v' H. destruct (decide (k = k')) as [->|Hne].
    - rewrite lookup_insert_eq in H. injection H as <-. exact Hw.
    - rewrite lookup_insert_ne in H by assumption. now apply (F k'). }
  destruct (f !! k) as [[|c' old]|]; apply Ins; discriminate.
Qed.

Lemma step_filled (st : Alias.acc) (raw : str) :
  filled (Alias.fields st) ->
  filled (Alias.fields (Alias.step KEY_ALIAS LEADING BULLET_PREFIXES st raw)).
Proof.
  intros F. unfold Alias.step.
  destruct (is_nil (strip (remove ZERO_WIDTH raw))); [exact F|].
  destruct (Alias.key_value _ _) as [[k v]|].
  { apply append_field_filled, F. }
  destruct (Alias.scan _ _) as [[k rest]|].
  { simpl. destruct (is_nil rest); [exact F|apply append_field_filled, F]. }
  destruct (_ || _); apply append_field_filled, F.
Qed.

Lemma run_filled (lines : list str) (st : Alias.acc) :
  filled (Alias.fields st) ->
  filled (Alias.fields (Alias.run KEY_ALIAS LEADING BULLET_PREFIXES st lines)).
Proof.
  revert st. induction lines as [|raw lines IH]; intros st F; [exact F|].
  apply IH, step_filled, F.
Qed.

End AliasAccumulator.

(** C10: in the accumulator of pr-1.py and of pr-2.py appending an empty
    value changes nothing, and after every processed line (after every
    prefix [take n lines] of the lines) every key of the mapping has a
    non-empty value. *)
Theorem accumulated_values_are_non_empty :
  (forall (f : gmap string str) (k : string),
     Pr1.append_field f k [] = f /\ Pr2.append_field f k [] = f)
  /\ (forall (lines : list str) (n : nat) (k : string) (v : str),
        (Pr1.parse_detail_lines_to_fields (take n lines) !! k = Some v -> v <> [])
        /\ (Pr2.parse_detail_lines_to_fields (take n lines) !! k = Some v
            -> v <> [])).
Proof.
  split; [intros f k; split; reflexivity|].
  intros lines n k v. split; intros H.
  - exact (run_filled Pr1.KEY_ALIAS Pr1.LEADING Pr1.BULLET_PREFIXES
             (take n lines) Alias.init filled_empty k v H).
  - exact (run_filled Pr2.KEY_ALIAS Pr2.LEADING Pr2.BULLET_PREFIXES
             (take n lines) Alias.init filled_empty k v H).
Qed.

Lemma accumulated_values_are_non_empty_witness :
  Pr1.parse_detail_lines_to_fields
    (take 2 [U "ㅇ 대상 : 외국인"; U "ㅇ 문의 :"]) !! "target"%string
  = Some (U "외국인")
  /\ U "외국인" <> [].
Proof.
  assert (Pr1.parse_detail_lines_to_fields
            (take 2 [U "ㅇ 대상 : 외국인"; U "ㅇ 문의 :"]) !! "target"%string
          = Some (U "외국인")) as H by (vm_compute; reflexivity).
  split; [exact H|].
  exact (proj1 (proj2 accumulated_values_are_non_empty
                  [U "ㅇ 대상 : 외국인"; U "ㅇ 문의 :"] 2%nat
                  "target"%string (U "외국인")) H).
Defined.

(** ** Facts about the matcher *)

Section ReFacts.

Implicit Types (r a b : regex) (s t : str) (k : kont) (c : caps).

(** Whether a pattern may succeed without consuming a character, and the
    characters a match that consumes one may start with. *)
Fixpoint nullable (r : regex) : bool :=
  match r with
  | Eps | Bos | Eos | Ahead _ => true
  | Cls _ => false
  | Cat a b => nullable a && nullable b
  | Alt a b => nullable a || nullable b
  | Rep _ lo _ a => (lo =? 0)%nat || nullable a
  | Grp _ a => nullable a
  end.

Fixpoint first (r : regex) (x : N) : bool :=
  match r with
  | Eps | Bos | Eos | Ahead _ => false
  | Cls p => p x
  | Cat a b => first a x || (nullable a && first b x)
  | Alt a b => first a x || first b x
  | Rep _ _ _ a => first a x
  | Grp _ a => first a x
  end.

Definition starts (r : regex) (s : str) : Prop :=
  exists x t, s = x :: t /\ first r x = true.

Lemma rep_loop_first (body : nat -> str -> caps -> kont -> result)
  (P : N -> bool) (null : bool) g lo hi k res :
  (forall pos s c k', body pos s c k' = Some res ->
     exists pos' s' c', k' pos' s' c' = Some res
       /\ ((s' = s /\ null = true) \/ exists x t, s = x :: t /\ P x = true)) ->
  forall n cnt pos s c,
    rep_loop body g lo hi k n cnt pos s c = Some res ->
    exists pos' s' c', k pos' s' c' = Some res
      /\ ((s' = s /\ (lo <= cnt)%nat) \/ exists x t, s = x :: t /\ P x = true).
Proof.
  intros Hbody. induction n as [|n IH]; intros cnt pos s c H; [discriminate|].
  simpl in H.
  assert (Hmore : forall kk,
    kk = (fun pos' s' c' =>
            if (length s' <? length s)%nat
            then rep_loop body g lo hi k n (S cnt) pos' s' c' else None) ->
    (if below cnt hi then body pos s c kk else None) = Some res ->
    exists pos' s' c', k pos' s' c' = Some res
      /\ ((s' = s /\ (lo <= cnt)%nat) \/ exists x t, s = x :: t /\ P x = true)).
  { intros kk -> E. destruct (below cnt hi); [|discriminate].
    apply Hbody in E as (pos' & s' & c' & E & [[-> _]|Hx]).
    - rewrite Nat.ltb_irrefl in E. discriminate.
    - destruct (length s' <? length s)%nat; [|discriminate].
      apply IH in E as (p2 & s2 & c2 & E & _). eauto 8. }
  assert (Hstop : (if (lo <=? cnt)%nat then k pos s c else None) = Some res ->
    exists pos' s' c', k pos' s' c' = Some res
      /\ ((s' = s /\ (lo <= cnt)%nat) \/ exists x t, s = x :: t /\ P x = true)).
  { destruct (lo <=? cnt)%nat eqn:L; [|discriminate]. intros E.
    apply Nat.leb_le in L. eauto 8. }
  destruct g;
    match type of H with
    | match ?X with _ => _ end = _ => destruct X eqn:E
    end.
  - injection H as ->. eapply Hmore; [reflexivity|exact E].
  - apply Hstop, H.
  - injection H as ->. apply Hstop. reflexivity.
  - eapply Hmore; [reflexivity|exact H].
Qed.

(** A successful match either passes the input on as it is, which only a
    nullable pattern does, or starts with a character of [first]. *)
Lemma mt_first r : forall fuel pos s c k res,
  mt r fuel pos s c k = Some res ->
  exists pos' s' c', k pos' s' c' = Some res
    /\ ((s' = s /\ nullable r = true) \/ starts r s).
Proof.
  unfold starts.
  induction r as [|p|a IHa b IHb|a IHa b IHb|g lo hi a IHa|i a IHa| | |a IHa];
    intros fuel pos s c k res H; simpl in H.
  - eauto 8.
  - destruct s as [|x s']; [discriminate|]. destruct (p x) eqn:E; [|discriminate].
    exists (S pos), s', c. split; [exact H|]. right. eauto.
  - apply IHa in H as (p1 & s1 & c1 & H & [[-> Na]|Hx]).
    + apply IHb in H as (p2 & s2 & c2 & H & [[-> Nb]|(x & t & -> & Hx)]).
      * exists p2, s, c2. split; [exact H|]. left. simpl. now rewrite Na, Nb.
      * exists p2, s2, c2. split; [exact H|]. right. exists x, t.
        split; [reflexivity|]. simpl. rewrite Na, Hx. apply orb_true_r.
    + apply IHb in H as (p2 & s2 & c2 & H & _).
      destruct Hx as (x & t & -> & Hx).
      exists p2, s2, c2. split; [exact H|]. right. exists x, t.
      split; [reflexivity|]. simpl. now rewrite Hx.
  - destruct (mt a fuel pos s c k) eqn:E.
    + injection H as ->.
      apply IHa in E as (p1 & s1 & c1 & H & [[-> Na]|(x & t & -> & Hx)]).
      * exists p1, s, c1. split; [exact H|]. left. simpl. now rewrite Na.
      * exists p1, s1, c1. split; [exact H|]. right. exists x, t.
        split; [reflexivity|]. simpl. now rewrite Hx.
    + apply IHb in H as (p1 & s1 & c1 & H & [[-> Nb]|(x & t & -> & Hx)]).
      * exists p1, s, c1. split; [exact H|]. left. split; [reflexivity|].
        simpl. rewrite Nb. apply orb_true_r.
      * exists p1, s1, c1. split; [exact H|]. right. exists x, t.
        split; [reflexivity|]. simpl. rewrite Hx. apply orb_true_r.
  - eapply (rep_loop_first _ (first a) (nullable a)) in H.
    + destruct H as (p1 & s1 & c1 & H & [[-> L]|Hx]).
      * exists p1, s, c1. split; [exact H|]. left. split; [reflexivity|].
        assert (lo = 0%nat) as -> by lia. reflexivity.
      * exists p1, s1, c1. split; [exact H|]. right. exact Hx.
    + intros pos0 s0 c0 k' E. apply IHa in E. exact E.
  - apply IHa in H as (p1 & s1 & c1 & H & D). eauto 8.
  - destruct (pos =? 0)%nat; [|discriminate]. eauto 8.
  - destruct s as [|x [|y s']]; [eauto 8| |discriminate].
    destruct (x =? LF); [|discriminate]. eauto 8.
  - destruct (mt a fuel pos s c _) as [[[p1 s1] c1]|]; [|discriminate]. eauto 8.
Qed.

Lemma match_at_first r pos s e :
  nullable r = false -> match_at r pos s = Some e -> starts r s.
Proof.
  unfold match_at. intros N H.
  destruct (mt r _ pos s [] accept) as [[[e' s'] c']|] eqn:E; [|discriminate].
  apply mt_first in E as (_ & _ & _ & _ & [[_ F]|Hx]); [congruence|exact Hx].
Qed.

Lemma search_from_pos r s : forall (pos i e : nat) (g : caps),
  search_from r pos s = Some (i, e, g) -> (pos <= i)%nat.
Proof.
  induction s as [|x s IH]; intros pos i e g H; simpl in H.
  - destruct (match_at r pos []) as [[e' c']|]; [|discriminate].
    injection H as <- _ _. lia.
  - destruct (match_at r pos (x :: s)) as [[e' c']|].
    + injection H as <- _ _. lia.
    + apply IH in H. lia.
Qed.

(** A pattern that is not nullable and cannot start with [x] does not
    match at the front of [x :: s], so the head of a split keeps [x]. *)
Lemma split_head_keeps r x s :
  nullable r = false -> first r x = false ->
  exists t, split_head r (x :: s) = x :: t.
Proof.
  intros N F. unfold split_head, search. simpl.
  destruct (match_at r 0 (x :: s)) as [[e c]|] eqn:E.
  - apply match_at_first in E as (y & t & Hy & Fy); [|exact N].
    injection Hy as <- <-. congruence.
  - destruct (search_from r 1 s) as [[[b e] g]|] eqn:E2; [|eauto].
    apply search_from_pos in E2. destruct b as [|b]; [lia|]. simpl. eauto.
Qed.

Lemma matches_first r s :
  nullable r = false -> matches r s = true -> starts r s.
Proof.
  unfold matches, rmatch. intros N H.
  destruct (match_at r 0 s) as [e|] eqn:E; [|discriminate].
  eapply match_at_first; eassumption.
Qed.

(** The matcher of a character class, as the body of a repetition. *)
Definition cls_body (p : N -> bool) : nat -> str -> caps -> kont -> result :=
  fun pos s c k =>
    match s with
    | x :: s' => if p x then k (S pos) s' c else None
    | [] => None
    end.

Lemma mt_cat a b fuel pos s c k :
  mt (Cat a b) fuel pos s c k
  = mt a fuel pos s c (fun pos' s' c' => mt b fuel pos' s' c' k).
Proof. reflexivity. Qed.

Lemma mt_cls (p : N -> bool) fuel pos s c k :
  mt (Cls p) fuel pos s c k = cls_body p pos s c k.
Proof. reflexivity. Qed.

Lemma mt_rep_cls g lo hi (p : N -> bool) fuel pos s c k :
  mt (Rep g lo hi (Cls p)) fuel pos s c k
  = rep_loop (cls_body p) g lo hi k fuel O pos s c.
Proof. reflexivity. Qed.

(** One iteration of a greedy, unbounded repetition of a character class. *)
Lemma rep_cls_unfold (p : N -> bool) lo k n cnt pos s c :
  rep_loop (cls_body p) true lo None k (S n) cnt pos s c
  = match s with
    | x :: s' =>
      if p x then
        match rep_loop (cls_body p) true lo None k n (S cnt) (S pos) s' c with
        | Some res => Some res
        | None => if (lo <=? cnt)%nat then k pos s c else None
        end
      else if (lo <=? cnt)%nat then k pos s c else None
    | [] => if (lo <=? cnt)%nat then k pos s c else None
    end.
Proof.
  simpl. destruct s as [|x s']; [reflexivity|]. unfold cls_body at 1.
  destruct (p x); [|reflexivity].
  replace (length s' <? length (x :: s'))%nat with true
    by (symmetry; apply Nat.ltb_lt; simpl; lia).
  reflexivity.
Qed.

(** It takes the longest run when the continuation succeeds there. *)
Lemma rep_cls_max (p : N -> bool) lo k res : forall s n cnt pos c,
  (length s < n)%nat ->
  (lo <= cnt + length (takewhile p s))%nat ->
  k (pos + length (takewhile p s))%nat (dropwhile p s) c = Some res ->
  rep_loop (cls_body p) true lo None k n cnt pos s c = Some res.
Proof.
  induction s as [|x s IH]; intros n cnt pos c Hn Hlo Hk;
    (destruct n as [|n]; [simpl in Hn; lia|]); rewrite rep_cls_unfold.
  - simpl in *. rewrite Nat.add_0_r in *.
    apply Nat.leb_le in Hlo. now rewrite Hlo.
  - simpl in *. destruct (p x).
    + rewrite (IH n (S cnt) (S pos) c); [reflexivity|lia| |].
      * simpl in Hlo. lia.
      * simpl in Hk. now rewrite <- Nat.add_succ_comm in Hk.
    + simpl in *. rewrite Nat.add_0_r in *.
      apply Nat.leb_le in Hlo. now rewrite Hlo.
Qed.

Lemma sub_from_nil r repl fuel pos : sub_from r repl fuel pos [] = [].
Proof. destruct fuel; reflexivity. Qed.

(** Every character of a substitution comes from the subject or from the
    replacement. *)
Lemma sub_from_Forall (P : N -> Prop) r repl : forall fuel pos s,
  Forall P repl -> Forall P s -> Forall P (sub_from r repl fuel pos s).
Proof.
  induction fuel as [|fuel IH]; intros pos s Hr Hs; [exact Hs|].
  simpl. destruct s as [|x s]; [constructor|].
  assert (Forall P (x :: sub_from r repl fuel (S pos) s)) as Keep.
  { inversion Hs; subst. constructor; [assumption|]. now apply IH. }
  destruct (match_at r pos (x :: s)) as [[e c]|]; [|exact Keep].
  destruct (pos <? e)%nat; [|exact Keep].
  apply Forall_app. split; [exact Hr|]. apply IH; [exact Hr|].
  now apply Forall_drop.
Qed.

End ReFacts.

(** ** Lines that begin with a hollow marker *)

Section HollowMarker.

Implicit Types (ln s : str) (st : seg).

(** A pattern that cannot start with the first character of a line does
    not match the line. *)
Lemma no_first_no_match (r : regex) (x : N) s (pos : nat) :
  nullable r = false -> first r x = false -> match_at r pos (x :: s) = None.
Proof.
  intros Hn Hf. destruct (match_at r pos (x :: s)) as [e|] eqn:E; [|reflexivity].
  apply match_at_first in E as (y & t & Hy & Fy); [|exact Hn].
  injection Hy as <- <-. congruence.
Qed.

(** The first character of a line that begins with ▷ or with ►. *)
Definition hollow (x : N) : Prop := x = 0x25B7 \/ x = 0x25BA.

Lemma hollow_line ln :
  startswith (U "▷") ln = true \/ startswith (U "►") ln = true ->
  exists x r, ln = x :: r /\ hollow x.
Proof.
  intros [H|H]; apply startswith_spec in H as [r ->].
  - exists 0x25B7, r. split; [reflexivity|now left].
  - exists 0x25BA, r. split; [reflexivity|now right].
Qed.

Lemma hollow_is_no_boundary (x : N) s :
  hollow x ->
  startswith_any drop_tokens (x :: s) = false
  /\ startswith (U "▶") (x :: s) = false
  /\ startswith (U "ㅇ") (x :: s) = false
  /\ Junggu.is_boundary (x :: s) = false
  /\ rmatch Pr1.ANGLE_TITLE_PAT (x :: s) = None.
Proof.
  intros [->| ->].
  - split; [reflexivity|]. split; [reflexivity|]. split; [reflexivity|]. split.
    + unfold Junggu.is_boundary, matches, rmatch.
      rewrite !no_first_no_match by (vm_compute; reflexivity). reflexivity.
    + unfold rmatch. apply no_first_no_match; vm_compute; reflexivity.
  - split; [reflexivity|]. split; [reflexivity|]. split; [reflexivity|]. split.
    + unfold Junggu.is_boundary, matches, rmatch.
      rewrite !no_first_no_match by (vm_compute; reflexivity). reflexivity.
    + unfold rmatch. apply no_first_no_match; vm_compute; reflexivity.
Qed.

End HollowMarker.

(** C5, as amended: in [split_items] of junggu.py and of pr-1.py every line
    that begins with the marker ▶ flushes the open item (which is recorded
    when it has a title and at least one detail line) and opens a new item;
    the title of the new item is the line without the marker glyphs and
    whitespace in front of it and the whitespace behind it.  A line that
    begins with ▷ or with ► is never a boundary: it flushes no item and
    opens none.  junggu.py treats it as a body line (skipped when it
    repeats the fallback title, appended to the open item otherwise);
    pr-1.py glues it to the last detail line of the open item, or makes it
    the first detail line. *)
Theorem solid_marker_opens_item :
  forall (fallback_title : option str) (st : seg) (ln : str),
    (startswith (U "▶") ln = true ->
     (Junggu.seg_step fallback_title st ln
      = Seg (items (Junggu.flush_if_has_details st)) (Some (Junggu.title_of ln)) []
      /\ title_within (Junggu.title_of ln) ln)
     /\ (Pr1.seg_step st ln
         = Seg (items (Pr1.flush_if_has_details st))
               (Some (strip (lstrip_chars (U "▶") ln))) []
         /\ title_within (strip (lstrip_chars (U "▶") ln)) ln))
    /\ (startswith (U "▷") ln = true \/ startswith (U "►") ln = true ->
        Junggu.is_boundary ln = false
        /\ Junggu.seg_step fallback_title st ln
           = (if repeats_title fallback_title ln then st
              else if truthy (current_title st)
                   then Seg (items st) (current_title st)
                            (current_details st ++ [ln])
                   else st)
        /\ Pr1.seg_step st ln
           = match current_details st with
             | _ :: _ =>
               Seg (items st) (current_title st)
                   (Pr1.extend_last (current_details st) ln)
             | [] =>
               if truthy (current_title st)
               then Seg (items st) (current_title st) [ln]
               else st
             end
        /\ items (Junggu.seg_step fallback_title st ln) = items st
        /\ current_title (Junggu.seg_step fallback_title st ln)
           = current_title st
        /\ items (Pr1.seg_step st ln) = items st
        /\ current_title (Pr1.seg_step st ln) = current_title st).
Proof.
  intros fb st ln. split.
  - intros H. pose proof (marker_is_no_drop_token ln H) as D.
    repeat split.
    + unfold Junggu.seg_step, Junggu.is_boundary. now rewrite D, H.
    + apply junggu_title_within.
    + apply junggu_title_within.
    + unfold Pr1.seg_step. now rewrite D, H.
    + apply pr1_title_within.
    + apply pr1_title_within.
  - intros H. destruct (hollow_line ln H) as (x & r & -> & Hx).
    destruct (hollow_is_no_boundary x r Hx) as (D & M & O & B & A).
    assert (Junggu.seg_step fb st (x :: r)
            = (if repeats_title fb (x :: r) then st
               else if truthy (current_title st)
                    then Seg (items st) (current_title st)
                             (current_details st ++ [x :: r])
                    else st)) as EJ.
    { unfold Junggu.seg_step, repeats_title. now rewrite D, B. }
    assert (Pr1.seg_step st (x :: r)
            = match current_details st with
              | _ :: _ =>
                Seg (items st) (current_title st)
                    (Pr1.extend_last (current_details st) (x :: r))
              | [] =>
                if truthy (current_title st)
                then Seg (items st) (current_title st) [x :: r]
                else st
              end) as EP.
    { unfold Pr1.seg_step. rewrite D, M, A, O.
      now destruct (current_details st). }
    split; [exact B|]. split; [exact EJ|]. split; [exact EP|].
    rewrite EJ, EP.
    destruct (repeats_title fb (x :: r)), (truthy (current_title st)),
      (current_details st); repeat split; reflexivity.
Qed.

Lemma solid_marker_opens_item_witness :
  Junggu.seg_step None (Seg [] (Some (U "A")) [U "ㅇ a"]) (U "▶ B")
  = Seg [Item (U "A") [U "ㅇ a"]] (Some (U "B")) []
  /\ Junggu.is_boundary (U "▷ B") = false
  /\ Junggu.seg_step None (Seg [] (Some (U "A")) [U "ㅇ a"]) (U "▷ B")
     = Seg [] (Some (U "A")) [U "ㅇ a"; U "▷ B"]
  /\ Pr1.seg_step (Seg [] (Some (U "A")) [U "ㅇ a"]) (U "► B")
     = Seg [] (Some (U "A")) [U "ㅇ a ► B"].
Proof.
  split; [|split; [|split]].
  - exact (proj1 (proj1 (proj1 (solid_marker_opens_item None
      (Seg [] (Some (U "A")) [U "ㅇ a"]) (U "▶ B")) eq_refl))).
  - exact (proj1 (proj2 (solid_marker_opens_item None
      (Seg [] (Some (U "A")) [U "ㅇ a"]) (U "▷ B")) (or_introl eq_refl))).
  - exact (proj1 (proj2 (proj2 (solid_marker_opens_item None
      (Seg [] (Some (U "A")) [U "ㅇ a"]) (U "▷ B")) (or_introl eq_refl)))).
  - exact (proj1 (proj2 (proj2 (proj2 (solid_marker_opens_item None
      (Seg [] (Some (U "A")) [U "ㅇ a"]) (U "► B")) (or_intror eq_refl))))).
Defined.

(** C5 as stated fails: a line that begins with ▷ or ► is no boundary.  In
    junggu.py it becomes a detail line of the open item, in pr-1.py it is
    glued to the previous detail line. *)
Lemma hollow_marker_is_no_boundary :
  Junggu.split_items (text_of [U "▶ A"; U "ㅇ a"; U "▷ B"; U "ㅇ b"]) None
  = [Item (U "A") [U "ㅇ a"; U "▷ B"; U "ㅇ b"]]
  /\ Pr1.split_items (text_of [U "▶ A"; U "ㅇ a"; U "► B"; U "ㅇ b"]) None
     = [Item (U "A") [U "ㅇ a ► B"; U "ㅇ b"]]
  /\ Junggu.split_items (text_of [U "▶ A"; U "ㅇ a"; U "▶ B"; U "ㅇ b"]) None
     = [Item (U "A") [U "ㅇ a"]; Item (U "B") [U "ㅇ b"]].
Proof. repeat split; vm_compute; reflexivity. Qed.

(** ** Key normalization *)

Section KeyNormalization.

Implicit Types (s k : str) (p : N -> bool).

Lemma remove_none p s : Forall (fun c => p c = false) (remove p s).
Proof.
  induction s as [|c s IH]; simpl; [constructor|].
  destruct (p c) eqn:E; [exact IH|]. now constructor.
Qed.

Lemma dropwhile_none p s : Forall (fun c => p c = false) s -> dropwhile p s = s.
Proof. destruct 1 as [|c s H _]; simpl; [reflexivity|]. now rewrite H. Qed.

Lemma rdropwhile_none p s : Forall (fun c => p c = false) s -> rdropwhile p s = s.
Proof.
  induction 1 as [|c s H _ IH]; simpl; [reflexivity|].
  rewrite IH. destruct s; [now rewrite H|reflexivity].
Qed.

Lemma takewhile_all p s : Forall (fun c => p c = true) s -> takewhile p s = s.
Proof. induction 1 as [|c s H _ IH]; simpl; [reflexivity|]. now rewrite H, IH. Qed.

Lemma dropwhile_all p s : Forall (fun c => p c = true) s -> dropwhile p s = [].
Proof. induction 1 as [|c s H _ IH]; simpl; [reflexivity|]. now rewrite H. Qed.

Lemma takewhile_Forall p s : Forall (fun c => p c = true) (takewhile p s).
Proof.
  induction s as [|c s IH]; simpl; [constructor|].
  destruct (p c) eqn:E; now constructor.
Qed.

Lemma takewhile_split p s :
  exists rest, s = takewhile p s ++ rest
    /\ (rest = [] \/ exists c r, rest = c :: r /\ p c = false).
Proof.
  induction s as [|c s (rest & IH & D)]; simpl.
  - exists []. auto.
  - destruct (p c) eqn:E.
    + exists rest. split; [simpl; now rewrite <- IH|exact D].
    + exists (c :: s). split; [reflexivity|]. right. eauto.
Qed.

Lemma takewhile_sub p s (P : N -> Prop) : Forall P s -> Forall P (takewhile p s).
Proof.
  induction 1 as [|c s H _ IH]; simpl; [constructor|].
  destruct (p c); now constructor.
Qed.

(** [\[:0-9\]] *)
Definition colon_or_digit (c : N) : bool := (c =? 58) || ascii_digit c.

(** The key before it is truncated: marks, symbols and whitespace removed. *)
Definition bare_key (k : str) : str :=
  remove isspace
    (remove (fun c => mem c (U "★☆•·▶▷■○●※-=+()[]{}<>"))
       (replace1 IDSP SP (replace1 NBSP SP (remove ZERO_WIDTH k)))).

Definition no_newline (s : str) : Prop := Forall (fun c => (c =? LF) = false) s.

Lemma no_space_no_newline s :
  Forall (fun c => isspace c = false) s -> no_newline s.
Proof.
  intros H. eapply Forall_impl; [exact H|]. intros c Hc. simpl in Hc.
  destruct (N.eqb_spec c LF) as [->|]; [discriminate Hc|reflexivity].
Qed.

Lemma truncate_match_at (x : N) s pos :
  no_newline s ->
  match_at Junggu.TRUNCATE pos (x :: s)
  = if colon_or_digit x then Some (S pos + length s, [])%nat else None.
Proof.
  intros H. unfold match_at, Junggu.TRUNCATE. cbn [seq].
  rewrite mt_cat, mt_cls. unfold cls_body at 1.
  fold (colon_or_digit x). destruct (colon_or_digit x); [|reflexivity].
  rewrite mt_cat. unfold star, dot. rewrite mt_rep_cls.
  rewrite (rep_cls_max _ _ _ (S pos + length s, [], [])%nat); try reflexivity.
  - simpl. lia.
  - lia.
  - assert (Hd : Forall (fun c => negb (c =? LF) = true) s).
    { eapply Forall_impl; [exact H|]. intros c Hc. simpl in Hc. now rewrite Hc. }
    rewrite (takewhile_all _ _ Hd), (dropwhile_all _ _ Hd). reflexivity.
Qed.

(** On a subject without line break the substitution keeps what precedes
    the first colon or digit. *)
Lemma truncate_sub s : forall fuel pos,
  (length s <= fuel)%nat -> no_newline s ->
  sub_from Junggu.TRUNCATE [] fuel pos s
  = takewhile (fun c => negb (colon_or_digit c)) s.
Proof.
  induction s as [|x s IH]; intros fuel pos Hf Hs; [apply sub_from_nil|].
  destruct fuel as [|fuel]; [simpl in Hf; lia|].
  inversion Hs as [|? ? Hx Hs']; subst.
  cbn [sub_from]. rewrite (truncate_match_at x s pos Hs').
  cbn [takewhile]. destruct (colon_or_digit x); simpl negb; cbv iota.
  - replace (pos <? S pos + length s)%nat with true
      by (symmetry; apply Nat.ltb_lt; lia).
    replace (S pos + length s - pos)%nat with (length (x :: s)) by (simpl; lia).
    rewrite drop_all. simpl. apply sub_from_nil.
  - f_equal. apply IH; [simpl in Hf; lia|exact Hs'].
Qed.

Lemma junggu_normalize_key_eq k :
  Junggu.normalize_key k
  = takewhile (fun c => negb (colon_or_digit c)) (bare_key k).
Proof.
  assert (Hb : Forall (fun c => isspace c = false) (bare_key k))
    by apply remove_none.
  change (Junggu.normalize_key k)
    with (strip (Re.sub Junggu.TRUNCATE [] (bare_key k))).
  unfold Re.sub. rewrite truncate_sub;
    [|reflexivity|now apply no_space_no_newline].
  unfold strip, lstrip, rstrip.
  pose proof (takewhile_sub (fun c => negb (colon_or_digit c)) _ _ Hb) as Ht.
  now rewrite (rdropwhile_none _ _ Ht), (dropwhile_none _ _ Ht).
Qed.

End KeyNormalization.

(** C8, as amended: [normalize_key] of junggu.py, the keyword-inclusion
    strategy, truncates at the first ASCII digit or colon: its result is
    the part of the key (marks, symbols and whitespace removed) before the
    first such character, so it holds no digit and no colon, and both
    ["문의:"] and ["문의1"] give ["문의"].  [normalize_key] of the
    alias-table strategy (pr-1.py, pr-2.py) does not truncate. *)
Theorem keyword_key_is_truncated :
  forall k : str,
    Junggu.normalize_key k
    = takewhile (fun c => negb (colon_or_digit c)) (bare_key k)
    /\ Forall (fun c => colon_or_digit c = false) (Junggu.normalize_key k)
    /\ (exists rest,
          bare_key k = Junggu.normalize_key k ++ rest
          /\ (rest = [] \/ exists c r, rest = c :: r /\ colon_or_digit c = true))
    /\ Junggu.normalize_key (U "문의:") = U "문의"
    /\ Junggu.normalize_key (U "문의1") = U "문의".
Proof.
  intros k. rewrite junggu_normalize_key_eq. repeat split.
  - eapply Forall_impl; [apply takewhile_Forall|].
    intros c Hc. simpl in Hc. now apply negb_true_iff in Hc.
  - destruct (takewhile_split (fun c => negb (colon_or_digit c)) (bare_key k))
      as (rest & E & [->|(c & r & -> & Hc)]).
    + exists []. split; [exact E|now left].
    + exists (c :: r). split; [exact E|]. right. exists c, r.
      split; [reflexivity|]. now apply negb_false_iff in Hc.
Qed.

(** C8 as stated fails for the alias-table strategy: its [normalize_key]
    keeps the digit and the colon, and the lookup of the key misses. *)
Lemma alias_key_is_not_truncated :
  Pr1.normalize_key (U "문의1") = U "문의1"
  /\ Pr1.normalize_key (U "문의:") = U "문의:"
  /\ Pr2.normalize_key (U "문의1") = U "문의1"
  /\ Pr1.normalize_key (U "문의1") <> U "문의"
  /\ Alias.alias_get Pr1.KEY_ALIAS (Pr1.normalize_key (U "문의1")) = None
  /\ Alias.alias_get Pr1.KEY_ALIAS (U "문의") = Some "contact"%string.
Proof. repeat split; try (vm_compute; reflexivity). vm_compute. discriminate. Qed.

(** ** Noise trimming *)

Section NoiseTrimmer.

(** Evaluation of the literals of a hypothesis and case analysis on the
    first character it allows. *)
Ltac literals H :=
  repeat match type of H with
         | context [U ?l] =>
           let t := eval vm_compute in (U l) in change (U l) with t in H
         end.

Ltac first_cases H :=
  cbn [alt seq lit map first nullable opt oneof chr star ws mem existsb
       andb orb Nat.eqb] in H;
  repeat match type of H with
         | (_ || _) = true => apply orb_prop in H as [H|H]
         | (_ && _) = true => apply andb_prop in H as [_ H]
         | false = true => discriminate H
         | (_ =? _) = true => apply N.eqb_eq in H
         end.

(** A line that one of the contact headers matches starts with a character
    that is no whitespace and with which no noise pattern starts. *)
Definition header_char (x : N) : Prop :=
  isspace x = false /\ first Alias.NOISE_CUT x = false.

Lemma pr1_header_char (t : str) :
  matches Pr1.INQUIRY t || matches Pr1.CONTACT t = true ->
  exists x r, t = x :: r /\ header_char x.
Proof.
  intros H. apply orb_prop in H as [H|H];
    apply matches_first in H as (x & r & -> & H); try reflexivity;
    exists x, r; (split; [reflexivity|]);
    [unfold Pr1.INQUIRY in H|unfold Pr1.CONTACT in H];
    literals H; first_cases H; subst; split; vm_compute; reflexivity.
Qed.

Lemma pr2_header_char (t : str) :
  matches Pr2.INQUIRY t || matches Pr2.CONTACT t = true ->
  exists x r, t = x :: r /\ header_char x.
Proof.
  intros H. apply orb_prop in H as [H|H];
    apply matches_first in H as (x & r & -> & H); try reflexivity;
    exists x, r; (split; [reflexivity|]);
    [unfold Pr2.INQUIRY in H|unfold Pr2.CONTACT in H];
    literals H; first_cases H; subst; split; vm_compute; reflexivity.
Qed.

(** The first character of a contact header of pr-2.py: ㅇ, ○, 문 or 연. *)
Definition header_head (x : N) : Prop :=
  x = 0x3147 \/ x = 0x25CB \/ x = 0xBB38 \/ x = 0xC5F0.

Lemma pr2_header_head (t : str) :
  matches Pr2.INQUIRY t || matches Pr2.CONTACT t = true ->
  exists x r, t = x :: r /\ header_head x.
Proof.
  intros H. apply orb_prop in H as [H|H];
    apply matches_first in H as (x & r & -> & H); try reflexivity;
    exists x, r; (split; [reflexivity|]);
    [unfold Pr2.INQUIRY in H|unfold Pr2.CONTACT in H];
    literals H; first_cases H; subst; unfold header_head;
    first [now left | right; now left | right; right; now left
          | right; right; now right].
Qed.

(** The text kept of a contact line: the line up to the first occurrence
    of a noise pattern. *)
Definition cut (ln : str) : str :=
  strip (split_head Alias.NOISE_CUT (strip ln)).

Lemma cut_nonempty (ln : str) :
  (exists x r, strip ln = x :: r /\ header_char x) -> cut ln <> [].
Proof.
  intros (x & r & E & S & F). unfold cut. rewrite E.
  destruct (split_head_keeps Alias.NOISE_CUT x r eq_refl F) as [t ->].
  now apply strip_cons_nonempty.
Qed.

(** The lines before the first one that satisfies [stop]. *)
Fixpoint before_stop (stop : str -> bool) (lines : list str) : list str :=
  match lines with
  | [] => []
  | ln :: rest => if stop ln then [] else ln :: before_stop stop rest
  end.

Lemma before_stop_split (stop : str -> bool) (lines : list str) :
  exists dropped,
    lines = before_stop stop lines ++ dropped
    /\ Forall (fun ln => stop ln = false) (before_stop stop lines)
    /\ (dropped = [] \/ exists ln rest, dropped = ln :: rest /\ stop ln = true).
Proof.
  induction lines as [|ln rest (d & E & F & D)]; simpl.
  - exists []. repeat split; auto.
  - destruct (stop ln) eqn:S.
    + exists (ln :: rest). repeat split; [constructor|]. right. eauto.
    + exists d. repeat split; [simpl; now rewrite <- E|now constructor|exact D].
Qed.

Definition is_noise (ln : str) : bool := found Alias.NOISE_LINE_PAT (strip ln).

Definition pr1_contact (ln : str) : bool :=
  matches Pr1.INQUIRY (strip ln) || matches Pr1.CONTACT (strip ln).
Definition pr2_contact (ln : str) : bool :=
  matches Pr2.INQUIRY (strip ln) || matches Pr2.CONTACT (strip ln).

Lemma pr1_trim_eq (lines : list str) :
  Pr1.trim_noise_lines lines
  = map (fun ln => if pr1_contact ln then cut ln else ln)
        (before_stop (fun ln => negb (pr1_contact ln) && is_noise ln) lines).
Proof.
  induction lines as [|ln rest IH]; [reflexivity|].
  cbn [Pr1.trim_noise_lines before_stop]. fold (pr1_contact ln).
  destruct (pr1_contact ln) eqn:C; cbn [negb andb].
  - fold (cut ln). pose proof (cut_nonempty ln (pr1_header_char _ C)) as N.
    destruct (cut ln) as [|x t] eqn:E; [contradiction|].
    cbn [is_nil map]. rewrite C, E, IH. reflexivity.
  - fold (is_noise ln). destruct (is_noise ln); [reflexivity|].
    cbn [map]. rewrite C, IH. reflexivity.
Qed.

Lemma pr2_trim_eq (lines : list str) :
  Pr2.trim_noise_lines lines
  = map (fun ln => if pr2_contact ln then cut ln else ln)
        (before_stop (fun ln => negb (pr2_contact ln) && is_noise ln) lines).
Proof.
  induction lines as [|ln rest IH]; [reflexivity|].
  cbn [Pr2.trim_noise_lines before_stop]. fold (pr2_contact ln).
  destruct (pr2_contact ln) eqn:C; cbn [negb andb].
  - fold (cut ln). pose proof (cut_nonempty ln (pr2_header_char _ C)) as N.
    destruct (cut ln) as [|x t] eqn:E; [contradiction|].
    cbn [is_nil negb map]. rewrite C, E, IH. reflexivity.
  - fold (is_noise ln). destruct (is_noise ln); [reflexivity|].
    cbn [map]. rewrite C, IH. reflexivity.
Qed.

End NoiseTrimmer.

(** A survey line in the middle of the detail lines: the lines after it
    are dropped, the contact line before it is cut at the survey wording. *)
Example survey_line_scenario :
  let lines := [U "ㅇ 대상 : 외국인";
                U "ㅇ 문의 : 02-123 해당 메뉴에 대한 만족도";
                U "ㅇ 내용 : 검진"; U "아주 만족 보통"; U "ㅇ 장소 : 중구청"] in
  Pr1.trim_noise_lines lines
  = [U "ㅇ 대상 : 외국인"; U "ㅇ 문의 : 02-123"; U "ㅇ 내용 : 검진"]
  /\ Pr2.trim_noise_lines lines
     = [U "ㅇ 대상 : 외국인"; U "ㅇ 문의 : 02-123"; U "ㅇ 내용 : 검진"].
Proof. split; vm_compute; reflexivity. Qed.

(** ** The full-text block *)

Section FullText.

Implicit Types (s t ln : str) (lines : list str).

(** A line as the segmenter hands it on: tidy and not empty. *)
Definition clean_line (ln : str) : Prop := tidy ln /\ ln <> [].

Definition clean_item (it : item) : Prop :=
  tidy (item_title it) /\ Forall clean_line (detail_lines it).

Lemma stripped_lines_clean (text : str) : Forall clean_line (stripped_lines text).
Proof.
  unfold stripped_lines. induction (splitlines text) as [|l ls IH]; simpl.
  - constructor.
  - destruct (strip l) as [|c r] eqn:E; simpl; [exact IH|].
    constructor; [|exact IH]. split; [|discriminate].
    rewrite <- E. apply strip_tidy.
Qed.

Lemma extend_last_clean lines ln :
  Forall clean_line lines -> clean_line ln ->
  Forall clean_line (Pr1.extend_last lines ln).
Proof.
  intros H [T N]. induction H as [|d r [Td Nd] Hr IH]; simpl; [constructor|].
  destruct r as [|d' r'].
  - constructor; [|constructor]. split.
    + now apply tidy_glue.
    + destruct d; [contradiction|discriminate].
  - constructor; [now split|exact IH].
Qed.

Definition clean_seg (st : seg) : Prop :=
  Forall clean_item (items st)
  /\ (forall t, current_title st = Some t -> tidy t)
  /\ Forall clean_line (current_details st).

Lemma pr1_flush_clean (st : seg) :
  clean_seg st -> clean_seg (Pr1.flush_if_has_details st).
Proof.
  intros (I & T & D). unfold Pr1.flush_if_has_details.
  repeat split; simpl; [|discriminate|constructor].
  destruct (current_title st) as [[|c t]|]; try exact I.
  destruct (current_details st) as [|d ds] eqn:E; [exact I|].
  apply Forall_app. split; [exact I|]. constructor; [|constructor].
  split; simpl; [now apply T|exact D].
Qed.

Lemma pr1_open_clean (st : seg) t :
  clean_seg st ->
  clean_seg (Seg (items (Pr1.flush_if_has_details st)) (Some (strip t)) []).
Proof.
  intros H. destruct (pr1_flush_clean st H) as (I & _ & _).
  repeat split; simpl; [exact I| |constructor].
  intros t' E. injection E as <-. apply strip_tidy.
Qed.

Lemma pr1_seg_step_clean (st : seg) ln :
  clean_seg st -> clean_line ln -> clean_seg (Pr1.seg_step st ln).
Proof.
  intros H L. unfold Pr1.seg_step.
  destruct (startswith_any drop_tokens ln); [exact H|].
  destruct (startswith (U "▶") ln); [now apply pr1_open_clean|].
  destruct (rmatch Pr1.ANGLE_TITLE_PAT ln) as [[e g]|]; [now apply pr1_open_clean|].
  pose proof H as (I & T & D).
  assert (clean_seg (Seg (items st) (current_title st) (current_details st ++ [ln])))
    as App.
  { repeat split; simpl; [exact I|exact T|].
    apply Forall_app. split; [exact D|]. now constructor. }
  destruct (startswith (U "ㅇ") ln).
  - destruct (current_title st); [exact App|exact H].
  - destruct (current_details st) as [|d ds] eqn:E.
    + destruct (truthy (current_title st)); [exact App|exact H].
    + split; [exact I|]. split; [exact T|].
      now apply extend_last_clean.
Qed.

Lemma pr1_fold_clean lines : forall st,
  clean_seg st -> Forall clean_line lines ->
  clean_seg (fold_left Pr1.seg_step lines st).
Proof.
  induction lines as [|ln lines IH]; intros st H L; [exact H|].
  inversion L; subst. simpl. apply IH; [|assumption].
  now apply pr1_seg_step_clean.
Qed.

Lemma placeholder_tidy : tidy placeholder.
Proof. reflexivity. Qed.

(** Every item of [split_items] of pr-1.py has a tidy title and clean
    detail lines, when the fallback title is tidy. *)
Lemma pr1_split_items_clean (text heading : str) :
  tidy heading -> Forall clean_item (Pr1.split_items text (Some heading)).
Proof.
  intros Th. unfold Pr1.split_items.
  pose proof (stripped_lines_clean text) as L.
  assert (Forall clean_item (Pr1.explicit_items (stripped_lines text))) as E.
  { unfold Pr1.explicit_items.
    apply pr1_flush_clean, pr1_fold_clean; [|exact L].
    repeat split; simpl; [constructor|discriminate|constructor]. }
  destruct (Pr1.explicit_items (stripped_lines text)) as [|i more]; [|exact E].
  destruct (stripped_lines text) as [|l ls]; [constructor|].
  constructor; [|constructor]. split; simpl; [|exact L].
  destruct heading; [apply placeholder_tidy|exact Th].
Qed.

Lemma pr1_trim_clean lines :
  Forall clean_line lines -> Forall clean_line (Pr1.trim_noise_lines lines).
Proof.
  induction 1 as [|ln rest Hl _ IH]; simpl; [constructor|].
  destruct (_ || _).
  - destruct (strip (split_head Alias.NOISE_CUT (strip ln))) as [|c r] eqn:E;
      simpl; [exact IH|].
    constructor; [|exact IH]. split; [|discriminate].
    rewrite <- E. apply strip_tidy.
  - destruct (found _ _); [constructor|]. now constructor.
Qed.

Lemma clean_lines_kept lines :
  Forall clean_line lines ->
  List.filter (fun l => negb (is_nil l)) (map strip lines) = lines.
Proof.
  induction 1 as [|ln rest [T N] _ IH]; simpl; [reflexivity|].
  rewrite T. destruct ln; [contradiction|]. simpl. now rewrite IH.
Qed.

Lemma contains_nil s : contains [] s = true.
Proof. destruct s; reflexivity. Qed.

Lemma contains_behind (pre sub s : str) :
  contains sub s = true -> contains sub (pre ++ s) = true.
Proof.
  intros H. apply contains_spec in H as (a & b & ->).
  rewrite app_assoc. apply contains_app.
Qed.

Lemma contains_front (sub post : str) : contains sub (sub ++ post) = true.
Proof. apply (contains_app [] sub post). Qed.

(** The block of a clean item holds its title and each of its lines. *)
Lemma item_block_text_holds (title : str) lines :
  tidy title -> Forall clean_line lines ->
  contains title (Alias.item_block_text (Item title lines)) = true
  /\ forall l, In l lines ->
       contains l (Alias.item_block_text (Item title lines)) = true.
Proof.
  intros T L. unfold Alias.item_block_text. simpl item_title. simpl detail_lines.
  rewrite T, (clean_lines_kept lines L).
  destruct title as [|c t]; [split; [apply contains_nil|]|].
  - intros l Hl. now apply contains_join.
  - destruct (join [LF] lines) as [|b bs] eqn:J.
    + split.
      * apply contains_behind. rewrite <- (app_nil_r (c :: t)) at 2.
        apply contains_front.
      * intros l Hl. pose proof (contains_join [LF] lines l Hl) as C.
        rewrite J in C. apply contains_spec in C as (a & z & C).
        assert (l = []) as -> by (destruct a, l; [reflexivity|discriminate..]).
        apply contains_nil.
    + split.
      * apply contains_behind, contains_front.
      * intros l Hl. apply contains_behind, (contains_behind (c :: t)).
        apply (contains_behind [LF]). rewrite <- J. now apply contains_join.
Qed.

End FullText.

(** C2: the full-text block holds the title of the item and every detail
    line that is handed to the field accumulator, whatever the accumulator
    makes of them.  In junggu.py the block is the marker, the title and the
    detail lines joined by line breaks.  In pr-1.py the block is built from
    the title and the noise-trimmed lines, the lines that are classified;
    for every item of the segmenter (the page heading being stripped, as
    the caller passes it) it holds the title and each of these lines. *)
Theorem full_text_holds_title_and_lines :
  (forall (url : str) (it : item),
     let ft := Junggu.full_text (Junggu.build_record url it) in
     ft = U "▶ " ++ item_title it ++ [LF] ++ join [LF] (detail_lines it)
     /\ contains (item_title it) ft = true
     /\ forall l, In l (detail_lines it) -> contains l ft = true)
  /\ (forall (category url text heading : str) (it : item),
        tidy heading ->
        In it (Pr1.split_items text (Some heading)) ->
        let clean_lines := Pr1.trim_noise_lines (detail_lines it) in
        exists ft,
          Frame.full_text (Pr1.build_record category url it) = Some ft
          /\ ft = Pr1.item_block_text (Item (item_title it) clean_lines)
          /\ contains (item_title it) ft = true
          /\ forall l, In l clean_lines -> contains l ft = true).
Proof.
  split.
  - intros url it ft. subst ft.
    change (Junggu.full_text (Junggu.build_record url it))
      with (U "▶ " ++ item_title it ++ [LF] ++ join [LF] (detail_lines it)).
    repeat split.
    + apply contains_behind, contains_front.
    + intros l Hl. apply contains_behind, contains_behind.
      apply (contains_behind [LF]). now apply contains_join.
  - intros category url text heading it Th Hin clean_lines.
    pose proof (pr1_split_items_clean text heading Th) as C.
    rewrite Forall_forall in C. apply list_elem_of_In in Hin.
    destruct (C it Hin) as [Tt Ld].
    pose proof (pr1_trim_clean _ Ld) as Lc. fold clean_lines in Lc.
    destruct (item_block_text_holds (item_title it) clean_lines Tt Lc) as [H1 H2].
    exists (Pr1.item_block_text (Item (item_title it) clean_lines)).
    repeat split; assumption.
Qed.

Lemma full_text_holds_title_and_lines_witness :
  exists ft,
    Frame.full_text (Pr1.build_record [] [] (Item (U "A") [U "ㅇ a"; U "ㅇ 보통"]))
    = Some ft
    /\ ft = Pr1.item_block_text (Item (U "A") [U "ㅇ a"])
    /\ contains (U "A") ft = true
    /\ forall l, In l [U "ㅇ a"] -> contains l ft = true.
Proof.
  refine (proj2 full_text_holds_title_and_lines [] []
            (text_of [U "▶ A"; U "ㅇ a"; U "ㅇ 보통"]) [] 
            (Item (U "A") [U "ㅇ a"; U "ㅇ 보통"]) _ _).
  - reflexivity.
  - vm_compute. left. reflexivity.
Defined.

(** ** Substitution of runs of a character class *)

Section RunSubstitution.

Implicit Types (s t w : str).

(** The patterns of [_canon_text] match a run of one character class
    ([p]) that satisfies a test ([ok]), and put one character ([r0]) in
    its place. *)
Variable p : N -> bool.
Variable ok : str -> bool.
Variable r0 : N.

Fixpoint run_sub (fuel : nat) (s : str) : str :=
  match fuel with
  | O => s
  | S f =>
    match s with
    | [] => []
    | x :: s' =>
      if ok (takewhile p s) then r0 :: run_sub f (dropwhile p s)
      else x :: run_sub f s'
    end
  end.

Hypothesis ok_nil : ok [] = false.

Lemma takewhile_dropwhile s : takewhile p s ++ dropwhile p s = s.
Proof.
  induction s as [|x s IH]; simpl; [reflexivity|].
  destruct (p x); simpl; [now rewrite IH|reflexivity].
Qed.

Lemma drop_takewhile s : drop (length (takewhile p s)) s = dropwhile p s.
Proof.
  induction s as [|x s IH]; simpl; [reflexivity|].
  destruct (p x); simpl; [exact IH|reflexivity].
Qed.

Lemma dropwhile_length s : (length (dropwhile p s) <= length s)%nat.
Proof.
  induction s as [|x s IH]; simpl; [lia|]. destruct (p x); simpl; lia.
Qed.

Lemma ok_run_nonempty s :
  ok (takewhile p s) = true -> exists x s', s = x :: s' /\ p x = true.
Proof.
  destruct s as [|x s']; simpl; [now rewrite ok_nil|].
  destruct (p x) eqn:E; [eauto|now rewrite ok_nil].
Qed.

(** The substitution of a pattern whose matches are these runs. *)
Lemma sub_from_run (r : regex) (g : caps) :
  (forall pos s,
     match_at r pos s
     = if ok (takewhile p s)
       then Some (pos + length (takewhile p s), g)%nat else None) ->
  forall fuel pos s, sub_from r [r0] fuel pos s = run_sub fuel s.
Proof.
  intros M. induction fuel as [|f IH]; intros pos s; [reflexivity|].
  destruct s as [|x s']; [reflexivity|].
  cbn [sub_from run_sub]. rewrite M.
  destruct (ok (takewhile p (x :: s'))) eqn:E; [|now rewrite IH].
  destruct (ok_run_nonempty _ E) as (y & t & Hy & Py). injection Hy as <- <-.
  replace (pos <? pos + length (takewhile p (x :: s')))%nat with true
    by (symmetry; apply Nat.ltb_lt; simpl; rewrite Py; simpl; lia).
  replace (pos + length (takewhile p (x :: s')) - pos)%nat
    with (length (takewhile p (x :: s'))) by lia.
  rewrite drop_takewhile, IH. reflexivity.
Qed.

(** The first character of the result. *)
Lemma run_sub_head fuel s :
  (length s <= fuel)%nat ->
  head (run_sub fuel s)
  = match s with
    | [] => None
    | x :: _ => Some (if ok (takewhile p s) then r0 else x)
    end.
Proof.
  destruct fuel as [|f]; intros H.
  - destruct s; [reflexivity|simpl in H; lia].
  - destruct s as [|x s']; [reflexivity|]. cbn [run_sub].
    destruct (ok (takewhile p (x :: s'))); reflexivity.
Qed.

(** No pair of neighbours is [bad]. *)
Fixpoint pairs_ok (bad : N -> N -> bool) (s : str) : Prop :=
  match s with
  | [] => True
  | x :: s' =>
    match s' with
    | [] => True
    | y :: _ => bad x y = false
    end /\ pairs_ok bad s'
  end.

Lemma pairs_ok_cons bad x s :
  pairs_ok bad s ->
  (forall y, head s = Some y -> bad x y = false) ->
  pairs_ok bad (x :: s).
Proof.
  intros H Hx. split; [|exact H]. destruct s as [|y s']; [exact I|].
  now apply Hx.
Qed.

Lemma pairs_ok_app bad s t :
  pairs_ok bad (s ++ t) -> pairs_ok bad s /\ pairs_ok bad t.
Proof.
  induction s as [|x s IH]; simpl; [auto|]. intros [H1 H2].
  destruct (IH H2) as [Hs Ht]. split; [|exact Ht]. split; [|exact Hs].
  destruct s; [exact I|exact H1].
Qed.

Section Invariant.

(** A property of the subject that every tail inherits. *)
Variable inv : str -> Prop.
Hypothesis inv_tail : forall x s, inv (x :: s) -> inv s.

Lemma inv_dropwhile s : inv s -> inv (dropwhile p s).
Proof.
  induction s as [|x s IH]; simpl; [auto|].
  destruct (p x); [|auto]. intros H. apply IH. eapply inv_tail, H.
Qed.

(** The substitution changes nothing when every run that passes the test
    is the replacement already. *)
Lemma run_sub_id :
  (forall s, inv s -> ok (takewhile p s) = true -> takewhile p s = [r0]) ->
  forall fuel s, inv s -> run_sub fuel s = s.
Proof.
  intros Hrun. induction fuel as [|f IH]; intros s Hs; [reflexivity|].
  destruct s as [|x s']; [reflexivity|]. cbn [run_sub].
  destruct (ok (takewhile p (x :: s'))) eqn:E.
  - rewrite IH by (apply inv_dropwhile, Hs).
    rewrite <- (takewhile_dropwhile (x :: s')) at 2.
    now rewrite (Hrun _ Hs E).
  - rewrite IH by (eapply inv_tail, Hs). reflexivity.
Qed.

(** The result has no bad pair of neighbours when the replacement is bad
    with no neighbour outside the class, a longer run passes the test when
    a shorter does, and no two neighbours that are both kept are bad. *)
Lemma run_sub_pairs (bad : N -> N -> bool) :
  (forall x w, p x = true -> ok w = true -> ok (x :: w) = true) ->
  (forall y, p y = false -> bad r0 y = false) ->
  (forall x, p x = false -> bad x r0 = false) ->
  (forall x y t, inv (x :: y :: t) ->
     ok (takewhile p (x :: y :: t)) = false ->
     ok (takewhile p (y :: t)) = false -> bad x y = false) ->
  forall fuel s, (length s <= fuel)%nat -> inv s -> pairs_ok bad (run_sub fuel s).
Proof.
  intros Hmono Hafter Hbefore Hkept.
  induction fuel as [|f IH]; intros s Hf Hs.
  - destruct s; [exact I|simpl in Hf; lia].
  - destruct s as [|x s']; [exact I|]. cbn [run_sub]. simpl in Hf.
    destruct (ok (takewhile p (x :: s'))) eqn:E.
    + pose proof (dropwhile_length (x :: s')) as Hl. simpl length in Hl.
      destruct (ok_run_nonempty _ E) as (x' & t' & Hx & Px).
      injection Hx as <- <-.
      assert (length (dropwhile p (x :: s')) <= f)%nat as Hlen.
      { simpl. rewrite Px. pose proof (dropwhile_length s'). lia. }
      apply pairs_ok_cons.
      * apply IH; [exact Hlen|apply inv_dropwhile, Hs].
      * intros y Hy. rewrite run_sub_head in Hy by exact Hlen.
        destruct (dropwhile p (x :: s')) as [|z t] eqn:D; [discriminate|].
        assert (p z = false) as Pz by (eapply dropwhile_head; exact D).
        cbn [takewhile] in Hy. rewrite Pz, ok_nil in Hy.
        injection Hy as <-. now apply Hafter.
    + apply pairs_ok_cons.
      * apply IH; [lia|eapply inv_tail, Hs].
      * intros y Hy. rewrite run_sub_head in Hy by lia.
        destruct s' as [|z t]; [discriminate|].
        destruct (ok (takewhile p (z :: t))) eqn:E2; injection Hy as <-.
        -- apply Hbefore. destruct (p x) eqn:Px; [|reflexivity].
           change (takewhile p (x :: z :: t))
             with (if p x then x :: takewhile p (z :: t) else []) in E.
           rewrite Px in E. rewrite (Hmono x _ Px E2) in E. discriminate.
        -- now apply (Hkept x z t).
Qed.

End Invariant.

(** The characters of the result are the replacement and characters that
    were kept. *)
Lemma run_sub_Forall (P Q : N -> Prop) :
  P r0 ->
  (forall x s', ok (takewhile p (x :: s')) = false -> Q x -> P x) ->
  forall fuel s, (length s <= fuel)%nat -> Forall Q s -> Forall P (run_sub fuel s).
Proof.
  intros Hr Hkept. induction fuel as [|f IH]; intros s Hf Hs.
  - destruct s; [constructor|simpl in Hf; lia].
  - destruct s as [|x s']; [constructor|]. cbn [run_sub]. simpl in Hf.
    destruct (ok (takewhile p (x :: s'))) eqn:E.
    + constructor; [exact Hr|]. apply IH.
      * destruct (ok_run_nonempty _ E) as (x' & t' & Hx & Px).
        injection Hx as <- <-. simpl. rewrite Px.
        pose proof (dropwhile_length s'). lia.
      * destruct (dropwhile_split p (x :: s')) as (lead & Hl & _).
        rewrite Hl in Hs. now apply Forall_app in Hs as [_ Hs].
    + inversion Hs; subst. constructor; [now apply (Hkept x s')|].
      apply IH; [lia|assumption].
Qed.

End RunSubstitution.

(** ** Canonical text *)

Section CanonText.

Implicit Types (s t w : str).

Lemma rep_cls_short (p : N -> bool) lo k : forall s n cnt pos c,
  (cnt + length (takewhile p s) < lo)%nat ->
  rep_loop (cls_body p) true lo None k n cnt pos s c = None.
Proof.
  induction s as [|x s IH]; intros n cnt pos c H;
    (destruct n as [|n]; [reflexivity|]); rewrite rep_cls_unfold.
  - simpl in H. replace (lo <=? cnt)%nat with false
      by (symmetry; apply Nat.leb_gt; lia). reflexivity.
  - simpl in H. destruct (p x).
    + rewrite IH by (simpl in H; lia).
      replace (lo <=? cnt)%nat with false
        by (symmetry; apply Nat.leb_gt; simpl in H; lia). reflexivity.
    + replace (lo <=? cnt)%nat with false
        by (symmetry; apply Nat.leb_gt; simpl in H; lia). reflexivity.
Qed.

(** A match of a greedy repetition of a class is its longest run. *)
Lemma match_at_run (p : N -> bool) (lo : nat) pos s :
  match_at (Rep true lo None (Cls p)) pos s
  = if (lo <=? length (takewhile p s))%nat
    then Some (pos + length (takewhile p s), [])%nat else None.
Proof.
  unfold match_at. rewrite mt_rep_cls.
  destruct (lo <=? length (takewhile p s))%nat eqn:E.
  - apply Nat.leb_le in E.
    rewrite (rep_cls_max p lo accept
               (pos + length (takewhile p s), dropwhile p s, [])%nat);
      [reflexivity|lia|lia|reflexivity].
  - apply Nat.leb_gt in E. rewrite rep_cls_short by lia. reflexivity.
Qed.

Definition blank (c : N) : bool := mem c [SP; 9].
Definition has_lf (w : str) : bool := existsb (N.eqb LF) w.

(** A match of [NEWLINE_RUN] is a run of whitespace with a line break. *)
Lemma newline_run_loop fuel : forall s n cnt pos,
  (length s < n)%nat -> (length s < fuel)%nat ->
  rep_loop (cls_body isspace) true 0 None
    (fun pos' s' c' => mt (Cat (chr LF) (star ws)) fuel pos' s' c' accept)
    n cnt pos s []
  = if has_lf (takewhile isspace s)
    then Some (pos + length (takewhile isspace s), dropwhile isspace s, [])%nat
    else None.
Proof.
  induction s as [|x s IH]; intros n cnt pos Hn Hf;
    (destruct n as [|n]; [simpl in Hn; lia|]); rewrite rep_cls_unfold.
  - reflexivity.
  - simpl in Hn, Hf. cbn [takewhile dropwhile].
    destruct (isspace x) eqn:Sx.
    + rewrite IH by lia. cbn [has_lf existsb length]. fold (has_lf (takewhile isspace s)).
      destruct (has_lf (takewhile isspace s)).
      * rewrite orb_true_r. now rewrite Nat.add_succ_comm.
      * rewrite orb_false_r. cbn [Nat.leb].
        rewrite mt_cat. unfold chr at 1. rewrite mt_cls. unfold cls_body at 1.
        destruct (LF =? x); [|reflexivity].
        unfold star, ws. rewrite mt_rep_cls.
        rewrite (rep_cls_max isspace 0 accept
                   (S pos + length (takewhile isspace s), dropwhile isspace s, [])%nat);
          [now rewrite Nat.add_succ_comm|lia|lia|reflexivity].
    + cbn [Nat.leb has_lf existsb].
      rewrite mt_cat. unfold chr at 1. rewrite mt_cls. unfold cls_body at 1.
      destruct (N.eqb_spec LF x) as [<-|]; [discriminate Sx|reflexivity].
Qed.

Lemma match_at_newline_run pos s :
  match_at Frame.NEWLINE_RUN pos s
  = if has_lf (takewhile isspace s)
    then Some (pos + length (takewhile isspace s), [])%nat else None.
Proof.
  unfold match_at, Frame.NEWLINE_RUN. cbn [seq]. rewrite mt_cat.
  unfold star at 1, ws at 1. rewrite mt_rep_cls.
  rewrite newline_run_loop by lia.
  destruct (has_lf (takewhile isspace s)); reflexivity.
Qed.

(** The three substitutions of [_canon_text] as substitutions of runs. *)
Definition join_blanks (s : str) : str :=
  run_sub blank (fun w => (1 <=? length w)%nat) SP (length s) s.
Definition join_breaks (s : str) : str :=
  run_sub isspace has_lf LF (length s) s.
Definition join_newlines (s : str) : str :=
  run_sub (N.eqb LF) (fun w => (2 <=? length w)%nat) LF (length s) s.

Lemma sub_blanks s : Re.sub Frame.BLANKS [SP] s = join_blanks s.
Proof.
  unfold Re.sub, join_blanks. apply (sub_from_run _ _ _ eq_refl _ []).
  intros pos t. apply match_at_run.
Qed.

Lemma sub_breaks s : Re.sub Frame.NEWLINE_RUN [LF] s = join_breaks s.
Proof.
  unfold Re.sub, join_breaks. apply (sub_from_run _ _ _ eq_refl _ []).
  intros pos t. apply match_at_newline_run.
Qed.

Lemma sub_newlines s : Re.sub Frame.NEWLINES [LF] s = join_newlines s.
Proof.
  unfold Re.sub, join_newlines. apply (sub_from_run _ _ _ eq_refl _ []).
  intros pos t. apply match_at_run.
Qed.

End CanonText.

Section Canonical.

Implicit Types (s t w : str).

(** Characters that canonical text does not hold, and pairs of neighbours
    it does not hold: two blanks, and a line break next to whitespace. *)
Definition plain_char (c : N) : bool :=
  negb (ZERO_WIDTH c) && negb (c =? NBSP) && negb (c =? IDSP) && negb (c =? 9).
Definition two_blanks (a b : N) : bool := blank a && blank b.
Definition break_in_space (a b : N) : bool :=
  (isspace a && (LF =? b)) || ((LF =? a) && isspace b).

Definition canonical (s : str) : Prop :=
  Forall (fun c => plain_char c = true) s
  /\ pairs_ok two_blanks s
  /\ pairs_ok break_in_space s
  /\ tidy s.

Lemma pairs_ok_tail bad (x : N) s : pairs_ok bad (x :: s) -> pairs_ok bad s.
Proof. now intros [_ H]. Qed.

Lemma remove_id (p : N -> bool) s :
  Forall (fun c => p c = false) s -> remove p s = s.
Proof. induction 1 as [|c s H _ IH]; simpl; [reflexivity|]. now rewrite H, IH. Qed.

Lemma replace1_id (a b : N) s :
  Forall (fun c => (c =? a) = false) s -> replace1 a b s = s.
Proof.
  unfold replace1. induction 1 as [|c s H _ IH]; simpl; [reflexivity|].
  now rewrite H, IH.
Qed.

Lemma plain_char_inv c :
  plain_char c = true ->
  ZERO_WIDTH c = false /\ (c =? NBSP) = false /\ (c =? IDSP) = false
  /\ (c =? 9) = false.
Proof.
  unfold plain_char. intros H.
  repeat (apply andb_prop in H as [H ?]).
  repeat split; now apply negb_true_iff.
Qed.

Lemma blank_plain c : plain_char c = true -> blank c = true -> c = SP.
Proof.
  intros P B. apply plain_char_inv in P as (_ & _ & _ & T).
  unfold blank, mem in B. cbn [existsb] in B. rewrite T in B.
  rewrite !orb_false_r in B. now apply N.eqb_eq in B.
Qed.

(** The substitutions leave canonical text as it is. *)
Lemma join_blanks_id s :
  Forall (fun c => plain_char c = true) s -> pairs_ok two_blanks s ->
  join_blanks s = s.
Proof.
  intros F P. unfold join_blanks.
  apply (run_sub_id blank _ SP
           (fun t => Forall (fun c => plain_char c = true) t
                     /\ pairs_ok two_blanks t)); [| |now split].
  - intros x t [Hf Hp]. inversion Hf; subst. split; [assumption|].
    eapply pairs_ok_tail, Hp.
  - intros t [Hf Hp] Hok. destruct t as [|x t]; [discriminate|].
    cbn [takewhile] in *. destruct (blank x) eqn:B; [|discriminate].
    inversion Hf; subst. rewrite (blank_plain x) by assumption.
    destruct t as [|y t]; [reflexivity|]. destruct Hp as [Hxy _].
    unfold two_blanks in Hxy. rewrite B, andb_true_l in Hxy.
    cbn [takewhile]. now rewrite Hxy.
Qed.

Lemma no_break_behind (x : N) s :
  pairs_ok break_in_space (x :: s) -> isspace x = true -> (LF =? x) = false ->
  has_lf (takewhile isspace s) = false.
Proof.
  revert x. induction s as [|y s IH]; intros x [Hxy Hp] Sx Nx; [reflexivity|].
  cbn [takewhile]. destruct (isspace y) eqn:Sy; [|reflexivity].
  unfold break_in_space in Hxy. rewrite Sx, Nx in Hxy.
  rewrite andb_true_l, andb_false_l, orb_false_r in Hxy.
  cbn [has_lf existsb]. rewrite Hxy, orb_false_l.
  now apply (IH y).
Qed.

Lemma join_breaks_id s : pairs_ok break_in_space s -> join_breaks s = s.
Proof.
  intros P. unfold join_breaks.
  apply (run_sub_id isspace _ LF (pairs_ok break_in_space)); [| |exact P].
  - intros x t. apply pairs_ok_tail.
  - intros t Hp Hok. destruct t as [|x t]; [discriminate|].
    cbn [takewhile] in *. destruct (isspace x) eqn:Sx; [|discriminate].
    destruct (N.eqb_spec LF x) as [<-|Nx].
    + destruct t as [|y t]; [reflexivity|]. destruct Hp as [Hxy _].
      unfold break_in_space in Hxy. rewrite N.eqb_refl in Hxy.
      apply orb_false_iff in Hxy as [_ Hy]. rewrite andb_true_l in Hy.
      cbn [takewhile]. now rewrite Hy.
    + cbn [has_lf existsb] in Hok.
      rewrite (proj2 (N.eqb_neq LF x) Nx), orb_false_l in Hok.
      fold (has_lf (takewhile isspace t)) in Hok.
      rewrite (no_break_behind x t Hp Sx) in Hok; [discriminate|].
      now apply N.eqb_neq.
Qed.

Lemma join_newlines_id s : pairs_ok break_in_space s -> join_newlines s = s.
Proof.
  intros P. unfold join_newlines.
  apply (run_sub_id (N.eqb LF) _ LF (pairs_ok break_in_space)); [| |exact P].
  - intros x t. apply pairs_ok_tail.
  - intros t Hp Hok. destruct t as [|x [|y t]]; cbn [takewhile] in *.
    + discriminate.
    + destruct (LF =? x); discriminate.
    + destruct (N.eqb_spec LF x) as [<-|]; [|discriminate].
      destruct Hp as [Hxy _]. unfold break_in_space in Hxy.
      apply orb_false_iff in Hxy as [Hy _].
      change (isspace LF) with true in Hy. rewrite andb_true_l in Hy.
      rewrite Hy in Hok. discriminate.
Qed.

(** What each substitution establishes and keeps. *)
Lemma join_blanks_plain s :
  Forall (fun c => ZERO_WIDTH c = false /\ (c =? NBSP) = false
                   /\ (c =? IDSP) = false) s ->
  Forall (fun c => plain_char c = true) (join_blanks s)
  /\ pairs_ok two_blanks (join_blanks s).
Proof.
  intros F. unfold join_blanks. split.
  - eapply (run_sub_Forall blank _ SP eq_refl); [reflexivity| |lia|exact F].
    intros x t Hok (Z & A & B). cbn [takewhile] in Hok.
    destruct (blank x) eqn:Bx; [discriminate|].
    unfold plain_char. rewrite Z, A, B.
    unfold blank, mem in Bx. cbn [existsb] in Bx.
    apply orb_false_iff in Bx as [_ Bx]. apply orb_false_iff in Bx as [Bx _].
    now rewrite Bx.
  - apply (run_sub_pairs blank _ SP eq_refl (fun _ => True));
      [intros; exact I|intros; reflexivity| | | |lia|exact I].
    + intros y Hy. unfold two_blanks. rewrite Hy. apply andb_false_r.
    + intros x Hx. unfold two_blanks. now rewrite Hx.
    + intros x y t _ Hok _. cbn [takewhile] in Hok.
      unfold two_blanks. destruct (blank x); [discriminate|reflexivity].
Qed.

Lemma has_lf_cons x w : has_lf w = true -> has_lf (x :: w) = true.
Proof. intros H. cbn [has_lf existsb]. fold (has_lf w). rewrite H. apply orb_true_r. Qed.

Lemma join_breaks_plain s :
  Forall (fun c => plain_char c = true) s -> pairs_ok two_blanks s ->
  Forall (fun c => plain_char c = true) (join_breaks s)
  /\ pairs_ok two_blanks (join_breaks s)
  /\ pairs_ok break_in_space (join_breaks s).
Proof.
  intros F P. unfold join_breaks. repeat split.
  - eapply (run_sub_Forall isspace _ LF eq_refl); [reflexivity| |lia|exact F].
    intros x t _ Hx. exact Hx.
  - apply (run_sub_pairs isspace _ LF eq_refl (pairs_ok two_blanks));
      [apply pairs_ok_tail| | | | |lia|exact P].
    + intros x w _. apply has_lf_cons.
    + intros y _. reflexivity.
    + intros x _. unfold two_blanks. apply andb_false_r.
    + intros x y t [H _] _ _. exact H.
  - apply (run_sub_pairs isspace _ LF eq_refl (fun _ => True));
      [intros; exact I| | | | |lia|exact I].
    + intros x w _. apply has_lf_cons.
    + intros y Sy. unfold break_in_space. rewrite Sy, andb_false_r, orb_false_r.
      change (isspace LF) with true. rewrite andb_true_l.
      destruct (N.eqb_spec LF y) as [<-|]; [discriminate Sy|reflexivity].
    + intros x Sx. unfold break_in_space. rewrite Sx, andb_false_l, orb_false_l.
      destruct (N.eqb_spec LF x) as [<-|]; [discriminate Sx|reflexivity].
    + intros x y t _ Hx Hy. unfold break_in_space.
      apply orb_false_iff. split; apply andb_false_iff.
      * destruct (isspace x) eqn:Sx; [right|now left].
        cbn [takewhile] in Hy. destruct (N.eqb_spec LF y) as [<-|]; [|reflexivity].
        change (isspace LF) with true in Hy. cbn [has_lf existsb] in Hy.
        rewrite N.eqb_refl in Hy. discriminate.
      * destruct (N.eqb_spec LF x) as [<-|]; [right|now left].
        cbn [takewhile] in Hx. change (isspace LF) with true in Hx.
        cbn [has_lf existsb] in Hx. rewrite N.eqb_refl in Hx. discriminate.
Qed.

Lemma strip_keeps (P : N -> Prop) bad s :
  Forall P s -> pairs_ok bad s ->
  Forall P (strip s) /\ pairs_ok bad (strip s).
Proof.
  intros F Pk. destruct (strip_split s) as (lead & tail & E & _ & _).
  rewrite E in F, Pk. split.
  - apply Forall_app in F as [_ F]. now apply Forall_app in F as [F _].
  - apply pairs_ok_app in Pk as [_ Pk]. now apply pairs_ok_app in Pk as [Pk _].
Qed.

Lemma replace_plain s :
  Forall (fun c => ZERO_WIDTH c = false /\ (c =? NBSP) = false
                   /\ (c =? IDSP) = false)
         (replace1 IDSP SP (replace1 NBSP SP (remove ZERO_WIDTH s))).
Proof.
  unfold replace1. rewrite map_map.
  pose proof (remove_none ZERO_WIDTH s) as F.
  induction F as [|c t Hc _ IH]; simpl; [constructor|].
  constructor; [|exact IH].
  destruct (N.eqb_spec c NBSP) as [->|N1]; [repeat split; reflexivity|].
  destruct (N.eqb_spec c IDSP) as [->|N2]; [repeat split; reflexivity|].
  repeat split; [exact Hc|now apply N.eqb_neq..].
Qed.

(** [_canon_text] gives canonical text, and leaves canonical text as it
    is. *)
Lemma canon_text_canonical (x : option str) : canonical (Frame._canon_text x).
Proof.
  destruct x as [s|]; [|repeat split; constructor].
  unfold Frame._canon_text.
  rewrite sub_blanks, sub_breaks, sub_newlines.
  destruct (join_blanks_plain _ (replace_plain s)) as [F1 P1].
  destruct (join_breaks_plain _ F1 P1) as (F2 & P2 & Q2).
  rewrite (join_newlines_id _ Q2).
  destruct (strip_keeps _ two_blanks _ F2 P2) as [F3 P3].
  destruct (strip_keeps _ break_in_space _ F2 Q2) as [_ Q3].
  repeat split; try assumption. apply strip_tidy.
Qed.

Lemma canon_text_fixed s : canonical s -> Frame._canon_text (Some s) = s.
Proof.
  intros (F & P & Q & T). unfold Frame._canon_text.
  assert (Forall (fun c => ZERO_WIDTH c = false) s
          /\ Forall (fun c => (c =? NBSP) = false) s
          /\ Forall (fun c => (c =? IDSP) = false) s) as (F1 & F2 & F3).
  { repeat split; (eapply Forall_impl; [exact F|]); intros c Hc;
      now apply plain_char_inv in Hc. }
  rewrite (remove_id _ _ F1), (replace1_id _ _ _ F2), (replace1_id _ _ _ F3).
  rewrite sub_blanks, (join_blanks_id _ F P).
  rewrite sub_breaks, (join_breaks_id _ Q).
  rewrite sub_newlines, (join_newlines_id _ Q).
  exact T.
Qed.

Lemma canon_text_idem (x : option str) :
  Frame._canon_text (Some (Frame._canon_text x)) = Frame._canon_text x.
Proof. apply canon_text_fixed, canon_text_canonical. Qed.

End Canonical.

(** ** De-duplication *)

Section Deduplication.

Import Frame.

Implicit Types (r : row) (rows : list row) (key : list (option str))
  (seen : list (list (option str))).

Lemma canon_row_idem r : canon_row (canon_row r) = canon_row r.
Proof.
  unfold canon_row. cbn [region source_category item_title target
    application_period content application_method contact notes
    purchase_method location full_text source_url].
  now rewrite !canon_text_idem.
Qed.

Lemma seen_before_cons key k seen :
  seen_before key (k :: seen) = bool_decide (k = key) || seen_before key seen.
Proof. reflexivity. Qed.

Lemma seen_before_In key seen : seen_before key seen = true <-> In key seen.
Proof.
  unfold seen_before. rewrite existsb_exists. split.
  - intros (k & Hk & E). apply bool_decide_eq_true in E. now subst.
  - intros H. exists key. split; [exact H|]. now apply bool_decide_eq_true.
Qed.

(** The rows kept are rows of the argument. *)
Lemma drop_duplicates_Forall (P : row -> Prop) rows : forall seen,
  Forall P rows -> Forall P (drop_duplicates seen rows).
Proof.
  induction rows as [|r rows IH]; intros seen H; [constructor|].
  inversion H; subst. simpl.
  destruct (seen_before (compare_cols r) seen); [now apply IH|].
  constructor; [assumption|now apply IH].
Qed.

(** Rows whose keys differ from one another and from the keys seen. *)
Fixpoint fresh seen rows : Prop :=
  match rows with
  | [] => True
  | r :: rest =>
    seen_before (compare_cols r) seen = false
    /\ fresh (compare_cols r :: seen) rest
  end.

Lemma drop_duplicates_fresh rows : forall seen,
  fresh seen (drop_duplicates seen rows).
Proof.
  induction rows as [|r rows IH]; intros seen; [exact I|]. simpl.
  destruct (seen_before (compare_cols r) seen) eqn:E; [apply IH|].
  split; [exact E|apply IH].
Qed.

Lemma drop_duplicates_fixed rows : forall seen,
  fresh seen rows -> drop_duplicates seen rows = rows.
Proof.
  induction rows as [|r rows IH]; intros seen H; [reflexivity|].
  destruct H as [E H]. simpl. rewrite E. now rewrite IH.
Qed.

(** A row behind the others is kept unless its key was seen or is the key
    of one of the others. *)
Lemma drop_duplicates_snoc rows r : forall seen,
  drop_duplicates seen (rows ++ [r])
  = drop_duplicates seen rows
    ++ (if seen_before (compare_cols r) seen
           || seen_before (compare_cols r) (map compare_cols rows)
        then [] else [r]).
Proof.
  induction rows as [|x rows IH]; intros seen;
    cbn [drop_duplicates app map].
  - change (seen_before (compare_cols r) []) with false.
    rewrite orb_false_r. destruct (seen_before _ seen); reflexivity.
  - rewrite (seen_before_cons _ (compare_cols x) (map compare_cols rows)).
    destruct (seen_before (compare_cols x) seen) eqn:E.
    + rewrite IH. f_equal.
      destruct (bool_decide_reflect (compare_cols x = compare_cols r)) as [Ex|_].
      * rewrite <- Ex, E. reflexivity.
      * reflexivity.
    + rewrite IH. cbn [app]. f_equal. rewrite seen_before_cons.
      destruct (bool_decide (compare_cols x = compare_cols r));
        destruct (seen_before (compare_cols r) seen); reflexivity.
Qed.

Lemma save_records_canonical (records : list row) :
  Forall (fun r => canon_row r = r) (save_records records).
Proof.
  unfold save_records. apply drop_duplicates_Forall.
  induction records; constructor; [apply canon_row_idem|assumption].
Qed.

Lemma map_fixed (f : row -> row) rows :
  Forall (fun r => f r = r) rows -> map f rows = rows.
Proof. induction 1 as [|r rows H _ IH]; simpl; [reflexivity|]. now rewrite H, IH. Qed.

Lemma drop_duplicates_keys rows : forall seen key,
  In key (map compare_cols (drop_duplicates seen rows)) \/ In key seen
  <-> In key (map compare_cols rows) \/ In key seen.
Proof.
  induction rows as [|r rows IH]; intros seen key; [reflexivity|].
  cbn [drop_duplicates map].
  destruct (seen_before (compare_cols r) seen) eqn:E.
  - rewrite IH. apply seen_before_In in E. simpl. intuition (subst; auto).
  - cbn [map]. simpl In. specialize (IH (compare_cols r :: seen) key).
    simpl In in IH. tauto.
Qed.

Lemma fresh_NoDup rows : forall seen,
  fresh seen rows ->
  NoDup (map compare_cols rows)
  /\ forall key, In key (map compare_cols rows) -> ~ In key seen.
Proof.
  induction rows as [|r rows IH]; intros seen H.
  - split; [constructor|intros key []].
  - destruct H as [E H]. destruct (IH _ H) as [N D]. split.
    + cbn [map]. constructor; [|exact N].
      intros Hin. apply list_elem_of_In in Hin.
      apply (D _ Hin). now left.
    + intros key [<-|Hin] Hs.
      * apply seen_before_In in Hs. congruence.
      * apply (D _ Hin). now right.
Qed.

End Deduplication.

(** C9: the rows that [save_records] of pr-1.py keeps are a fixed point of
    it. *)
Theorem deduplicate_is_idempotent :
  forall records : list Frame.row,
    Pr1.save_records (Pr1.save_records records) = Pr1.save_records records.
Proof.
  intros records. unfold Pr1.save_records.
  unfold Frame.save_records at 1.
  rewrite (map_fixed _ _ (save_records_canonical records)).
  apply drop_duplicates_fixed. apply drop_duplicates_fresh.
Qed.

(** C3, as amended: [save_records] replaces every cell but [source_url]
    and [full_text] by its canonical text (a missing cell by the empty
    string) and then keeps the first row of each key.  A row behind the
    others is kept exactly when no earlier row has the same canonical
    cells; the row that is kept carries the canonical cells and, as they
    were, the full text and the source URL of that first row. *)
Theorem deduplication_postcondition :
  Frame.save_records [] = []
  /\ (forall (records : list Frame.row) (r : Frame.row),
        Frame.save_records (records ++ [r])
        = Frame.save_records records
          ++ (if Frame.seen_before (Frame.compare_cols (Frame.canon_row r))
                   (map (fun x => Frame.compare_cols (Frame.canon_row x)) records)
              then [] else [Frame.canon_row r]))
  /\ (forall r : Frame.row,
        Frame.compare_cols (Frame.canon_row r)
        = map (fun x => Some (Frame._canon_text x)) (Frame.compare_cols r)
        /\ Frame.full_text (Frame.canon_row r) = Frame.full_text r
        /\ Frame.source_url (Frame.canon_row r) = Frame.source_url r)
  /\ (forall x : option str,
        Frame._canon_text (Some (Frame._canon_text x)) = Frame._canon_text x)
  /\ (forall (records : list Frame.row) (key : list (option str)),
        In key (map Frame.compare_cols (Frame.save_records records))
        <-> In key (map (fun x => Frame.compare_cols (Frame.canon_row x)) records))
  /\ (forall records : list Frame.row,
        NoDup (map Frame.compare_cols (Frame.save_records records))).
Proof.
  split; [reflexivity|]. split.
  { intros records r. unfold Frame.save_records.
    rewrite map_app. cbn [map]. rewrite drop_duplicates_snoc.
    change (Frame.seen_before (Frame.compare_cols (Frame.canon_row r)) [])
      with false.
    rewrite orb_false_l, map_map. reflexivity. }
  split; [intros r; repeat split|].
  split; [apply canon_text_idem|]. split.
  - intros records key. unfold Frame.save_records.
    pose proof (drop_duplicates_keys (map Frame.canon_row records) [] key) as H.
    rewrite map_map in H. simpl In in H. tauto.
  - intros records. unfold Frame.save_records.
    apply (fresh_NoDup _ []), drop_duplicates_fresh.
Qed.

(** C3 as stated fails in one point: the canonical text is not used for
    the comparison only, it is what the kept row holds.  A row with two
    blanks in [content] and no [target] is written with one blank and with
    the empty string. *)
Lemma canonical_cells_are_stored :
  let r := {| Frame.region := Some (U "중구");
              Frame.source_category := Some (U "정책");
              Frame.item_title := Some (U "A");
              Frame.target := None;
              Frame.application_period := None;
              Frame.content := Some (U "a  b");
              Frame.application_method := None;
              Frame.contact := None;
              Frame.notes := None;
              Frame.purchase_method := None;
              Frame.location := None;
              Frame.full_text := Some (U "▶ A  ");
              Frame.source_url := Some (U "u") |} in
  exists r',
    Frame.save_records [r] = [r']
    /\ Frame.content r' = Some (U "a b")
    /\ Frame.target r' = Some []
    /\ Frame.full_text r' = Some (U "▶ A  ")
    /\ ~ In r' [r].
Proof.
  intros r. exists (Frame.canon_row r). repeat split.
  intros [H|[]]. apply (f_equal Frame.target) in H. discriminate H.
Qed.

(** ** Reference lines in the alias-table accumulator *)

Section MatchTrace.

Implicit Types (r a b : regex) (s t : str) (k : kont) (c : caps).

(** The groups a pattern may capture. *)
Fixpoint groups (r : regex) : list nat :=
  match r with
  | Grp i a => i :: groups a
  | Cat a b | Alt a b => groups a ++ groups b
  | Rep _ _ _ a | Ahead a => groups a
  | Eps | Cls _ | Bos | Eos => []
  end.

Definition captured (r : regex) (new : caps) : Prop :=
  Forall (fun e => In (fst e) (groups r)) new.

Lemma captured_app_l a b new : captured a new -> captured (Cat a b) new.
Proof.
  intros H. eapply Forall_impl; [exact H|]. intros e He. simpl.
  apply in_or_app. now left.
Qed.

Lemma captured_app_r a b new : captured b new -> captured (Cat a b) new.
Proof.
  intros H. eapply Forall_impl; [exact H|]. intros e He. simpl.
  apply in_or_app. now right.
Qed.

Lemma rep_loop_trace (body : nat -> str -> caps -> kont -> result)
  (P : caps -> Prop) (null : bool) g lo hi k res :
  P [] -> (forall n1 n2, P n1 -> P n2 -> P (n2 ++ n1)) ->
  (forall pos s c k', body pos s c k' = Some res ->
     exists pos' s' new, k' pos' s' (new ++ c) = Some res
       /\ (pos <= pos')%nat /\ (null = false -> (pos < pos')%nat) /\ P new) ->
  forall n cnt pos s c,
    rep_loop body g lo hi k n cnt pos s c = Some res ->
    exists pos' s' new, k pos' s' (new ++ c) = Some res
      /\ (pos <= pos')%nat
      /\ ((cnt < lo)%nat -> null = false -> (pos < pos')%nat) /\ P new.
Proof.
  intros P0 Papp Hbody. induction n as [|n IH]; intros cnt pos s c H;
    [discriminate|]. simpl in H.
  assert (Hmore : forall kk,
    kk = (fun pos' s' c' =>
            if (length s' <? length s)%nat
            then rep_loop body g lo hi k n (S cnt) pos' s' c' else None) ->
    (if below cnt hi then body pos s c kk else None) = Some res ->
    exists pos' s' new, k pos' s' (new ++ c) = Some res
      /\ (pos <= pos')%nat
      /\ ((cnt < lo)%nat -> null = false -> (pos < pos')%nat) /\ P new).
  { intros kk -> E. destruct (below cnt hi); [|discriminate].
    apply Hbody in E as (p1 & s1 & n1 & E & L1 & S1 & P1).
    destruct (length s1 <? length s)%nat; [|discriminate].
    apply IH in E as (p2 & s2 & n2 & E & L2 & _ & P2).
    exists p2, s2, (n2 ++ n1). rewrite <- app_assoc.
    split; [exact E|]. split; [lia|]. split; [|now apply Papp].
    intros _ Hn. specialize (S1 Hn). lia. }
  assert (Hstop : (if (lo <=? cnt)%nat then k pos s c else None) = Some res ->
    exists pos' s' new, k pos' s' (new ++ c) = Some res
      /\ (pos <= pos')%nat
      /\ ((cnt < lo)%nat -> null = false -> (pos < pos')%nat) /\ P new).
  { destruct (lo <=? cnt)%nat eqn:L; [|discriminate]. intros E.
    apply Nat.leb_le in L. exists pos, s, []. split; [exact E|].
    split; [lia|]. split; [lia|exact P0]. }
  destruct g;
    match type of H with
    | match ?X with _ => _ end = _ => destruct X eqn:E
    end.
  - injection H as ->. eapply Hmore; [reflexivity|exact E].
  - apply Hstop, H.
  - injection H as ->. apply Hstop. reflexivity.
  - eapply Hmore; [reflexivity|exact H].
Qed.

(** A successful match hands on a position that is not before its own,
    and behind it when the pattern is not nullable, with the groups of
    the pattern put in front of the captures. *)
Lemma mt_trace r : forall fuel pos s c k res,
  mt r fuel pos s c k = Some res ->
  exists pos' s' new, k pos' s' (new ++ c) = Some res
    /\ (pos <= pos')%nat /\ (nullable r = false -> (pos < pos')%nat)
    /\ captured r new.
Proof.
  induction r as [|p|a IHa b IHb|a IHa b IHb|g lo hi a IHa|i a IHa| | |a IHa];
    intros fuel pos s c k res H; simpl in H.
  - exists pos, s, []. repeat split; [exact H|lia|discriminate|constructor].
  - destruct s as [|x s']; [discriminate|]. destruct (p x); [|discriminate].
    exists (S pos), s', []. repeat split; [exact H|lia|lia|constructor].
  - apply IHa in H as (p1 & s1 & n1 & H & L1 & S1 & C1).
    apply IHb in H as (p2 & s2 & n2 & H & L2 & S2 & C2).
    exists p2, s2, (n2 ++ n1). rewrite <- app_assoc.
    split; [exact H|]. split; [lia|]. split.
    + simpl. intros N. apply andb_false_iff in N as [N|N];
        [specialize (S1 N)|specialize (S2 N)]; lia.
    + apply Forall_app. split; [now apply captured_app_r|now apply captured_app_l].
  - simpl nullable.
    destruct (mt a fuel pos s c k) eqn:E.
    + injection H as ->. apply IHa in E as (p1 & s1 & n1 & H & L1 & S1 & C1).
      exists p1, s1, n1. split; [exact H|]. split; [lia|]. split.
      * intros N. apply orb_false_iff in N as [N _]. auto.
      * eapply Forall_impl; [exact C1|]. intros e He. simpl.
        apply in_or_app. now left.
    + apply IHb in H as (p1 & s1 & n1 & H & L1 & S1 & C1).
      exists p1, s1, n1. split; [exact H|]. split; [lia|]. split.
      * intros N. apply orb_false_iff in N as [_ N]. auto.
      * eapply Forall_impl; [exact C1|]. intros e He. simpl.
        apply in_or_app. now right.
  - eapply (rep_loop_trace _ (captured a) (nullable a)) in H.
    + destruct H as (p1 & s1 & n1 & H & L1 & S1 & C1).
      exists p1, s1, n1. split; [exact H|]. split; [lia|]. split; [|exact C1].
      simpl. intros N. apply orb_false_iff in N as [N1 N2].
      apply Nat.eqb_neq in N1. apply S1; [lia|exact N2].
    + constructor.
    + intros n1 n2 H1 H2. apply Forall_app. now split.
    + intros pos0 s0 c0 k' E. apply IHa in E. exact E.
  - apply IHa in H as (p1 & s1 & n1 & H & L1 & S1 & C1).
    exists p1, s1, ((i, (pos, p1)) :: n1). split; [exact H|].
    split; [lia|]. split; [exact S1|]. constructor; [now left|].
    eapply Forall_impl; [exact C1|]. intros e He. now right.
  - destruct (pos =? 0)%nat; [|discriminate].
    exists pos, s, []. repeat split; [exact H|lia|discriminate|constructor].
  - exists pos, s, []. split.
    + destruct s as [|x [|y s']]; [exact H| |discriminate].
      destruct (x =? LF); [exact H|discriminate].
    + repeat split; [lia|discriminate|constructor].
  - destruct (mt a fuel pos s c _) as [[[p1 s1] c1]|] eqn:E; [|discriminate].
    apply IHa in E as (p2 & s2 & n2 & E & _ & _ & C2).
    injection E as _ _ <-.
    exists pos, s, n2. repeat split; [exact H|lia|discriminate|exact C2].
Qed.

Lemma mt_grp (i : nat) a fuel pos s c k :
  mt (Grp i a) fuel pos s c k
  = mt a fuel pos s c (fun pos' s' c' => k pos' s' ((i, (pos, pos')) :: c')).
Proof. reflexivity. Qed.

End MatchTrace.

Section ReferenceLines.

Implicit Types (s t r : str).

(** The mark ※. *)
Definition REF : N := 0x203B.

Lemma group_found (i : nat) (new : caps) (b e : nat) (rest : caps) s :
  Forall (fun x => fst x <> i) new ->
  group i (new ++ (i, (b, e)) :: rest) s = take (e - b) (drop b s).
Proof.
  intros H. unfold group. induction H as [|x new Hx _ IH]; simpl.
  - now rewrite Nat.eqb_refl.
  - destruct (Nat.eqb_spec (fst x) i); [contradiction|exact IH].
Qed.

(** In a line that starts with a character that is no whitespace, the key
    of [KEY_VALUE_PAT] starts with that character. *)
Lemma key_value_group (x : N) r e g :
  isspace x = false ->
  rmatch Alias.KEY_VALUE_PAT (x :: r) = Some (e, g) ->
  exists t, group 1 g (x :: r) = x :: t.
Proof.
  intros Sx. unfold rmatch, match_at. intros H.
  destruct (mt Alias.KEY_VALUE_PAT _ 0 (x :: r) [] accept)
    as [[[e' s'] g']|] eqn:E; [|discriminate].
  inversion H; subst; clear H.
  unfold Alias.KEY_VALUE_PAT in E. cbn [seq] in E.
  rewrite mt_cat in E. unfold star at 1, ws at 1 in E.
  rewrite mt_rep_cls, rep_cls_unfold, Sx in E. cbn [Nat.leb] in E.
  rewrite mt_cat, mt_grp in E.
  apply (mt_trace (lazy_plus dot)) in E as (p1 & s1 & n1 & E & _ & S1 & C1).
  specialize (S1 eq_refl).
  assert (n1 = []) as -> by (destruct C1 as [|? ? []]; reflexivity).
  cbv beta in E.
  apply mt_trace in E as (p2 & s2 & n2 & E & _ & _ & C2).
  unfold accept in E. injection E as _ _ <-. cbn [app].
  rewrite (group_found 1 n2 0 p1 []).
  - destruct p1 as [|p1]; [lia|]. simpl. eauto.
  - eapply Forall_impl; [exact C2|]. intros [i be] Hi. cbn [fst] in *.
    intros ->. cbn in Hi. intuition discriminate.
Qed.

Lemma strip_cons_head (x : N) r :
  isspace x = false -> exists t, strip (x :: r) = x :: t.
Proof.
  intros Sx. unfold strip, lstrip, rstrip.
  destruct (rdropwhile_cons_keep isspace x r Sx) as [t ->].
  rewrite dropwhile_id by assumption. eauto.
Qed.

Lemma normalize_key_ref t :
  Alias.normalize_key (REF :: t) = REF :: Alias.normalize_key t.
Proof. reflexivity. Qed.

Lemma words_from_cur s : forall cur,
  cur <> [] -> exists w ws, words_from cur s = (cur ++ w) :: ws.
Proof.
  induction s as [|x s IH]; intros cur H; simpl.
  - destruct cur; [contradiction|]. exists [], []. now rewrite app_nil_r.
  - destruct (isspace x).
    + destruct cur; [contradiction|]. exists [], (words_from [] s).
      now rewrite app_nil_r.
    + destruct (IH (cur ++ [x])) as (w & ws & ->); [now destruct cur|].
      exists (x :: w), ws. now rewrite <- app_assoc.
Qed.

Lemma join_head (sep a : str) (l : list str) :
  exists t, join sep (a :: l) = a ++ t.
Proof.
  destruct l as [|b l]; simpl; [exists []; now rewrite app_nil_r|eauto].
Qed.

Lemma alias_get_head (table : list (str * string)) (x : N) t :
  Forall (fun e => head (fst e) <> Some x) table ->
  Alias.alias_get table (x :: t) = None.
Proof.
  unfold Alias.alias_get. induction 1 as [|[k v] l H _ IH]; simpl.
  - reflexivity.
  - unfold str_eqb at 1. simpl in H.
    destruct (bool_decide_reflect (k = x :: t)) as [->|_]; [now elim H|].
    exact IH.
Qed.

Section Table.

Variable KEY_ALIAS : list (str * string).
Variable LEADING : regex.
Variable BULLET_PREFIXES : list str.

(** No alias starts with ※, and the leading marker is anchored and is
    not ※. *)
Hypothesis alias_heads : Forall (fun e => head (fst e) <> Some REF) KEY_ALIAS.
Hypothesis leading_anchored : exists a, LEADING = Cat Bos a.
Hypothesis leading_head : nullable LEADING = false /\ first LEADING REF = false.

Lemma alias_get_ref t : Alias.alias_get KEY_ALIAS (REF :: t) = None.
Proof. apply alias_get_head, alias_heads. Qed.

Lemma sub_from_anchored (a : regex) (repl : str) : forall fuel pos s,
  sub_from (Cat Bos a) repl fuel (S pos) s = s.
Proof.
  induction fuel as [|f IH]; intros pos s; [reflexivity|].
  destruct s as [|x s']; [reflexivity|]. cbn [sub_from].
  unfold match_at. rewrite mt_cat. cbn [mt Nat.eqb]. now rewrite IH.
Qed.

Lemma leading_ref r : Re.sub LEADING [] (REF :: r) = REF :: r.
Proof.
  unfold Re.sub. cbn [length sub_from].
  destruct (match_at LEADING 0 (REF :: r)) as [[e c]|] eqn:E.
  - apply match_at_first in E as (y & t & Hy & Fy); [|apply leading_head].
    injection Hy as <- <-. destruct leading_head as [_ F]. congruence.
  - destruct leading_anchored as [a ->]. now rewrite sub_from_anchored.
Qed.

Lemma key_value_ref r : Alias.key_value KEY_ALIAS (REF :: r) = None.
Proof.
  unfold Alias.key_value.
  destruct (rmatch Alias.KEY_VALUE_PAT (REF :: r)) as [[e g]|] eqn:E;
    [|reflexivity].
  destruct (key_value_group REF r e g eq_refl E) as [t ->].
  destruct (strip_cons_head REF t eq_refl) as [t' ->].
  now rewrite normalize_key_ref, alias_get_ref.
Qed.

Lemma scan_ref r : Alias.scan KEY_ALIAS (REF :: r) = None.
Proof.
  unfold Alias.scan, words. cbn [words_from].
  change (isspace REF) with false. cbv iota. cbn [is_nil app].
  destruct (words_from_cur r [REF]) as (w & ws & ->); [discriminate|].
  generalize (length (([REF] ++ w) :: ws)). intros i.
  induction i as [|i IH]; [reflexivity|]. cbn [Alias.scan_from take].
  destruct (join_head [SP] ([REF] ++ w) (take i ws)) as [t ->].
  cbn [app]. now rewrite normalize_key_ref, alias_get_ref.
Qed.

(** A line whose text starts with ※ is appended whole to the open
    section, or to [content]. *)
Lemma step_ref (st : Alias.acc) (raw r : str) :
  strip (remove ZERO_WIDTH raw) = REF :: r ->
  Alias.step KEY_ALIAS LEADING BULLET_PREFIXES st raw
  = Alias.Acc
      (Alias.append_field (Alias.fields st)
         (default "content"%string (Alias.section (Alias.current_section st)))
         (REF :: r))
      (Alias.current_section st).
Proof.
  intros E. unfold Alias.step. rewrite E. cbn [is_nil].
  rewrite leading_ref, key_value_ref, scan_ref.
  destruct (_ || _); reflexivity.
Qed.

End Table.

End ReferenceLines.

(** X1: in pr-1.py and in pr-2.py a detail line whose text begins with ※
    is never taken for a key line: it is appended whole to the section that is
    open, or to [content] when none is. *)
Theorem alias_reference_line_is_appended :
  forall (st : Alias.acc) (raw r : str),
    strip (remove ZERO_WIDTH raw) = U "※" ++ r ->
    let target :=
      default "content"%string (Alias.section (Alias.current_section st)) in
    Pr1.step st raw
    = Alias.Acc (Alias.append_field (Alias.fields st) target (U "※" ++ r))
                (Alias.current_section st)
    /\ Pr2.step st raw
       = Alias.Acc (Alias.append_field (Alias.fields st) target (U "※" ++ r))
                   (Alias.current_section st).
Proof.
  intros st raw r E target. split; apply step_ref; try exact E;
    try (exists (seq [chr 0x3147; star ws]); reflexivity);
    try (exists (seq [oneof (U "ㅇ○"); star ws]); reflexivity);
    try (split; reflexivity);
    repeat constructor; vm_compute; discriminate.
Qed.

Lemma alias_reference_line_is_appended_witness :
  Pr2.step (Alias.Acc ∅ (Some "target"%string)) (U "※ 문의 : 02-123")
  = Alias.Acc (Alias.append_field ∅ "target" (U "※ 문의 : 02-123"))
              (Some "target"%string).
Proof.
  exact (proj2 (alias_reference_line_is_appended
                  (Alias.Acc ∅ (Some "target"%string)) (U "※ 문의 : 02-123")
                  (U " 문의 : 02-123") eq_refl)).
Defined.

(** X2: canonical text is a fixed point of [_canon_text], and
    [_canon_text] gives canonical text: no zero-width mark, no-break or ideographic
    space or tab, no two blanks in a row, no whitespace next to a line
    break, no whitespace at either end. *)
Theorem canonical_text_is_fixed :
  forall s : str,
    canonical s ->
    Frame._canon_text (Some s) = s
    /\ forall x : option str, canonical (Frame._canon_text x).
Proof.
  intros s H. split; [now apply canon_text_fixed|apply canon_text_canonical].
Qed.

Lemma canonical_text_is_fixed_witness :
  Frame._canon_text (Some (U "a b")) = U "a b".
Proof.
  exact (proj1 (canonical_text_is_fixed (U "a b")
                  (canon_text_canonical (Some (U "a b"))))).
Defined.

(** ** How appended values accumulate *)

Section Accumulation.

Definition SEP : str := U " / ".

Lemma append_field_other (f : gmap string str) (k k' : string) (v : str) :
  k <> k' -> Alias.append_field f k v !! k' = f !! k'.
Proof.
  intros H. unfold Alias.append_field.
  destruct (is_nil v); [reflexivity|].
  destruct (f !! k) as [[|c old]|]; now rewrite lookup_insert_ne.
Qed.

Lemma append_field_lookup (f : gmap string str) (k : string) (x : N) (v : str) :
  Alias.append_field f k (x :: v) !! k
  = Some (match f !! k with
          | Some (c :: old) => (c :: old) ++ SEP ++ x :: v
          | _ => x :: v
          end).
Proof.
  unfold Alias.append_field. cbn [is_nil].
  destruct (f !! k) as [[|c old]|]; now rewrite lookup_insert_eq.
Qed.

(** The value under [k] after the values [vs] were appended to it. *)
Definition appended_to (old : option str) (vs : list str) : option str :=
  match or_else old [] , List.filter (fun v => negb (is_nil v)) vs with
  | [], [] => old
  | [], l => Some (join SEP l)
  | o, l => Some (join SEP (o :: l))
  end.

Lemma fold_append_lookup (k : string) (vs : list str) : forall f,
  fold_left (fun f v => Alias.append_field f k v) vs f !! k
  = appended_to (f !! k) vs.
Proof.
  induction vs as [|v vs IH]; intros f.
  - simpl. unfold appended_to. simpl.
    destruct (f !! k) as [[|c old]|]; reflexivity.
  - cbn [fold_left]. rewrite IH. destruct v as [|x v].
    + reflexivity.
    + rewrite append_field_lookup. unfold appended_to. cbn [List.filter is_nil negb].
      destruct (f !! k) as [[|c old]|]; cbn [or_else].
      * destruct (List.filter _ vs); reflexivity.
      * destruct (List.filter _ vs) as [|w ws].
        -- reflexivity.
        -- cbn [join app]. f_equal. f_equal. now rewrite <- !app_assoc.
      * destruct (List.filter _ vs); reflexivity.
Qed.

Lemma fold_append_other (k k' : string) (vs : list str) : forall f,
  k <> k' ->
  fold_left (fun f v => Alias.append_field f k v) vs f !! k' = f !! k'.
Proof.
  induction vs as [|v vs IH]; intros f H; [reflexivity|].
  cbn [fold_left]. rewrite IH by exact H. now apply append_field_other.
Qed.

End Accumulation.

(** X6: [append_field] of pr-1.py and pr-2.py composes.  The values that
    are appended to one key of an empty mapping are stored joined by
    [" / "], in the order of the calls, the empty ones left out; when all
    are empty the key is not created; when the key held a non-empty value
    before, that value comes first; and no other key is touched. *)
Theorem appended_values_are_joined :
  forall (k : string) (vs : list str),
    let kept := List.filter (fun v => negb (is_nil v)) vs in
    fold_left (fun f v => Pr1.append_field f k v) vs ∅ !! k
    = match kept with
      | [] => None
      | _ :: _ => Some (join (U " / ") kept)
      end
    /\ (forall (f : gmap string str) (c : N) (old : str),
          f !! k = Some (c :: old) ->
          fold_left (fun f v => Pr2.append_field f k v) vs f !! k
          = Some (join (U " / ") ((c :: old) :: kept)))
    /\ (forall (f : gmap string str) (k' : string),
          k <> k' ->
          fold_left (fun f v => Pr1.append_field f k v) vs f !! k' = f !! k').
Proof.
  intros k vs kept. split; [|split].
  - unfold Pr1.append_field. rewrite fold_append_lookup, lookup_empty.
    unfold appended_to. fold kept. cbn [or_else].
    now destruct kept.
  - intros f c old H. unfold Pr2.append_field.
    rewrite fold_append_lookup, H. unfold appended_to. fold kept.
    cbn [or_else]. reflexivity.
  - intros f k' H. now apply fold_append_other.
Qed.

Lemma appended_values_are_joined_witness :
  fold_left (fun f v => Pr2.append_field f "contact" v)
            [U "02-123"; []; U "평일 9-18시"]
            (<["contact"%string := U "복지과"]> ∅) !! "contact"%string
  = Some (U "복지과 / 02-123 / 평일 9-18시").
Proof.
  refine (proj1 (proj2 (appended_values_are_joined "contact"
                          [U "02-123"; []; U "평일 9-18시"]))
            (<["contact"%string := U "복지과"]> ∅) 0xBCF5 (U "지과") _).
  vm_compute. reflexivity.
Defined.

(** ** Values stored by the accumulator of junggu.py *)

Section Trimmed.

Import Junggu.

(** No character of [" /"] at either end. *)
Definition trimmed (v : str) : Prop :=
  (forall c r, v = c :: r -> sep_char c = false)
  /\ (forall r c, v = r ++ [c] -> sep_char c = false).

Lemma trimmed_nil : trimmed [].
Proof.
  split; intros a b H; [discriminate|].
  destruct a; discriminate.
Qed.

Lemma strip_chars_trimmed (s : str) : trimmed (strip_chars (U " /") s).
Proof.
  unfold strip_chars. fold sep_char. split.
  - intros c r H. exact (dropwhile_head _ _ _ _ H).
  - intros r c H.
    destruct (dropwhile_suffix sep_char (rdropwhile sep_char s)) as (pre & E).
    rewrite H, app_assoc in E.
    exact (rdropwhile_last _ _ _ _ E).
Qed.

Lemma trimmed_fixed (v : str) : trimmed v -> strip_chars (U " /") v = v.
Proof.
  intros [Hh Hl]. unfold strip_chars. fold sep_char.
  destruct v as [|c r]; [reflexivity|].
  destruct (exists_last (l := c :: r)) as (m & d & E); [discriminate|].
  rewrite E. rewrite rdropwhile_id by (eapply Hl; exact E).
  rewrite <- E. apply dropwhile_id. now apply (Hh c r).
Qed.

Definition all_trimmed (f : gmap string str) : Prop :=
  forall k v, f !! k = Some v -> trimmed v.

Lemma insert_joined_trimmed (f : gmap string str) (k : string) (v : str) :
  all_trimmed f -> all_trimmed (<[k := joined f k v]> f).
Proof.
  intros H k' v' E. destruct (decide (k = k')) as [->|Hne].
  - rewrite lookup_insert_eq in E. injection E as <-. apply strip_chars_trimmed.
  - rewrite lookup_insert_ne in E by assumption. now apply (H k').
Qed.

Lemma step_trimmed (st : acc) (raw : str) :
  all_trimmed (fields st) -> all_trimmed (fields (step st raw)).
Proof.
  intros H. unfold step.
  destruct (line_text raw) as [text|]; [|exact H].
  destruct (section (locked_section st)) as [locked|].
  - destruct (locked_candidate text) as [k|].
    + destruct (negb _); cbn [fields]; now apply insert_joined_trimmed.
    + cbn [fields]. now apply insert_joined_trimmed.
  - destruct (classify _) as [[mapped [v|]]|]; cbn [fields];
      [now apply insert_joined_trimmed|exact H|now apply insert_joined_trimmed].
Qed.

Lemma run_trimmed (lines : list str) : forall st,
  all_trimmed (fields st) -> all_trimmed (fields (run st lines)).
Proof.
  induction lines as [|raw lines IH]; intros st H; [exact H|].
  apply IH, step_trimmed, H.
Qed.

Lemma get_trimmed (f : gmap string str) (k : string) :
  all_trimmed f -> trimmed (get f k).
Proof.
  intros H. unfold get. destruct (f !! k) as [v|] eqn:E; simpl.
  - now apply (H k).
  - apply trimmed_nil.
Qed.

End Trimmed.

(** X11: in every record of junggu.py the six classified fields have no
    blank and no slash at either end, and stripping them again changes
    nothing. *)
Theorem classified_fields_are_trimmed :
  forall (url : str) (it : item) (v : str),
    In v [Junggu.target (Junggu.build_record url it);
          Junggu.period (Junggu.build_record url it);
          Junggu.content (Junggu.build_record url it);
          Junggu.method (Junggu.build_record url it);
          Junggu.contact (Junggu.build_record url it);
          Junggu.location (Junggu.build_record url it)] ->
    (forall c r, v = c :: r -> c <> SP /\ c <> 47)
    /\ (forall r c, v = r ++ [c] -> c <> SP /\ c <> 47)
    /\ strip_chars (U " /") v = v.
Proof.
  intros url it v Hin.
  assert (trimmed v) as T.
  { assert (all_trimmed (Junggu.parse_detail_lines_to_fields (detail_lines it)))
      as A.
    { apply run_trimmed. intros k w E. unfold Junggu.init in E.
      cbn [Junggu.fields] in E. rewrite lookup_empty in E. discriminate. }
    cbn [Junggu.build_record Junggu.target Junggu.period Junggu.content
         Junggu.method Junggu.contact Junggu.location] in Hin.
    simpl In in Hin.
    destruct Hin as [<-|[<-|[<-|[<-|[<-|[<-|[]]]]]]]; now apply get_trimmed. }
  assert (forall c, sep_char c = false -> c <> SP /\ c <> 47) as S.
  { intros c Hc. split; intros ->; discriminate Hc. }
  destruct T as [Hh Hl]. split; [|split].
  - intros c r E. apply S, (Hh c r E).
  - intros r c E. apply S, (Hl r c E).
  - apply trimmed_fixed. now split.
Qed.

Lemma classified_fields_are_trimmed_witness :
  Junggu.content (Junggu.build_record [] (Item (U "A") [U "/ 다국어 안내문 /"]))
  = U "다국어 안내문"
  /\ strip_chars (U " /") (U "다국어 안내문") = U "다국어 안내문".
Proof.
  split; [vm_compute; reflexivity|].
  refine (proj2 (proj2 (classified_fields_are_trimmed []
            (Item (U "A") [U "/ 다국어 안내문 /"]) (U "다국어 안내문") _))).
  vm_compute. right. right. left. reflexivity.
Defined.

(** ** The keys of the accumulated mapping *)

Section KeyRange.

(** The keys that [build_records] of junggu.py reads. *)
Definition junggu_columns : list string :=
  ["target"; "period"; "content"; "method"; "contact"; "location"]%string.

(** The keys that [build_records] of pr-1.py and of pr-2.py read. *)
Definition alias_columns : list string :=
  ["target"; "application_period"; "content"; "application_method"; "contact";
   "notes"; "purchase_method"; "location"]%string.

Definition keys_within (cols : list string) (f : gmap string str) : Prop :=
  forall k, is_Some (f !! k) -> In k cols.

Definition section_within (cols : list string) (x : option string) : Prop :=
  forall k, x = Some k -> k = ""%string \/ In k cols.

Lemma keys_within_empty cols : keys_within cols ∅.
Proof. intros k [v H]. rewrite lookup_empty in H. discriminate. Qed.

Lemma keys_within_insert cols (f : gmap string str) (k : string) (v : str) :
  In k cols -> keys_within cols f -> keys_within cols (<[k := v]> f).
Proof.
  intros Hk H k' S. destruct (decide (k = k')) as [<-|Hne]; [exact Hk|].
  rewrite lookup_insert_ne in S by assumption. now apply H.
Qed.

Lemma auto_map_key_range (pre_norm : str) (k : string) :
  Junggu.auto_map_key pre_norm = Some k -> In k junggu_columns.
Proof.
  unfold Junggu.auto_map_key.
  repeat (destruct (Junggu.any_in _ _);
          [intros [= <-]; cbn [In junggu_columns]; tauto|]).
  discriminate.
Qed.

Lemma junggu_section_range (pre_norm : str) (k : string) :
  Junggu.section (Junggu.auto_map_key pre_norm) = Some k -> In k junggu_columns.
Proof.
  destruct (Junggu.auto_map_key pre_norm) as [m|] eqn:E; [|discriminate].
  simpl. destruct (String.eqb m ""); [discriminate|].
  intros [= <-]. eapply auto_map_key_range, E.
Qed.

Lemma classify_range (stripped : str) (k : string) (v : option str) :
  Junggu.classify stripped = Some (k, v) -> In k junggu_columns.
Proof.
  unfold Junggu.classify.
  destruct (existsb colon stripped).
  - destruct (Junggu.section (Junggu.auto_map_key
                (Junggu.normalize_key (before colon stripped)))) as [m|] eqn:E1.
    + intros [= <- _]. eapply junggu_section_range, E1.
    + destruct (rmatch Junggu.DASH stripped) as [[e g]|].
      * destruct (Junggu.section (Junggu.auto_map_key
                    (Junggu.normalize_key (group 1 g stripped)))) as [m|] eqn:E2.
        -- intros [= <- _]. eapply junggu_section_range, E2.
        -- destruct (Junggu.section (Junggu.auto_map_key
                       (Junggu.normalize_key stripped))) as [m|] eqn:E3;
             [|discriminate].
           intros [= <- _]. eapply junggu_section_range, E3.
      * destruct (Junggu.section (Junggu.auto_map_key
                    (Junggu.normalize_key stripped))) as [m|] eqn:E3;
          [|discriminate].
        intros [= <- _]. eapply junggu_section_range, E3.
  - destruct (rmatch Junggu.DASH stripped) as [[e g]|].
    + destruct (Junggu.section (Junggu.auto_map_key
                  (Junggu.normalize_key (group 1 g stripped)))) as [m|] eqn:E2.
      * intros [= <- _]. eapply junggu_section_range, E2.
      * destruct (Junggu.section (Junggu.auto_map_key
                    (Junggu.normalize_key stripped))) as [m|] eqn:E3;
          [|discriminate].
        intros [= <- _]. eapply junggu_section_range, E3.
    + destruct (Junggu.section (Junggu.auto_map_key
                  (Junggu.normalize_key stripped))) as [m|] eqn:E3;
        [|discriminate].
      intros [= <- _]. eapply junggu_section_range, E3.
Qed.

Lemma section_some_within cols x k :
  section_within cols x -> Junggu.section x = Some k -> In k cols.
Proof.
  intros H. destruct x as [m|]; [|discriminate]. simpl.
  destruct (String.eqb_spec m ""); [discriminate|].
  intros [= <-]. destruct (H m eq_refl); [contradiction|assumption].
Qed.

Definition junggu_ok (st : Junggu.acc) : Prop :=
  keys_within junggu_columns (Junggu.fields st)
  /\ section_within junggu_columns (Junggu.current_section st)
  /\ section_within junggu_columns (Junggu.locked_section st).

Lemma lock_of_within mapped locked :
  section_within junggu_columns locked ->
  section_within junggu_columns (Junggu.lock_of mapped locked).
Proof.
  intros H. unfold Junggu.lock_of.
  destruct (String.eqb mapped "method"); [|exact H].
  intros k [= <-]. right. simpl. tauto.
Qed.

Lemma junggu_step_ok (st : Junggu.acc) (raw : str) :
  junggu_ok st -> junggu_ok (Junggu.step st raw).
Proof.
  intros (F & C & L). unfold Junggu.step.
  destruct (Junggu.line_text raw) as [text|]; [|now repeat split].
  destruct (Junggu.section (Junggu.locked_section st)) as [locked|] eqn:EL.
  - pose proof (section_some_within _ _ _ L EL) as Hl.
    assert (junggu_ok
              (Junggu.Acc (<[locked := Junggu.joined (Junggu.fields st) locked text]>
                             (Junggu.fields st))
                          (Junggu.current_section st) (Junggu.locked_section st)))
      as Stay.
    { repeat split; cbn [Junggu.fields Junggu.current_section Junggu.locked_section]; [now apply keys_within_insert|exact C|exact L]. }
    destruct (Junggu.locked_candidate text) as [k|] eqn:EK; [|exact Stay].
    destruct (negb _); [|exact Stay].
    pose proof (junggu_section_range _ _ EK) as Hk.
    repeat split; cbn [Junggu.fields Junggu.current_section Junggu.locked_section].
    + now apply keys_within_insert.
    + intros k' [= <-]. now right.
    + intros k' [=].
  - destruct (Junggu.classify _) as [[mapped [v|]]|] eqn:EC.
    + pose proof (classify_range _ _ _ EC) as Hm.
      repeat split; cbn [Junggu.fields Junggu.current_section Junggu.locked_section].
      * now apply keys_within_insert.
      * intros k' [= <-]. now right.
      * now apply lock_of_within.
    + pose proof (classify_range _ _ _ EC) as Hm.
      repeat split; cbn [Junggu.fields Junggu.current_section Junggu.locked_section].
      * exact F.
      * intros k' [= <-]. now right.
      * now apply lock_of_within.
    + repeat split; cbn [Junggu.fields Junggu.current_section Junggu.locked_section]; [|exact C|exact L].
      apply keys_within_insert; [|exact F].
      destruct (Junggu.section (Junggu.current_section st)) as [k|] eqn:ES.
      * exact (section_some_within _ _ _ C ES).
      * simpl. tauto.
Qed.

Lemma junggu_run_ok (lines : list str) : forall st,
  junggu_ok st -> junggu_ok (Junggu.run st lines).
Proof.
  induction lines as [|raw lines IH]; intros st H; [exact H|].
  apply IH, junggu_step_ok, H.
Qed.

(** The alias tables *)

Variable KEY_ALIAS : list (str * string).
Variable LEADING : regex.
Variable BULLET_PREFIXES : list str.

Hypothesis table_range : Forall (fun e => In (snd e) alias_columns) KEY_ALIAS.

Lemma alias_get_range (k : str) (m : string) :
  Alias.alias_get KEY_ALIAS k = Some m -> In m alias_columns.
Proof.
  unfold Alias.alias_get.
  destruct (List.find _ KEY_ALIAS) as [[a b]|] eqn:E; [|discriminate].
  intros [= <-]. apply find_some in E as [E _].
  rewrite Forall_forall in table_range.
  apply list_elem_of_In in E. exact (table_range _ E).
Qed.

Lemma key_value_range (h : str) (m : string) (v : str) :
  Alias.key_value KEY_ALIAS h = Some (m, v) -> In m alias_columns.
Proof.
  unfold Alias.key_value.
  destruct (rmatch Alias.KEY_VALUE_PAT h) as [[e g]|]; [|discriminate].
  destruct (Alias.alias_get KEY_ALIAS _) as [a|] eqn:E; [|discriminate].
  simpl. destruct (String.eqb a ""); [discriminate|].
  intros [= <- _]. eapply alias_get_range, E.
Qed.

Lemma scan_from_range (i : nat) (ws : list str) (h : str) (m : string) (v : str) :
  Alias.scan_from KEY_ALIAS i ws h = Some (m, v) -> In m alias_columns.
Proof.
  induction i as [|i IH]; [discriminate|]. cbn [Alias.scan_from].
  destruct (Alias.alias_get KEY_ALIAS _) as [a|] eqn:E; [|exact IH].
  intros [= <- _]. eapply alias_get_range, E.
Qed.

Definition alias_ok (st : Alias.acc) : Prop :=
  keys_within alias_columns (Alias.fields st)
  /\ section_within alias_columns (Alias.current_section st).

Lemma keys_within_append (f : gmap string str) (k : string) (v : str) :
  In k alias_columns -> keys_within alias_columns f ->
  keys_within alias_columns (Alias.append_field f k v).
Proof.
  intros Hk H. unfold Alias.append_field.
  destruct (is_nil v); [exact H|].
  destruct (f !! k) as [[|c old]|]; now apply keys_within_insert.
Qed.

Lemma alias_step_ok (st : Alias.acc) (raw : str) :
  alias_ok st -> alias_ok (Alias.step KEY_ALIAS LEADING BULLET_PREFIXES st raw).
Proof.
  intros (F & C). unfold Alias.step.
  destruct (is_nil _); [now split|].
  destruct (Alias.key_value _ _) as [[k v]|] eqn:EK.
  { pose proof (key_value_range _ _ _ EK) as Hk. split; cbn [Alias.fields Alias.current_section].
    - now apply keys_within_append.
    - intros k' [= <-]. now right. }
  destruct (Alias.scan _ _) as [[k rest]|] eqn:ES.
  { pose proof (scan_from_range _ _ _ _ _ ES) as Hk. split; cbn [Alias.fields Alias.current_section].
    - destruct (is_nil rest); [exact F|now apply keys_within_append].
    - intros k' [= <-]. now right. }
  assert (In (default "content"%string (Alias.section (Alias.current_section st)))
             alias_columns) as Ht.
  { destruct (Alias.current_section st) as [m|] eqn:E; [|simpl; tauto].
    simpl. destruct (String.eqb_spec m ""); [simpl; tauto|]. simpl.
    destruct (C m eq_refl); [contradiction|assumption]. }
  destruct (_ || _); (split; cbn [Alias.fields Alias.current_section]; [now apply keys_within_append|exact C]).
Qed.

Lemma alias_run_ok (lines : list str) : forall st,
  alias_ok st -> alias_ok (Alias.run KEY_ALIAS LEADING BULLET_PREFIXES st lines).
Proof.
  induction lines as [|raw lines IH]; intros st H; [exact H|].
  apply IH, alias_step_ok, H.
Qed.

End KeyRange.

Lemma pr1_table_range : Forall (fun e => In (snd e) alias_columns) Pr1.KEY_ALIAS.
Proof.
  unfold Pr1.KEY_ALIAS, alias_columns.
  repeat (constructor; [cbn [snd In]; tauto|]). constructor.
Qed.

Lemma pr2_table_range : Forall (fun e => In (snd e) alias_columns) Pr2.KEY_ALIAS.
Proof.
  unfold Pr2.KEY_ALIAS, alias_columns.
  repeat (constructor; [cbn [snd In]; tauto|]). constructor.
Qed.

(** X8: every key of the mapping that [parse_detail_lines_to_fields] returns
    is a column that [build_records] reads, in junggu.py (six columns) and
    in pr-1.py and pr-2.py (eight columns): no accumulated text is left
    behind under a key that no record shows. *)
Theorem accumulated_keys_are_columns :
  forall (lines : list str) (k : string),
    (is_Some (Junggu.parse_detail_lines_to_fields lines !! k) ->
     In k ["target"; "period"; "content"; "method"; "contact";
           "location"]%string)
    /\ (is_Some (Pr1.parse_detail_lines_to_fields lines !! k) ->
        In k ["target"; "application_period"; "content"; "application_method";
              "contact"; "notes"; "purchase_method"; "location"]%string)
    /\ (is_Some (Pr2.parse_detail_lines_to_fields lines !! k) ->
        In k ["target"; "application_period"; "content"; "application_method";
              "contact"; "notes"; "purchase_method"; "location"]%string).
Proof.
  intros lines k. split; [|split].
  - apply (junggu_run_ok lines Junggu.init).
    repeat split; [apply keys_within_empty|intros ? [=]|intros ? [=]].
  - apply (alias_run_ok _ _ _ pr1_table_range lines Alias.init).
    split; [apply keys_within_empty|intros ? [=]].
  - apply (alias_run_ok _ _ _ pr2_table_range lines Alias.init).
    split; [apply keys_within_empty|intros ? [=]].
Qed.

Lemma accumulated_keys_are_columns_witness :
  Pr1.parse_detail_lines_to_fields [U "ㅇ 비고 : 무료"] !! "notes"%string
  = Some (U "무료")
  /\ In "notes"%string
        ["target"; "application_period"; "content"; "application_method";
         "contact"; "notes"; "purchase_method"; "location"]%string.
Proof.
  assert (Pr1.parse_detail_lines_to_fields [U "ㅇ 비고 : 무료"] !! "notes"%string
          = Some (U "무료")) as H by (vm_compute; reflexivity).
  split; [exact H|].
  apply (proj1 (proj2 (accumulated_keys_are_columns [U "ㅇ 비고 : 무료"] "notes"))).
  rewrite H. eexists. reflexivity.
Defined.

(** ** Lines of a text *)

Section Lines.

Implicit Types (s t ln cur : str) (ls : list str).

(** No character at which [splitlines] breaks. *)
Definition no_break (s : str) : Prop :=
  Forall (fun c => is_linebreak c = false) s.

Lemma no_break_cr (c : N) : is_linebreak c = false -> (c =? CR) = false.
Proof.
  intros H. destruct (N.eqb_spec c CR) as [->|]; [discriminate H|reflexivity].
Qed.

Lemma splitlines_from_no_break (n : nat) : forall s cur,
  (length s <= n)%nat -> no_break cur -> Forall no_break (splitlines_from cur s).
Proof.
  induction n as [|n IH]; intros s cur L H.
  - destruct s; [|simpl in L; lia]. cbn [splitlines_from].
    destruct (is_nil cur); repeat constructor. exact H.
  - destruct s as [|c r]; cbn [splitlines_from].
    + destruct (is_nil cur); repeat constructor. exact H.
    + simpl in L.
      assert (Forall no_break (cur :: splitlines_from [] r)) as Cut.
      { constructor; [exact H|]. apply IH; [lia|constructor]. }
      destruct (c =? CR).
      * destruct r as [|c' r']; [exact Cut|].
        destruct (c' =? LF); [|exact Cut].
        constructor; [exact H|]. apply IH; [simpl in L; lia|constructor].
      * destruct (is_linebreak c) eqn:E; [exact Cut|].
        apply IH; [lia|]. apply Forall_app. split; [exact H|].
        now repeat constructor.
Qed.

Lemma strip_sub (P : N -> Prop) s : Forall P s -> Forall P (strip s).
Proof.
  intros F. destruct (strip_split s) as (lead & tail & E & _ & _).
  rewrite E in F. apply Forall_app in F as [_ F].
  now apply Forall_app in F as [F _].
Qed.

(** A line as [split_items] sees it: stripped, not empty, without a line
    break. *)
Definition line (ln : str) : Prop := clean_line ln /\ no_break ln.

Lemma stripped_lines_line (text : str) : Forall line (stripped_lines text).
Proof.
  pose proof (splitlines_from_no_break (length text) text [] (le_n _))
    as B. specialize (B ltac:(constructor)). fold (splitlines text) in B.
  unfold stripped_lines. induction B as [|l ls Hl _ IH]; simpl; [constructor|].
  destruct (strip l) as [|c r] eqn:E; simpl; [exact IH|].
  constructor; [|exact IH]. rewrite <- E. split.
  - split; [apply strip_tidy|rewrite E; discriminate].
  - now apply strip_sub.
Qed.

Lemma splitlines_from_line l : forall cur rest,
  no_break l ->
  splitlines_from cur (l ++ LF :: rest) = (cur ++ l) :: splitlines_from [] rest.
Proof.
  induction l as [|c l IH]; intros cur rest H.
  - rewrite app_nil_r. reflexivity.
  - inversion H as [|? ? Hc Hl]; subst.
    cbn [app splitlines_from]. rewrite (no_break_cr c Hc), Hc.
    rewrite IH by exact Hl. now rewrite <- app_assoc.
Qed.

Lemma splitlines_from_last l : forall cur,
  no_break l -> cur ++ l <> [] -> splitlines_from cur l = [cur ++ l].
Proof.
  induction l as [|c l IH]; intros cur H N.
  - rewrite app_nil_r in *. cbn [splitlines_from].
    destruct cur; [contradiction|reflexivity].
  - inversion H as [|? ? Hc Hl]; subst.
    cbn [splitlines_from]. rewrite (no_break_cr c Hc), Hc.
    rewrite IH; [now rewrite <- app_assoc|exact Hl|].
    destruct cur; discriminate.
Qed.

Lemma splitlines_join ls :
  Forall line ls -> splitlines (join [LF] ls) = ls.
Proof.
  induction 1 as [|l ls [[_ N] B] _ IH]; [reflexivity|].
  cbn [join]. destruct ls as [|l' ls'].
  - unfold splitlines. now rewrite splitlines_from_last.
  - unfold splitlines in *. cbn [app].
    rewrite splitlines_from_line by exact B. now rewrite IH.
Qed.

(** A text that is made of lines is split into these lines again. *)
Lemma stripped_lines_join ls :
  Forall line ls -> stripped_lines (text_of ls) = ls.
Proof.
  intros H. unfold stripped_lines, text_of. rewrite (splitlines_join ls H).
  apply clean_lines_kept. eapply Forall_impl; [exact H|]. now intros l [C _].
Qed.

Lemma join_app (sep : str) (a b : list str) :
  a <> [] -> b <> [] -> join sep (a ++ b) = join sep a ++ sep ++ join sep b.
Proof.
  induction a as [|x a IH]; intros Na Nb; [contradiction|].
  destruct a as [|y a].
  - destruct b; [contradiction|reflexivity].
  - change (join sep ((x :: y :: a) ++ b))
      with (x ++ sep ++ join sep ((y :: a) ++ b)).
    rewrite IH by (discriminate || assumption).
    change (join sep (x :: y :: a)) with (x ++ sep ++ join sep (y :: a)).
    now rewrite <- !app_assoc.
Qed.

Lemma text_of_cons (x : str) (l : list str) :
  l <> [] -> text_of (x :: l) = x ++ [LF] ++ text_of l.
Proof. destruct l; [contradiction|reflexivity]. Qed.

Lemma text_of_app (a b : list str) :
  a <> [] -> b <> [] -> text_of (a ++ b) = text_of a ++ [LF] ++ text_of b.
Proof. apply join_app. Qed.

Lemma text_of_concat (bs : list (list str)) :
  Forall (fun b => b <> []) bs ->
  text_of (map text_of bs) = text_of (concat bs)
  /\ (bs <> [] -> concat bs <> []).
Proof.
  induction 1 as [|b bs Nb _ [IH IN]].
  - split; [reflexivity|intros H; contradiction].
  - split; [|intros _; destruct b; [contradiction|discriminate]].
    cbn [map concat]. destruct bs as [|b' bs'].
    + simpl. now rewrite app_nil_r.
    + rewrite text_of_cons by discriminate.
      rewrite text_of_app; [|exact Nb|apply IN; discriminate].
      now rewrite IH.
Qed.

End Lines.

(** ** The items of junggu.py *)

Section JungguItems.

Import Junggu.

Implicit Types (t ln : str) (st : seg) (it : item).

(** A title as a boundary line gives it. *)
Definition heading (t : str) : Prop :=
  tidy t /\ no_break t /\ forall c r, t = c :: r -> marker_or_space c = false.

(** A line of the body of an item. *)
Definition body_line (ln : str) : Prop :=
  line ln /\ startswith_any drop_tokens ln = false /\ is_boundary ln = false.

Definition good_item (it : item) : Prop :=
  heading (item_title it) /\ item_title it <> []
  /\ Forall body_line (detail_lines it) /\ detail_lines it <> [].

Definition good_seg (st : seg) : Prop :=
  Forall good_item (items st)
  /\ (forall t, current_title st = Some t -> heading t)
  /\ Forall body_line (current_details st).

Lemma title_of_heading ln : no_break ln -> heading (title_of ln).
Proof.
  intros B. unfold title_of. fold marker_or_space.
  destruct (dropwhile_suffix marker_or_space ln) as [pre E].
  assert (no_break (dropwhile marker_or_space ln)) as Bd.
  { unfold no_break in *. rewrite E in B. now apply Forall_app in B as [_ B]. }
  split; [apply strip_tidy|]. split; [now apply strip_sub|].
  intros c r H.
  destruct (dropwhile marker_or_space ln) as [|x y] eqn:D; [discriminate H|].
  pose proof (dropwhile_head _ _ _ _ D) as Hx.
  assert (isspace x = false) as Sx.
  { unfold marker_or_space in Hx. now apply orb_false_iff in Hx as [_ Hx]. }
  unfold strip, lstrip, rstrip in H.
  destruct (rdropwhile_cons_keep isspace x y Sx) as [r' Hr].
  rewrite Hr, dropwhile_id in H by exact Sx. now injection H as <- _.
Qed.

Lemma marker_line_starts t : startswith (U "▶") (U "▶ " ++ t) = true.
Proof. reflexivity. Qed.

Lemma title_of_marked t : heading t -> title_of (U "▶ " ++ t) = t.
Proof.
  intros (T & _ & H). unfold title_of. fold marker_or_space.
  change (U "▶ " ++ t) with (0x25B6 :: SP :: t).
  change (dropwhile marker_or_space (0x25B6 :: SP :: t))
    with (dropwhile marker_or_space t).
  destruct t as [|c r]; [reflexivity|].
  rewrite dropwhile_id by (now apply (H c r)). exact T.
Qed.

Lemma flush_good st : good_seg st -> good_seg (flush_if_has_details st).
Proof.
  intros (I & T & D). unfold flush_if_has_details.
  split; [|split]; cbn [items current_title current_details];
    [|discriminate|constructor].
  destruct (current_title st) as [[|c t]|] eqn:E; try exact I.
  destruct (current_details st) as [|d ds] eqn:F; [exact I|].
  apply Forall_app. split; [exact I|]. constructor; [|constructor].
  pose proof (T _ eq_refl) as (Tt & Bt & Ht).
  unfold good_item. cbn [item_title detail_lines]. rewrite Tt.
  repeat split; try assumption; discriminate.
Qed.

Lemma seg_step_good fallback_title st ln :
  line ln -> good_seg st -> good_seg (seg_step fallback_title st ln).
Proof.
  intros L H. unfold seg_step.
  destruct (startswith_any drop_tokens ln) eqn:D; [exact H|].
  destruct (is_boundary ln) eqn:B.
  - destruct (flush_good st H) as (I & _ & _).
    split; [|split]; cbn [items current_title current_details];
      [exact I| |constructor].
    intros t [= <-]. apply title_of_heading, L.
  - destruct (_ && _); [exact H|].
    destruct (truthy (current_title st)); [|exact H].
    destruct H as (I & T & Ds).
    split; [|split]; cbn [items current_title current_details];
      [exact I|exact T|].
    apply Forall_app. split; [exact Ds|]. constructor; [|constructor].
    split; [exact L|]. split; [exact D|exact B].
Qed.

Lemma fold_good fallback_title lines : forall st,
  Forall line lines -> good_seg st ->
  good_seg (fold_left (seg_step fallback_title) lines st).
Proof.
  induction lines as [|ln lines IH]; intros st L H; [exact H|].
  inversion L; subst. cbn [fold_left]. apply IH; [assumption|].
  now apply seg_step_good.
Qed.

Lemma explicit_items_good fallback_title lines :
  Forall line lines -> Forall good_item (explicit_items fallback_title lines).
Proof.
  intros L. unfold explicit_items.
  apply flush_good, fold_good; [exact L|].
  split; [|split]; cbn [items current_title current_details];
    [constructor|discriminate|constructor].
Qed.

(** The lines of the full text of an item. *)
Definition block (it : item) : list str :=
  (U "▶ " ++ item_title it) :: detail_lines it.

Lemma block_line it : good_item it -> Forall line (block it).
Proof.
  intros ((T & B & H) & N & D & _). constructor.
  - split; [split|].
    + change (U "▶ " ++ item_title it) with ([0x25B6] ++ [SP] ++ item_title it).
      apply tidy_glue; [reflexivity|discriminate|exact T|exact N].
    + discriminate.
    + change (U "▶ " ++ item_title it) with (0x25B6 :: SP :: item_title it).
      constructor; [reflexivity|]. constructor; [reflexivity|exact B].
  - eapply Forall_impl; [exact D|]. now intros l [L _].
Qed.

Lemma full_text_block (url : str) it :
  detail_lines it <> [] ->
  full_text (build_record url it) = text_of (block it).
Proof.
  intros N. unfold block. rewrite text_of_cons by exact N.
  cbn [build_record full_text]. now rewrite <- app_assoc.
Qed.

Lemma fold_details (its : list item) (c : N) (t : str) (ds : list str) :
  Forall body_line ds -> forall ds0,
  fold_left (seg_step None) ds (Seg its (Some (c :: t)) ds0)
  = Seg its (Some (c :: t)) (ds0 ++ ds).
Proof.
  induction 1 as [|d ds (_ & Hd & Hb) _ IH]; intros ds0.
  - now rewrite app_nil_r.
  - cbn [fold_left]. unfold seg_step at 2. rewrite Hd, Hb.
    cbn [truthy andb current_title current_details items].
    rewrite IH. now rewrite <- app_assoc.
Qed.

Lemma fold_block it st :
  good_item it ->
  fold_left (seg_step None) (block it) st
  = Seg (items (flush_if_has_details st)) (Some (item_title it)) (detail_lines it).
Proof.
  intros (H & N & D & _). unfold block. cbn [fold_left].
  unfold seg_step at 2.
  rewrite (marker_is_no_drop_token _ (marker_line_starts _)).
  unfold is_boundary. rewrite marker_line_starts. cbn [orb].
  rewrite (title_of_marked _ H).
  destruct (item_title it) as [|c t]; [contradiction|].
  now rewrite fold_details.
Qed.

Lemma flush_block (its : list item) it :
  good_item it ->
  items (flush_if_has_details
           (Seg its (Some (item_title it)) (detail_lines it)))
  = its ++ [it].
Proof.
  intros ((T & _) & N & _ & Nd). unfold flush_if_has_details.
  cbn [items current_title current_details].
  destruct it as [title details]. cbn [item_title detail_lines] in *.
  destruct title as [|c t]; [contradiction|].
  destruct details; [contradiction|]. now rewrite T.
Qed.

Lemma fold_blocks (its : list item) :
  Forall good_item its -> forall st,
  items (flush_if_has_details
           (fold_left (seg_step None) (concat (map block its)) st))
  = items (flush_if_has_details st) ++ its.
Proof.
  induction 1 as [|it its G _ IH]; intros st.
  - now rewrite app_nil_r.
  - cbn [map concat]. rewrite fold_left_app, (fold_block it st G), IH.
    rewrite (flush_block _ it G). now rewrite <- app_assoc.
Qed.

(** Segmenting the blocks of good items gives these items. *)
Lemma split_blocks (its : list item) :
  Forall good_item its ->
  split_items (text_of (concat (map block its))) None = its.
Proof.
  intros G. unfold split_items.
  assert (Forall line (concat (map block its))) as L.
  { induction G as [|it its Hi _ IH]; [constructor|].
    cbn [map concat]. apply Forall_app. split; [now apply block_line|exact IH]. }
  rewrite (stripped_lines_join _ L). unfold explicit_items.
  rewrite (fold_blocks its G). cbn [flush_if_has_details items current_title app].
  destruct its as [|it its']; [reflexivity|].
  now destruct (concat (map block (it :: its'))).
Qed.

Lemma full_texts_blocks (url : str) (its : list item) :
  Forall good_item its ->
  text_of (map (fun it => full_text (build_record url it)) its)
  = text_of (concat (map block its)).
Proof.
  intros G.
  assert (map (fun it => full_text (build_record url it)) its
          = map text_of (map block its)) as ->.
  { rewrite map_map. apply map_ext_in. intros it Hin.
    rewrite Forall_forall in G. apply list_elem_of_In in Hin.
    apply full_text_block. now destruct (G it Hin) as (_ & _ & _ & N). }
  apply text_of_concat. clear. induction its; constructor; [discriminate|assumption].
Qed.

End JungguItems.

(** X13: the full text of the records of junggu.py can be segmented again.
    When the page has explicit boundaries, segmenting the full text of a
    record (without fallback title) gives back the one item the record was
    built from, and segmenting the full texts of all the records of the
    page, joined by line breaks, gives back the items of the page. *)
Theorem full_text_is_segmented_again :
  forall (url text title : str),
    Junggu.explicit_items (Some title) (stripped_lines text) <> [] ->
    (forall it : item,
       In it (Junggu.split_items text (Some title)) ->
       Junggu.split_items (Junggu.full_text (Junggu.build_record url it)) None
       = [it])
    /\ Junggu.split_items
         (text_of (map Junggu.full_text (Junggu.build_records url text title)))
         None
       = Junggu.split_items text (Some title).
Proof.
  intros url text title N.
  assert (Junggu.split_items text (Some title)
          = Junggu.explicit_items (Some title) (stripped_lines text)) as E.
  { unfold Junggu.split_items.
    destruct (Junggu.explicit_items _ _); [contradiction|reflexivity]. }
  pose proof (explicit_items_good (Some title) _ (stripped_lines_line text)) as G.
  rewrite <- E in G. split.
  - intros it Hin. rewrite Forall_forall in G. apply list_elem_of_In in Hin.
    pose proof (G it Hin) as Gi.
    rewrite full_text_block by (now destruct Gi as (_ & _ & _ & Nd)).
    pose proof (split_blocks [it]) as S. cbn [map concat] in S.
    rewrite app_nil_r in S. apply S. constructor; [exact Gi|constructor].
  - unfold Junggu.build_records. rewrite map_map.
    rewrite (full_texts_blocks url _ G). now apply split_blocks.
Qed.

Lemma full_text_is_segmented_again_witness :
  Junggu.split_items
    (Junggu.full_text (Junggu.build_record [] (Item (U "B") [U "ㅇ b"]))) None
  = [Item (U "B") [U "ㅇ b"]].
Proof.
  refine (proj1 (full_text_is_segmented_again []
            (text_of [U "머리말"; U "▶ A"; U "ㅇ a"; U "목록"; U "▶▶ B"; U "ㅇ b"])
            (U "머리말") _) (Item (U "B") [U "ㅇ b"]) _).
  - vm_compute. discriminate.
  - vm_compute. right. left. reflexivity.
Defined.

(** ** What every item holds *)

Section ItemShape.

Implicit Types (st : seg) (it : item) (ln : str).

(** An item with a title and at least one detail line. *)
Definition full_item (it : item) : Prop :=
  item_title it <> [] /\ detail_lines it <> [].

Lemma good_item_full it : good_item it -> full_item it.
Proof. now intros (_ & N & _ & D). Qed.

Lemma fallback_item_full (fallback_title : option str) (l : str) (ls : list str) :
  full_item (Item (or_else fallback_title placeholder) (l :: ls)).
Proof.
  split; [|discriminate]. cbn [item_title].
  destruct fallback_title as [[|c r]|]; discriminate.
Qed.

Lemma pr1_flush_full st :
  Forall full_item (items st) ->
  Forall full_item (items (Pr1.flush_if_has_details st)).
Proof.
  intros I. unfold Pr1.flush_if_has_details. cbn [items].
  destruct (current_title st) as [[|c t]|]; try exact I.
  destruct (current_details st) as [|d ds]; [exact I|].
  apply Forall_app. split; [exact I|]. constructor; [|constructor].
  split; discriminate.
Qed.

Lemma pr1_seg_step_full st ln :
  Forall full_item (items st) -> Forall full_item (items (Pr1.seg_step st ln)).
Proof.
  intros I. unfold Pr1.seg_step.
  destruct (startswith_any drop_tokens ln); [exact I|].
  destruct (startswith (U "▶") ln); [now apply pr1_flush_full|].
  destruct (rmatch Pr1.ANGLE_TITLE_PAT ln) as [[e g]|];
    [now apply pr1_flush_full|].
  destruct (startswith (U "ㅇ") ln).
  - destruct (current_title st); exact I.
  - destruct (current_details st); [|exact I].
    destruct (truthy (current_title st)); exact I.
Qed.

Lemma pr1_fold_full (lines : list str) : forall st,
  Forall full_item (items st) ->
  Forall full_item (items (fold_left Pr1.seg_step lines st)).
Proof.
  induction lines as [|ln lines IH]; intros st I; [exact I|].
  cbn [fold_left]. now apply IH, pr1_seg_step_full.
Qed.

(** The detail lines held by a state of the loop of junggu.py. *)
Definition held (st : seg) : list str :=
  concat (map detail_lines (items st)) ++ current_details st.

Lemma held_flush st : sublist (held (Junggu.flush_if_has_details st)) (held st).
Proof.
  unfold held, Junggu.flush_if_has_details.
  cbn [items current_details]. rewrite app_nil_r.
  destruct (current_title st) as [[|c t]|];
    try (apply sublist_inserts_r; reflexivity).
  destruct (current_details st) as [|d ds] eqn:E.
  - now rewrite app_nil_r.
  - rewrite map_app, concat_app. cbn [map concat detail_lines].
    now rewrite app_nil_r.
Qed.

Lemma held_seg_step (fallback_title : option str) st ln :
  sublist (held (Junggu.seg_step fallback_title st ln)) (held st ++ [ln]).
Proof.
  unfold Junggu.seg_step.
  destruct (startswith_any drop_tokens ln);
    [apply sublist_inserts_r; reflexivity|].
  destruct (Junggu.is_boundary ln).
  - apply sublist_inserts_r.
    pose proof (held_flush st) as H. unfold held in *.
    cbn [items current_details] in *. exact H.
  - destruct (_ && _); [apply sublist_inserts_r; reflexivity|].
    destruct (truthy (current_title st));
      [|apply sublist_inserts_r; reflexivity].
    unfold held. cbn [items current_details]. now rewrite app_assoc.
Qed.

Lemma held_fold (fallback_title : option str) (lines : list str) :
  forall st base,
    sublist (held st) base ->
    sublist (held (fold_left (Junggu.seg_step fallback_title) lines st))
            (base ++ lines).
Proof.
  induction lines as [|ln lines IH]; intros st base H.
  - now rewrite app_nil_r.
  - cbn [fold_left].
    replace (base ++ ln :: lines) with ((base ++ [ln]) ++ lines)
      by (now rewrite <- app_assoc).
    apply IH. etransitivity; [apply held_seg_step|].
    apply sublist_app; [exact H|reflexivity].
Qed.

Lemma explicit_items_held (fallback_title : option str) (lines : list str) :
  sublist (concat (map detail_lines (Junggu.explicit_items fallback_title lines)))
          lines.
Proof.
  unfold Junggu.explicit_items.
  pose proof (held_flush
                (fold_left (Junggu.seg_step fallback_title) lines (Seg [] None [])))
    as F.
  pose proof (held_fold fallback_title lines (Seg [] None []) [] (sublist_nil_l _))
    as H.
  unfold held at 1 in F. cbn [Junggu.flush_if_has_details current_details] in F.
  rewrite app_nil_r in F. etransitivity; [exact F|exact H].
Qed.

End ItemShape.

(** X12: every item that [split_items] of junggu.py and of pr-1.py returns
    has a title that is not empty and at least one detail line, so a
    heading that no body line follows gives no item.  In junggu.py the
    detail lines of the items, taken together, are lines of the document
    in their order: segmentation neither repeats nor reorders a line. *)
Theorem items_have_title_and_lines :
  forall (text : str) (fallback_title : option str),
    Forall (fun it => item_title it <> [] /\ detail_lines it <> [])
           (Junggu.split_items text fallback_title)
    /\ Forall (fun it => item_title it <> [] /\ detail_lines it <> [])
              (Pr1.split_items text fallback_title)
    /\ sublist (concat (map detail_lines (Junggu.split_items text fallback_title)))
               (stripped_lines text).
Proof.
  intros text fb. split; [|split].
  - unfold Junggu.split_items.
    pose proof (explicit_items_good fb _ (stripped_lines_line text)) as G.
    destruct (Junggu.explicit_items fb (stripped_lines text)) as [|i more].
    + destruct (stripped_lines text) as [|l ls]; [constructor|].
      constructor; [apply fallback_item_full|constructor].
    + eapply Forall_impl; [exact G|]. apply good_item_full.
  - unfold Pr1.split_items.
    assert (Forall full_item (Pr1.explicit_items (stripped_lines text))) as G.
    { unfold Pr1.explicit_items. apply pr1_flush_full, pr1_fold_full. constructor. }
    destruct (Pr1.explicit_items (stripped_lines text)) as [|i more].
    + destruct (stripped_lines text) as [|l ls]; [constructor|].
      constructor; [apply fallback_item_full|constructor].
    + exact G.
  - unfold Junggu.split_items.
    pose proof (explicit_items_held fb (stripped_lines text)) as H.
    destruct (Junggu.explicit_items fb (stripped_lines text)) as [|i more].
    + destruct (stripped_lines text) as [|l ls]; [constructor|].
      cbn [map concat detail_lines]. now rewrite app_nil_r.
    + exact H.
Qed.

(** A heading without a body line is lost, with the lines before the first
    heading. *)
Example heading_without_lines :
  Junggu.split_items (text_of [U "안내"; U "▶ A"; U "▶ B"; U "ㅇ b"]) None
  = [Item (U "B") [U "ㅇ b"]]
  /\ Pr1.split_items (text_of [U "안내"; U "▶ A"; U "▶ B"; U "ㅇ b"]) None
     = [Item (U "B") [U "ㅇ b"]].
Proof. split; vm_compute; reflexivity. Qed.

(** ** pr-2.py: the record of a page *)

Section PageRecord.

Implicit Types (ln l s t : str) (lines : list str).

Lemma before_stop_in (stop : str -> bool) lines ln :
  In ln (before_stop stop lines) -> In ln lines.
Proof.
  induction lines as [|x lines IH]; cbn [before_stop]; [trivial|].
  destruct (stop x); [intros []|]. intros [<-|H]; [now left|right; auto].
Qed.

(** The kept text of a contact header begins as the header does. *)
Lemma cut_head ln (x : N) s :
  strip ln = x :: s -> header_char x -> exists t, cut ln = x :: t.
Proof.
  intros E [Sx Fx]. unfold cut. rewrite E.
  destruct (split_head_keeps Alias.NOISE_CUT x s eq_refl Fx) as [t ->].
  unfold strip, lstrip, rstrip.
  destruct (rdropwhile_cons_keep isspace x t Sx) as [t' ->].
  rewrite dropwhile_id by exact Sx. eauto.
Qed.

Lemma header_is_no_navigation (x : N) t :
  header_head x -> ~ In (x :: t) Pr2.NAV_DROPS.
Proof.
  intros [->|[->|[->| ->]]] H; vm_compute in H;
    destruct H as [H|[H|[H|[H|[H|[H|[]]]]]]]; discriminate H.
Qed.

Lemma pr2_trim_clean lines :
  Forall clean_line lines -> Forall clean_line (Pr2.trim_noise_lines lines).
Proof.
  induction 1 as [|ln rest Hl _ IH]; cbn [Pr2.trim_noise_lines];
    [constructor|].
  destruct (_ || _); cbn [andb].
  - destruct (strip (split_head Alias.NOISE_CUT (strip ln))) as [|c r] eqn:E;
      cbn [is_nil negb].
    + destruct (found _ _); [constructor|]. now constructor.
    + constructor; [|exact IH]. split; [|discriminate].
      rewrite <- E. apply strip_tidy.
  - destruct (found _ _); [constructor|]. now constructor.
Qed.

(** No line that [trim_noise_lines] of pr-2.py keeps is a navigation line,
    when none of the given lines is one. *)
Lemma pr2_trim_no_navigation lines l :
  (forall ln, In ln lines -> ~ In ln Pr2.NAV_DROPS) ->
  In l (Pr2.trim_noise_lines lines) -> ~ In l Pr2.NAV_DROPS.
Proof.
  intros Hnav Hin. rewrite pr2_trim_eq in Hin.
  apply in_map_iff in Hin as (ln & <- & Hin). apply before_stop_in in Hin.
  destruct (pr2_contact ln) eqn:C; [|now apply Hnav].
  unfold pr2_contact in C.
  destruct (pr2_header_char _ C) as (x & s & E & Hc).
  destruct (pr2_header_head _ C) as (x' & s' & E' & Hh).
  rewrite E in E'. injection E' as <- <-.
  destruct (cut_head ln x s E Hc) as [t ->].
  now apply header_is_no_navigation.
Qed.

Lemma pr2_details (text : str) (fallback_title : option str) (it : item) :
  In it (Pr2.split_items text fallback_title) ->
  item_title it = or_else fallback_title placeholder
  /\ Forall clean_line (detail_lines it)
  /\ (forall ln, In ln (detail_lines it) -> ~ In ln Pr2.NAV_DROPS)
  /\ sublist (detail_lines it) (stripped_lines text).
Proof.
  unfold Pr2.split_items. intros [<-|[]]. cbn [item_title detail_lines].
  split; [reflexivity|]. split; [|split; [|apply filter_sublist]].
  - pose proof (stripped_lines_clean text) as L.
    induction L as [|ln rest Hl _ IH]; cbn [List.filter]; [constructor|].
    destruct (_ && _); [now constructor|exact IH].
  - intros ln Hin Hnav. apply filter_In in Hin as [_ Hin].
    apply andb_prop in Hin as [Hin _]. apply negb_true_iff in Hin.
    apply not_true_iff_false in Hin. apply Hin.
    apply existsb_exists. exists ln. split; [exact Hnav|].
    unfold str_eqb. now apply bool_decide_eq_true.
Qed.

End PageRecord.

(** X14: the record of a page of pr-2.py.  The full text of the record
    holds the title of the item, which is the title found for the page
    (the placeholder when it is empty), and every noise-trimmed line, the
    lines that are classified.  None of these lines is a navigation line
    (홈, 복지, 외국인 지원, 교육·문화, 공유하기, 링크복사), also where a
    contact header was cut, and none is empty. *)
Theorem page_record_holds_title_and_lines :
  forall (url text title : str) (it : item),
    tidy title ->
    In it (Pr2.split_items text (Some title)) ->
    let clean_lines := Pr2.trim_noise_lines (detail_lines it) in
    item_title it = or_else (Some title) placeholder
    /\ sublist (detail_lines it) (stripped_lines text)
    /\ (exists ft,
          Frame.full_text (Pr2.build_record url it) = Some ft
          /\ ft = Pr2.item_block_text (Item (item_title it) clean_lines)
          /\ contains (item_title it) ft = true
          /\ forall l, In l clean_lines -> contains l ft = true)
    /\ (forall l, In l clean_lines -> l <> [] /\ ~ In l Pr2.NAV_DROPS)
    /\ Frame.item_title (Pr2.build_record url it) = Some (item_title it).
Proof.
  intros url text title it Tt Hin clean_lines.
  destruct (pr2_details text (Some title) it Hin) as (Et & L & Hnav & Hsub).
  pose proof (pr2_trim_clean _ L) as Lc. fold clean_lines in Lc.
  assert (tidy (item_title it)) as Ti.
  { rewrite Et. destruct title; [apply placeholder_tidy|exact Tt]. }
  destruct (item_block_text_holds (item_title it) clean_lines Ti Lc) as [H1 H2].
  split; [exact Et|]. split; [exact Hsub|]. split; [|split; [|reflexivity]].
  - exists (Pr2.item_block_text (Item (item_title it) clean_lines)).
    repeat split; assumption.
  - intros l Hl. split.
    + rewrite Forall_forall in Lc. apply list_elem_of_In in Hl.
      now destruct (Lc l Hl).
    + now apply (pr2_trim_no_navigation (detail_lines it)).
Qed.

Lemma page_record_holds_title_and_lines_witness :
  exists ft,
    Frame.full_text
      (Pr2.build_record [] (Item (U "공지") [U "▶ A"; U "문의 : 02-123"]))
    = Some ft
    /\ ft = Pr2.item_block_text (Item (U "공지") [U "▶ A"; U "문의 : 02-123"])
    /\ contains (U "공지") ft = true
    /\ forall l, In l [U "▶ A"; U "문의 : 02-123"] -> contains l ft = true.
Proof.
  refine (proj1 (proj2 (proj2 (page_record_holds_title_and_lines []
            (text_of [U "홈"; U "▶ A"; U "문의 : 02-123 [첨부]"; U "복지";
                      U "[목록] 이전글"; U "꼬리말"])
            (U "공지")
            (Item (U "공지") [U "▶ A"; U "문의 : 02-123 [첨부]";
                              U "[목록] 이전글"; U "꼬리말"]) _ _)))).
  - reflexivity.
  - vm_compute. left. reflexivity.
Defined.

(** Marker lines are detail lines in pr-2.py; the same text gives two
    items in pr-1.py. *)
Example markers_do_not_segment :
  Pr2.split_items (text_of [U "홈"; U "▶ A"; U "ㅇ a"; U "▶ B"; U "ㅇ b"]) None
  = [Item (U "(본문)") [U "▶ A"; U "ㅇ a"; U "▶ B"; U "ㅇ b"]]
  /\ Pr1.split_items (text_of [U "홈"; U "▶ A"; U "ㅇ a"; U "▶ B"; U "ㅇ b"]) None
     = [Item (U "A") [U "ㅇ a"]; Item (U "B") [U "ㅇ b"]].
Proof. split; vm_compute; reflexivity. Qed.

(** ** The list pages of junggu.py *)

Section Crawl.

Variable fetch_links : nat -> option (list str).
Variable urljoin : str -> str.

Abbreviation add_link := (Junggu.add_link urljoin).
Abbreviation collect_pages := (Junggu.collect_pages fetch_links urljoin).

(** The address that is recorded for a link. *)
Definition resolved (href : str) : str :=
  if startswith (U "http") (strip href) then strip href else urljoin (strip href).

Definition crawl_ok (st : list str * list str) : Prop :=
  NoDup (fst st) /\ forall u, In u (fst st) -> In u (snd st).

Lemma seen_spec (u : str) (seen : list str) :
  existsb (str_eqb u) seen = true <-> In u seen.
Proof.
  rewrite existsb_exists. split.
  - intros (x & Hx & E). unfold str_eqb in E.
    apply bool_decide_eq_true in E. now subst.
  - intros H. exists u. split; [exact H|].
    unfold str_eqb. now apply bool_decide_eq_true.
Qed.

Lemma add_link_ok st href : crawl_ok st -> crawl_ok (add_link st href).
Proof.
  intros [N S]. unfold Junggu.add_link.
  destruct (is_nil (strip href)); [now split|].
  set (u := if startswith (U "http") (strip href) then strip href
            else urljoin (strip href)).
  destruct (existsb (str_eqb u) (snd st)) eqn:E; [now split|].
  split; cbn [fst snd].
  - apply NoDup_app. split; [exact N|]. split; [|apply NoDup_singleton].
    intros x Hx Hu. apply list_elem_of_In in Hx.
    apply list_elem_of_In in Hu as [->|[]].
    apply S, seen_spec in Hx. congruence.
  - intros x Hx. apply in_app_or in Hx as [Hx|[<-|[]]]; [right; now apply S|now left].
Qed.

Lemma fold_add_link_ok hrefs : forall st,
  crawl_ok st -> crawl_ok (fold_left add_link hrefs st).
Proof.
  induction hrefs as [|h hrefs IH]; intros st H; [exact H|].
  apply IH, add_link_ok, H.
Qed.

Lemma collect_pages_ok n : forall page urls seen,
  crawl_ok (urls, seen) -> NoDup (collect_pages n page urls seen).
Proof.
  induction n as [|n IH]; intros page urls seen H; [exact (proj1 H)|].
  cbn [Junggu.collect_pages].
  destruct (fetch_links page) as [hrefs|]; [|exact (proj1 H)].
  pose proof (fold_add_link_ok hrefs _ H) as F.
  destruct (fold_left add_link hrefs (urls, seen)) as [urls' seen'] eqn:E.
  cbn [fst snd]. destruct (_ =? _)%nat; [exact (proj1 F)|].
  now apply IH.
Qed.

(** Where a recorded address comes from. *)
Definition linked (lo hi : nat) (u : str) : Prop :=
  exists page hrefs href,
    (lo <= page < hi)%nat /\ fetch_links page = Some hrefs /\ In href hrefs
    /\ strip href <> [] /\ u = resolved href.

Lemma add_link_from st href u :
  In u (fst (add_link st href)) ->
  In u (fst st) \/ (strip href <> [] /\ u = resolved href).
Proof.
  unfold Junggu.add_link, resolved.
  destruct (strip href) as [|c r] eqn:E; cbn [is_nil]; [now left|].
  destruct (existsb _ (snd st)); [now left|]. cbn [fst].
  intros H. apply in_app_or in H as [H|[<-|[]]]; [now left|right].
  split; [discriminate|reflexivity].
Qed.

Lemma fold_add_link_from hrefs : forall st u,
  In u (fst (fold_left add_link hrefs st)) ->
  In u (fst st)
  \/ exists href, In href hrefs /\ strip href <> [] /\ u = resolved href.
Proof.
  induction hrefs as [|h hrefs IH]; intros st u H; [now left|].
  cbn [fold_left] in H. apply IH in H as [H|(href & Hin & N & E)].
  - apply add_link_from in H as [H|[N E]]; [now left|right].
    exists h. split; [now left|now split].
  - right. exists href. split; [now right|now split].
Qed.

Lemma collect_pages_from n : forall page urls seen u,
  In u (collect_pages n page urls seen) ->
  In u urls \/ linked page (page + n) u.
Proof.
  induction n as [|n IH]; intros page urls seen u H; [now left|].
  cbn [Junggu.collect_pages] in H.
  destruct (fetch_links page) as [hrefs|] eqn:F; [|now left].
  assert (In u (fst (fold_left add_link hrefs (urls, seen))) ->
          In u urls \/ linked page (page + S n) u) as Here.
  { intros Hu. apply fold_add_link_from in Hu as [Hu|(href & Hin & N & E)];
      [now left|right].
    exists page, hrefs, href. repeat split; try assumption; lia. }
  destruct (_ =? _)%nat; [now apply Here|].
  apply IH in H as [H|(p & hs & h & R & Fp & Hin & N & E)]; [now apply Here|].
  right. exists p, hs, h. repeat split; try assumption; lia.
Qed.

End Crawl.

Lemma collect_pages_ext (f g : nat -> option (list str)) (urljoin : str -> str)
  (n : nat) : forall page urls seen,
  (forall p, (page <= p < page + n)%nat -> f p = g p) ->
  Junggu.collect_pages f urljoin n page urls seen
  = Junggu.collect_pages g urljoin n page urls seen.
Proof.
  induction n as [|n IH]; intros page urls seen H; [reflexivity|].
  cbn [Junggu.collect_pages]. rewrite <- (H page) by lia.
  destruct (f page) as [hrefs|]; [|reflexivity].
  destruct (_ =? _)%nat; [reflexivity|].
  apply IH. intros p Hp. apply H. lia.
Qed.

(** X15: [collect_detail_urls_from_list] of junggu.py returns no address
    twice; every address it returns is the resolved, non-empty link of an
    anchor of one of the pages 1 to [max_pages]; and no page beyond
    [max_pages] has any influence on the result. *)
Theorem collected_urls_are_distinct :
  forall (fetch_links : nat -> option (list str)) (urljoin : str -> str)
         (max_pages : nat),
    NoDup (Junggu.collect_detail_urls_from_list fetch_links urljoin max_pages)
    /\ (forall u,
          In u (Junggu.collect_detail_urls_from_list fetch_links urljoin max_pages)
          -> exists page hrefs href,
               (1 <= page <= max_pages)%nat
               /\ fetch_links page = Some hrefs /\ In href hrefs
               /\ strip href <> []
               /\ u = if startswith (U "http") (strip href) then strip href
                      else urljoin (strip href))
    /\ (forall other : nat -> option (list str),
          (forall p, (1 <= p <= max_pages)%nat -> other p = fetch_links p) ->
          Junggu.collect_detail_urls_from_list other urljoin max_pages
          = Junggu.collect_detail_urls_from_list fetch_links urljoin max_pages).
Proof.
  intros fetch_links urljoin max_pages.
  unfold Junggu.collect_detail_urls_from_list. split; [|split].
  - apply collect_pages_ok. split; [constructor|intros u []].
  - intros u H. apply collect_pages_from in H as [[]|(p & hs & h & R & H)].
    exists p, hs, h. split; [lia|exact H].
  - intros other H. apply collect_pages_ext. intros p Hp. apply H. lia.
Qed.

Lemma collected_urls_are_distinct_witness :
  let links := [U " /a?cid=1 "; U "http://x/b"; U "/a?cid=1"; []] in
  let pages := fun p : nat =>
    match p with 1%nat => Some links | _ => Some [U "/c"] end in
  let other := fun p : nat =>
    match p with 1%nat => Some links | _ => None end in
  Junggu.collect_detail_urls_from_list pages (fun h => U "http://x" ++ h) 1
  = [U "http://x/a?cid=1"; U "http://x/b"]
  /\ Junggu.collect_detail_urls_from_list other (fun h => U "http://x" ++ h) 1
     = Junggu.collect_detail_urls_from_list pages (fun h => U "http://x" ++ h) 1.
Proof.
  intros links pages other. split; [vm_compute; reflexivity|].
  refine (proj2 (proj2 (collected_urls_are_distinct pages
                          (fun h => U "http://x" ++ h) 1)) other _).
  intros p Hp. assert (p = 1%nat) as -> by lia. reflexivity.
Defined.

(** ** Key normalization as a filter *)

Section KeyFilter.

Implicit Types (s k : str) (p q : N -> bool).

Lemma remove_remove p q s :
  remove p (remove q s) = remove (fun c => q c || p c) s.
Proof.
  induction s as [|c s IH]; [reflexivity|]. cbn [remove].
  destruct (q c); cbn [orb remove]; [exact IH|].
  destruct (p c); now rewrite IH.
Qed.

Lemma remove_replace1_out p (a b : N) s :
  p a = false -> p b = false ->
  remove p (replace1 a b s) = replace1 a b (remove p s).
Proof.
  intros Ha Hb. unfold replace1.
  induction s as [|c s IH]; [reflexivity|]. cbn [map remove].
  destruct (N.eqb_spec c a) as [->|Hne].
  - rewrite Hb, Ha. cbn [map]. rewrite N.eqb_refl. now rewrite IH.
  - destruct (p c); [exact IH|]. cbn [map].
    destruct (N.eqb_spec c a); [contradiction|]. now rewrite IH.
Qed.

Lemma remove_replace1_in p (a b : N) s :
  p a = true -> p b = true -> remove p (replace1 a b s) = remove p s.
Proof.
  intros Ha Hb. unfold replace1.
  induction s as [|c s IH]; [reflexivity|]. cbn [map remove].
  destruct (N.eqb_spec c a) as [->|Hne]; [now rewrite Hb, Ha|].
  destruct (p c); now rewrite IH.
Qed.

Lemma remove_fixed p s : Forall (fun c => p c = false) s -> remove p s = s.
Proof.
  induction 1 as [|c s H _ IH]; [reflexivity|]. cbn [remove].
  now rewrite H, IH.
Qed.

Lemma remove_ext p q s : (forall c, p c = q c) -> remove p s = remove q s.
Proof.
  intros H. induction s as [|c s IH]; [reflexivity|]. cbn [remove].
  now rewrite H, IH.
Qed.

(** The characters that [normalize_key] of pr-1.py and pr-2.py leaves
    out. *)
Definition alias_junk (c : N) : bool :=
  ZERO_WIDTH c || mem c (U "★☆•·[](){}") || mem c (U "-–—") || isspace c.

Lemma alias_normalize_key_eq k : Alias.normalize_key k = remove alias_junk k.
Proof.
  unfold Alias.normalize_key.
  rewrite !(remove_replace1_out (fun c => mem c (U "★☆•·[](){}")))
    by reflexivity.
  rewrite !(remove_replace1_out (fun c => mem c (U "-–—"))) by reflexivity.
  rewrite !(remove_replace1_in isspace) by reflexivity.
  rewrite !remove_remove. apply remove_ext. intros c. unfold alias_junk.
  now rewrite !orb_assoc.
Qed.

Lemma takewhile_idem p s : takewhile p (takewhile p s) = takewhile p s.
Proof. apply takewhile_all, takewhile_Forall. Qed.

(** The characters that [normalize_key] of junggu.py leaves out before it
    truncates. *)
Definition keyword_junk (c : N) : bool :=
  ZERO_WIDTH c || mem c (U "★☆•·▶▷■○●※-=+()[]{}<>") || isspace c.

Lemma bare_key_eq k : bare_key k = remove keyword_junk k.
Proof.
  unfold bare_key.
  rewrite !(remove_replace1_out
              (fun c => mem c (U "★☆•·▶▷■○●※-=+()[]{}<>"))) by reflexivity.
  rewrite !(remove_replace1_in isspace) by reflexivity.
  rewrite !remove_remove. apply remove_ext. intros c. unfold keyword_junk.
  now rewrite !orb_assoc.
Qed.

Lemma junggu_normalize_key_idem k :
  Junggu.normalize_key (Junggu.normalize_key k) = Junggu.normalize_key k.
Proof.
  rewrite !junggu_normalize_key_eq, !bare_key_eq.
  rewrite (remove_fixed keyword_junk (takewhile _ _)).
  - apply takewhile_idem.
  - apply takewhile_sub, remove_none.
Qed.

Lemma table_lookup (T : list (str * string)) :
  forallb (fun e => bool_decide
                      (Alias.alias_get T (Alias.normalize_key (fst e))
                       = Some (snd e))) T = true ->
  forall e, In e T ->
    Alias.alias_get T (Alias.normalize_key (fst e)) = Some (snd e).
Proof.
  intros H e Hin. rewrite forallb_forall in H.
  exact (bool_decide_eq_true_1 _ (H e Hin)).
Qed.

End KeyFilter.

(** X7: [normalize_key] of pr-1.py and pr-2.py is a filter: it removes the
    zero-width marks, the decorative symbols, the dashes and all
    whitespace, and keeps every other character in place (the replacement
    of the no-break and the ideographic space has no effect of its own).
    So it is idempotent, as [normalize_key] of junggu.py is; every alias of
    the two tables, normalized, is found in its table with its own
    canonical key; and the aliases that are written with a space are never
    the result of a normalization, so they are found only through their
    spelling without space. *)
Theorem alias_key_is_filtered :
  (forall k : str,
     Alias.normalize_key k = remove alias_junk k
     /\ Forall (fun c => alias_junk c = false) (Alias.normalize_key k)
     /\ Alias.normalize_key (Alias.normalize_key k) = Alias.normalize_key k
     /\ Junggu.normalize_key (Junggu.normalize_key k) = Junggu.normalize_key k)
  /\ (forall e, In e Pr1.KEY_ALIAS ->
        Alias.alias_get Pr1.KEY_ALIAS (Pr1.normalize_key (fst e)) = Some (snd e))
  /\ (forall e, In e Pr2.KEY_ALIAS ->
        Alias.alias_get Pr2.KEY_ALIAS (Pr2.normalize_key (fst e)) = Some (snd e))
  /\ (forall (k alias : str),
        existsb isspace alias = true -> Alias.normalize_key k <> alias).
Proof.
  split; [|split; [|split]].
  - intros k. rewrite !alias_normalize_key_eq. repeat split.
    + apply remove_none.
    + apply remove_fixed, remove_none.
    + apply junggu_normalize_key_idem.
  - apply table_lookup. vm_compute. reflexivity.
  - apply table_lookup. vm_compute. reflexivity.
  - intros k alias H E. rewrite alias_normalize_key_eq in E.
    apply existsb_exists in H as (c & Hin & Hc).
    pose proof (remove_none alias_junk k) as F. rewrite E in F.
    rewrite Forall_forall in F. apply list_elem_of_In in Hin.
    specialize (F c Hin). unfold alias_junk in F.
    rewrite Hc in F. now rewrite orb_true_r in F.
Qed.

Lemma alias_key_is_filtered_witness :
  Alias.alias_get Pr1.KEY_ALIAS (Pr1.normalize_key (U "문 의"))
  = Some "contact"%string
  /\ Alias.normalize_key (U "[문 의]") = U "문의"
  /\ Alias.normalize_key (U "[문 의]") <> U "문 의".
Proof.
  split; [|split; [vm_compute; reflexivity|]].
  - apply (proj1 (proj2 alias_key_is_filtered) (U "문 의", "contact"%string)).
    vm_compute. tauto.
  - apply (proj2 (proj2 (proj2 alias_key_is_filtered))). reflexivity.
Defined.

(** ** Lines of the form key, delimiter, value *)

Section KeyValueLine.

Implicit Types (s t key value : str) (p : N -> bool).

(** One iteration of a lazy, unbounded repetition of a character class. *)
Lemma lazy_cls_unfold p lo (k : kont) n cnt pos s c :
  rep_loop (cls_body p) false lo None k (S n) cnt pos s c
  = match (if (lo <=? cnt)%nat then k pos s c else None) with
    | Some res => Some res
    | None =>
      match s with
      | x :: s' =>
        if p x then rep_loop (cls_body p) false lo None k n (S cnt) (S pos) s' c
        else None
      | [] => None
      end
    end.
Proof.
  cbn [rep_loop below].
  destruct (if (lo <=? cnt)%nat then k pos s c else None); [reflexivity|].
  destruct s as [|x s']; [reflexivity|]. unfold cls_body at 1.
  destruct (p x); [|reflexivity].
  replace (length s' <? length (x :: s'))%nat with true
    by (symmetry; apply Nat.ltb_lt; simpl; lia).
  reflexivity.
Qed.

(** It takes the shortest run at which the continuation succeeds. *)
Lemma lazy_cls_first p lo (k : kont) res : forall pre rest n cnt pos c,
  (length pre < n)%nat ->
  Forall (fun x => p x = true) pre ->
  (forall i, (i < length pre)%nat -> (lo <= cnt + i)%nat ->
             k (pos + i)%nat (drop i pre ++ rest) c = None) ->
  (lo <= cnt + length pre)%nat ->
  k (pos + length pre)%nat rest c = Some res ->
  rep_loop (cls_body p) false lo None k n cnt pos (pre ++ rest) c = Some res.
Proof.
  induction pre as [|x pre IH]; intros rest n cnt pos c Hn Hp Hfail Hlo Hk;
    (destruct n as [|n]; [simpl in Hn; lia|]); rewrite lazy_cls_unfold.
  - cbn [length app] in *. rewrite Nat.add_0_r in *.
    apply Nat.leb_le in Hlo. now rewrite Hlo, Hk.
  - inversion Hp as [|? ? Hx Hp']; subst.
    assert ((if (lo <=? cnt)%nat then k pos ((x :: pre) ++ rest) c else None)
            = None) as ->.
    { destruct (lo <=? cnt)%nat eqn:E; [|reflexivity].
      apply Nat.leb_le in E.
      pose proof (Hfail 0%nat) as H0. rewrite !Nat.add_0_r in H0.
      apply H0; [simpl; lia|lia]. }
    cbn [app]. rewrite Hx. apply IH.
    + simpl in Hn. lia.
    + exact Hp'.
    + intros i Hi Hl. pose proof (Hfail (S i)) as H1.
      rewrite <- !Nat.add_succ_comm in H1. apply H1; [simpl; lia|lia].
    + simpl in Hlo. lia.
    + cbn [length] in Hk. now rewrite <- Nat.add_succ_comm in Hk.
Qed.

(** A greedy run of whitespace inside a text that ends with a character
    that is no whitespace cannot be followed by a character of a class
    that the text does not hold. *)
Lemma run_then_class_fails p (q : N -> bool) (K : kont) (z : N) tail :
  forall u n cnt pos c,
    p z = false ->
    Forall (fun x => q x = false) (u ++ [z]) ->
    rep_loop (cls_body p) true 0 None
      (fun pos s c => cls_body q pos s c K) n cnt pos ((u ++ [z]) ++ tail) c
    = None.
Proof.
  induction u as [|y u IH]; intros n cnt pos c Hz Hq;
    (destruct n as [|n]; [reflexivity|]); rewrite rep_cls_unfold.
  - cbn [app]. rewrite Hz. cbn [Nat.leb]. unfold cls_body.
    inversion Hq; subst. now rewrite H1.
  - cbn [app]. inversion Hq as [|? ? Hy Hq']; subst.
    rewrite (IH n (S cnt) (S pos) c Hz Hq'). cbn [Nat.leb].
    unfold cls_body. rewrite Hy. now destruct (p y).
Qed.

Lemma space_is_no_delimiter (c : N) : isspace c = true -> delimiter c = false.
Proof.
  intros H. unfold delimiter.
  change (U ":：-–") with [58; 0xFF1A; 45; 0x2013]. unfold mem. cbn [existsb].
  destruct (N.eqb_spec c 58) as [->|_]; [vm_compute in H; discriminate H|].
  destruct (N.eqb_spec c 0xFF1A) as [->|_]; [vm_compute in H; discriminate H|].
  destruct (N.eqb_spec c 45) as [->|_]; [vm_compute in H; discriminate H|].
  destruct (N.eqb_spec c 0x2013) as [->|_]; [vm_compute in H; discriminate H|].
  reflexivity.
Qed.

Lemma takewhile_app_stop p pre (x : N) rest :
  Forall (fun c => p c = true) pre -> p x = false ->
  takewhile p (pre ++ x :: rest) = pre
  /\ dropwhile p (pre ++ x :: rest) = x :: rest.
Proof.
  intros H Hx. induction H as [|c pre Hc _ [IH1 IH2]]; cbn [app takewhile dropwhile].
  - now rewrite Hx.
  - rewrite Hc. now rewrite IH1, IH2.
Qed.

Lemma tidy_last_char s : tidy s -> s <> [] ->
  exists u z, s = u ++ [z] /\ isspace z = false.
Proof.
  intros T N.
  destruct (tidy_inv s T) as [?|[(c & -> & ?)|(c & m & d & -> & ? & ?)]];
    [contradiction|exists [], c; eauto|exists (c :: m), d; eauto].
Qed.

Lemma tidy_first_char s : tidy s -> s <> [] ->
  exists x r, s = x :: r /\ isspace x = false.
Proof.
  intros T N.
  destruct (tidy_inv s T) as [?|[(c & -> & ?)|(c & m & d & -> & ? & ?)]];
    [contradiction|eauto|eauto].
Qed.

(** The match of [KEY_VALUE_PAT] on a line made of a key, a delimiter and
    a value. *)
Lemma key_value_mt key sp1 (d : N) sp2 value (fuel : nat) :
  key <> [] -> tidy key ->
  Forall (fun c => delimiter c = false /\ (c =? LF) = false) key ->
  Forall (fun c => isspace c = true) sp1 ->
  delimiter d = true ->
  Forall (fun c => isspace c = true) sp2 ->
  value <> [] -> tidy value -> Forall (fun c => (c =? LF) = false) value ->
  (length (key ++ sp1 ++ d :: sp2 ++ value) < fuel)%nat ->
  let b2 := (length key + length sp1 + 1 + length sp2)%nat in
  mt Alias.KEY_VALUE_PAT fuel 0 (key ++ sp1 ++ d :: sp2 ++ value) [] accept
  = Some ((b2 + length value)%nat, [],
          [(2%nat, (b2, (b2 + length value)%nat)); (1%nat, (0%nat, length key))]).
Proof.
  intros Nk Tk Fk F1 Hd F2 Nv Tv Fv Hfuel b2.
  destruct (tidy_first_char key Tk Nk) as (x & kr & Ek & Sx).
  destruct (tidy_last_char key Tk Nk) as (ku & kz & Eu & Sz).
  destruct (tidy_first_char value Tv Nv) as (v0 & vr & Ev & Sv).
  assert (isspace d = false) as Sd.
  { destruct (isspace d) eqn:E; [|reflexivity].
    apply space_is_no_delimiter in E. congruence. }
  assert (Hdot : forall l : str, Forall (fun c => (c =? LF) = false) l ->
                 Forall (fun c => negb (c =? LF) = true) l).
  { intros l H. eapply Forall_impl; [exact H|]. intros c Hc. simpl in Hc.
    now rewrite Hc. }
  set (g := [(2%nat, (b2, (b2 + length value)%nat)); (1%nat, (0%nat, length key))]).
  set (res := ((b2 + length value)%nat, @nil N, g)).
  rewrite !length_app in Hfuel. cbn [length] in Hfuel. rewrite length_app in Hfuel.
  unfold Alias.KEY_VALUE_PAT. cbn [seq].
  rewrite mt_cat. unfold star at 1, ws at 1. rewrite mt_rep_cls.
  assert (takewhile isspace (key ++ sp1 ++ d :: sp2 ++ value) = []
          /\ dropwhile isspace (key ++ sp1 ++ d :: sp2 ++ value)
             = key ++ sp1 ++ d :: sp2 ++ value) as [T0 D0].
  { rewrite Ek. cbn [app takewhile dropwhile]. now rewrite Sx. }
  apply (rep_cls_max isspace 0 _ res);
    [rewrite !length_app; cbn [length]; rewrite length_app; lia|lia|].
  rewrite T0, D0. cbn [length]. rewrite Nat.add_0_r.
  rewrite mt_cat, mt_grp. unfold lazy_plus, dot. rewrite mt_rep_cls.
  apply (lazy_cls_first _ 1 _ res key).
  - lia.
  - apply Hdot. eapply Forall_impl; [exact Fk|]. now intros c [_ Hc].
  - intros i Hi Hl. cbv beta.
    rewrite mt_cat. unfold star, ws. rewrite mt_rep_cls.
    assert (exists u, drop i key = u ++ [kz]) as [u Eui].
    { rewrite Eu. rewrite Eu, length_app in Hi. simpl in Hi.
      rewrite drop_app_le by lia. eauto. }
    rewrite Eui.
    assert (Forall (fun c => delimiter c = false) (u ++ [kz])) as Fu.
    { rewrite <- Eui. apply Forall_drop.
      eapply Forall_impl; [exact Fk|]. now intros c [Hc _]. }
    exact (run_then_class_fails isspace delimiter _ kz _ u fuel 0 _ _ Sz Fu).
  - rewrite Ek. simpl. lia.
  - cbv beta. rewrite mt_cat. unfold star, ws. rewrite mt_rep_cls.
    destruct (takewhile_app_stop isspace sp1 d (sp2 ++ value) F1 Sd) as [T1 D1].
    apply (rep_cls_max isspace 0 _ res);
      [rewrite !length_app; cbn [length]; rewrite length_app; lia|lia|].
    rewrite T1, D1. rewrite mt_cat, mt_cls. unfold cls_body at 1.
    rewrite Hd. rewrite mt_cat, mt_rep_cls.
    assert (takewhile isspace (sp2 ++ value) = sp2
            /\ dropwhile isspace (sp2 ++ value) = value) as [T2 D2].
    { rewrite Ev. now apply takewhile_app_stop. }
    apply (rep_cls_max isspace 0 _ res); [rewrite length_app; lia|lia|].
    rewrite T2, D2. rewrite mt_cat, mt_grp. unfold plus.
    rewrite mt_rep_cls.
    apply (rep_cls_max _ 1 _ res); [lia| |].
    + rewrite (takewhile_all _ _ (Hdot _ Fv)). destruct value; [contradiction|].
      simpl. lia.
    + rewrite (takewhile_all _ _ (Hdot _ Fv)), (dropwhile_all _ _ (Hdot _ Fv)).
      cbn [mt]. unfold accept, res, g, b2.
      repeat f_equal; lia.
Qed.

Lemma key_value_match key sp1 (d : N) sp2 value :
  key <> [] -> tidy key ->
  Forall (fun c => delimiter c = false /\ (c =? LF) = false) key ->
  Forall (fun c => isspace c = true) sp1 ->
  delimiter d = true ->
  Forall (fun c => isspace c = true) sp2 ->
  value <> [] -> tidy value -> Forall (fun c => (c =? LF) = false) value ->
  let head := key ++ sp1 ++ d :: sp2 ++ value in
  exists e g,
    rmatch Alias.KEY_VALUE_PAT head = Some (e, g)
    /\ group 1 g head = key /\ group 2 g head = value.
Proof.
  intros Nk Tk Fk F1 Hd F2 Nv Tv Fv head.
  set (b2 := (length key + length sp1 + 1 + length sp2)%nat).
  exists (b2 + length value)%nat,
         [(2%nat, (b2, (b2 + length value)%nat)); (1%nat, (0%nat, length key))].
  split.
  - unfold rmatch, match_at, head.
    rewrite (key_value_mt key sp1 d sp2 value _ Nk Tk Fk F1 Hd F2 Nv Tv Fv);
      [reflexivity|lia].
  - unfold group. cbn [List.find fst Nat.eqb]. split.
    + rewrite Nat.sub_0_r, drop_0. unfold head. now rewrite take_app_length.
    + replace (b2 + length value - b2)%nat with (length value) by lia.
      unfold head.
      replace (key ++ sp1 ++ d :: sp2 ++ value)
        with ((key ++ sp1 ++ [d] ++ sp2) ++ value)
        by (now rewrite <- !app_assoc).
      rewrite drop_app_length'; [now rewrite firstn_all|].
      rewrite !length_app. simpl. unfold b2. lia.
Qed.

End KeyValueLine.

(** ** The leading marker and the words of a line *)

Section LineShape.

Implicit Types (s t w : str) (ws : list str).

(** The continuation of a match is only called on a suffix of the
    subject: a match whose continuation fails on every suffix fails. *)
Lemma rep_loop_dead (body : nat -> str -> caps -> kont -> result) :
  (forall pos s c (k' : kont),
     (forall pos' s' c', suffix s' s -> k' pos' s' c' = None) ->
     body pos s c k' = None) ->
  forall n g lo hi (k : kont) cnt pos s c,
    (forall pos' s' c', suffix s' s -> k pos' s' c' = None) ->
    rep_loop body g lo hi k n cnt pos s c = None.
Proof.
  intros Hbody. induction n as [|n IH]; intros g lo hi k cnt pos s c Hk;
    [reflexivity|].
  assert (body pos s c
            (fun pos' s' c' =>
               if (length s' <? length s)%nat
               then rep_loop body g lo hi k n (S cnt) pos' s' c'
               else None) = None) as B.
  { apply Hbody. intros pos' s' c' Hs.
    destruct (length s' <? length s)%nat; [|reflexivity].
    apply IH. intros p2 s2 c2 H2. apply Hk. now transitivity s'. }
  assert (k pos s c = None) as K by (now apply Hk).
  cbn [rep_loop]. rewrite B, K.
  destruct g, (below cnt hi), (lo <=? cnt)%nat; reflexivity.
Qed.

Lemma mt_dead r : forall fuel pos s c (k : kont),
  (forall pos' s' c', suffix s' s -> k pos' s' c' = None) ->
  mt r fuel pos s c k = None.
Proof.
  induction r as [|p|a IHa b IHb|a IHa b IHb|g lo hi a IHa|i a IHa| | |a IHa];
    intros fuel pos s c k Hk; cbn [mt].
  - now apply Hk.
  - destruct s as [|x s']; [reflexivity|]. destruct (p x); [|reflexivity].
    apply Hk. now exists [x].
  - apply IHa. intros pos' s' c' Hs. apply IHb.
    intros p2 s2 c2 H2. apply Hk. now transitivity s'.
  - rewrite IHa by exact Hk. now apply IHb.
  - apply rep_loop_dead; [|exact Hk].
    intros p1 s1 c1 k' Hk'. now apply IHa.
  - apply IHa. intros pos' s' c' Hs. now apply Hk.
  - destruct (pos =? 0)%nat; [now apply Hk|reflexivity].
  - destruct s as [|x [|y s']]; [now apply Hk| |reflexivity].
    destruct (x =? LF); [now apply Hk|reflexivity].
  - destruct (mt a fuel pos s c _) as [[[? ?] c']|]; [now apply Hk|reflexivity].
Qed.

(** [KEY_VALUE_PAT] matches no line without delimiter. *)
Lemma key_value_needs_delimiter s :
  Forall (fun c => delimiter c = false) s ->
  rmatch Alias.KEY_VALUE_PAT s = None.
Proof.
  intros F. unfold rmatch, match_at, Alias.KEY_VALUE_PAT. cbn [seq].
  rewrite mt_cat, mt_dead; [reflexivity|].
  intros p1 s1 c1 H1. rewrite mt_cat. apply mt_dead.
  intros p2 s2 c2 H2. rewrite mt_cat. apply mt_dead.
  intros p3 s3 c3 H3. rewrite mt_cat, mt_cls. unfold cls_body.
  destruct s3 as [|x s3']; [reflexivity|].
  assert (suffix (x :: s3') s) as [pre E]
    by (transitivity s2; [assumption|]; now transitivity s1).
  rewrite E in F. apply Forall_app in F as [_ F].
  inversion F as [|? ? Hx _]; subst. now rewrite Hx.
Qed.

Lemma mt_bos fuel s c (k : kont) : mt Bos fuel 0 s c k = k 0%nat s c.
Proof. reflexivity. Qed.

(** Removal of the leading marker *)
Lemma leading_marked (q : N -> bool) (m x : N) sp0 r :
  q m = true -> Forall (fun c => isspace c = true) sp0 -> isspace x = false ->
  Re.sub (Cat Bos (Cat (Cls q) (star ws))) [] (m :: sp0 ++ x :: r) = x :: r.
Proof.
  intros Hm F Sx. unfold Re.sub. cbn [length sub_from].
  destruct (takewhile_app_stop isspace sp0 x r F Sx) as [T D].
  assert (match_at (Cat Bos (Cat (Cls q) (star ws))) 0 (m :: sp0 ++ x :: r)
          = Some (S (length sp0), [])) as ->.
  { unfold match_at. rewrite mt_cat, mt_bos, mt_cat, mt_cls.
    unfold cls_body at 1. rewrite Hm. unfold star, ws. rewrite mt_rep_cls.
    rewrite (rep_cls_max isspace 0 accept (S (length sp0), x :: r, []));
      [reflexivity|simpl; lia|lia|].
    rewrite T, D. reflexivity. }
  cbn [Nat.ltb Nat.leb app]. rewrite Nat.sub_0_r.
  change (drop (S (length sp0)) (m :: sp0 ++ x :: r))
    with (drop (length sp0) (sp0 ++ x :: r)).
  rewrite drop_app_length. apply sub_from_anchored.
Qed.

Lemma leading_unmarked (q : N -> bool) (x : N) r :
  q x = false ->
  Re.sub (Cat Bos (Cat (Cls q) (star ws))) [] (x :: r) = x :: r.
Proof.
  intros Hx. unfold Re.sub. cbn [length sub_from].
  assert (match_at (Cat Bos (Cat (Cls q) (star ws))) 0 (x :: r) = None) as ->.
  { unfold match_at. rewrite mt_cat, mt_bos, mt_cat, mt_cls.
    unfold cls_body at 1. now rewrite Hx. }
  now rewrite sub_from_anchored.
Qed.

(** What stands in front of the key or the header of a line: nothing, or
    a marker and whitespace. *)
Definition lead_of (marker : N -> bool) (lead head : str) : Prop :=
  (lead = [] /\ forall c r, head = c :: r -> marker c = false)
  \/ exists m sp0, lead = m :: sp0 /\ marker m = true
                   /\ Forall (fun c => isspace c = true) sp0.

Lemma leading_removed (marker : N -> bool) lead (x : N) r :
  lead_of marker lead (x :: r) -> isspace x = false ->
  Re.sub (Cat Bos (Cat (Cls marker) (star ws))) [] (lead ++ x :: r) = x :: r.
Proof.
  intros [[-> H]|(m & sp0 & -> & Hm & F)] Sx.
  - apply leading_unmarked. now apply (H x r).
  - now apply leading_marked.
Qed.

Lemma lead_of_head (mk : N -> bool) lead (x : N) r r' :
  lead_of mk lead (x :: r) -> lead_of mk lead (x :: r').
Proof.
  intros [[-> H]|H]; [left|now right].
  split; [reflexivity|]. intros c t [= <- _]. now apply (H x r).
Qed.

(** A word: not empty, without whitespace. *)
Definition word (w : str) : Prop :=
  w <> [] /\ Forall (fun c => isspace c = false) w.

Lemma words_from_word w : forall cur rest,
  Forall (fun c => isspace c = false) w ->
  words_from cur (w ++ rest) = words_from (cur ++ w) rest.
Proof.
  induction w as [|c w IH]; intros cur rest H.
  - now rewrite app_nil_r.
  - inversion H as [|? ? Hc Hw]; subst. cbn [app words_from]. rewrite Hc.
    rewrite IH by exact Hw. now rewrite <- app_assoc.
Qed.

Lemma words_join ws : Forall word ws -> words (join [SP] ws) = ws.
Proof.
  induction 1 as [|w ws [N F] _ IH]; [reflexivity|].
  unfold words in *. cbn [join]. destruct ws as [|w' ws'].
  - rewrite <- (app_nil_r w) at 1. rewrite words_from_word by exact F.
    cbn [app words_from]. destruct w; [contradiction|reflexivity].
  - rewrite words_from_word by exact F. cbn [app words_from].
    change (isspace SP) with true. cbv iota.
    destruct w; [contradiction|]. cbn [is_nil]. now rewrite IH.
Qed.

Lemma word_tidy w : word w -> tidy w /\ w <> [].
Proof.
  intros [N F]. split; [|exact N]. unfold tidy, strip, lstrip, rstrip.
  now rewrite (rdropwhile_none _ _ F), (dropwhile_none _ _ F).
Qed.

Lemma join_words_tidy ws :
  Forall word ws -> ws <> [] -> tidy (join [SP] ws) /\ join [SP] ws <> [].
Proof.
  induction 1 as [|w ws Hw _ IH]; intros N; [contradiction|].
  destruct (word_tidy w Hw) as [Tw Nw]. cbn [join].
  destruct ws as [|w' ws']; [now split|].
  destruct IH as [Tj Nj]; [discriminate|]. split.
  - now apply tidy_glue.
  - destruct w; [contradiction|discriminate].
Qed.

Lemma strip_space_front t : tidy t -> strip (SP :: t) = t.
Proof.
  intros T. destruct t as [|c r]; [reflexivity|].
  destruct (tidy_last_char (c :: r) T) as (u & z & E & Sz); [discriminate|].
  destruct (tidy_first_char (c :: r) T) as (x & r' & Ex & Sx); [discriminate|].
  injection Ex as <- <-.
  unfold strip, lstrip, rstrip. rewrite E.
  change (SP :: u ++ [z]) with ((SP :: u) ++ [z]).
  rewrite rdropwhile_id by exact Sz. cbn [app dropwhile].
  change (isspace SP) with true. cbv iota. rewrite <- E.
  now apply dropwhile_id.
Qed.

(** The rest of a line behind its first [i] words. *)
Lemma rest_behind_words ws (i : nat) :
  Forall word ws -> (0 < i <= length ws)%nat ->
  strip (drop (length (join [SP] (take i ws))) (join [SP] ws))
  = join [SP] (drop i ws).
Proof.
  intros F Hi.
  assert (Forall word (take i ws) /\ Forall word (drop i ws)) as [Ft Fd].
  { rewrite <- (take_drop i ws) in F. now apply Forall_app in F. }
  assert (take i ws <> []) as Nt.
  { destruct ws; [simpl in Hi; lia|]. destruct i; [lia|discriminate]. }
  destruct (drop i ws) as [|d ds] eqn:E.
  - rewrite <- (take_drop i ws) at 2. rewrite E, app_nil_r.
    now rewrite drop_all.
  - rewrite <- (take_drop i ws) at 2. rewrite E.
    rewrite join_app by (assumption || discriminate).
    rewrite drop_app_length. cbn [app].
    apply strip_space_front. apply join_words_tidy; [exact Fd|discriminate].
Qed.

End LineShape.

(** ** What the alias-table accumulator makes of a line *)

Section AliasLine.

Variable KEY_ALIAS : list (str * string).
Variable marker : N -> bool.
Variable BULLET_PREFIXES : list str.

Abbreviation LEADING := (Cat Bos (Cat (Cls marker) (star ws))).
Abbreviation step := (Alias.step KEY_ALIAS LEADING BULLET_PREFIXES).

Hypothesis table_range : Forall (fun e => In (snd e) alias_columns) KEY_ALIAS.

Implicit Types (st : Alias.acc) (raw text key value : str) (ws : list str).

(** A line made of a key, a delimiter and a value, behind the marker when
    there is one. *)
Definition key_value_line (mk : N -> bool) (text key value : str) : Prop :=
  exists lead sp1 d sp2,
    text = lead ++ key ++ sp1 ++ d :: sp2 ++ value
    /\ lead_of mk lead key
    /\ Forall (fun c => isspace c = true) sp1 /\ delimiter d = true
    /\ Forall (fun c => isspace c = true) sp2
    /\ key <> [] /\ tidy key
    /\ Forall (fun c => delimiter c = false /\ (c =? LF) = false) key
    /\ value <> [] /\ tidy value /\ Forall (fun c => (c =? LF) = false) value.

(** A line of words, separated by single blanks and without delimiter,
    behind the marker when there is one. *)
Definition plain_line (mk : N -> bool) (text : str) (ws : list str) : Prop :=
  exists lead,
    text = lead ++ join [SP] ws
    /\ lead_of mk lead (join [SP] ws)
    /\ ws <> [] /\ Forall word ws
    /\ Forall (fun w => Forall (fun c => delimiter c = false) w) ws.

Lemma column_not_empty (k : string) : In k alias_columns -> String.eqb k "" = false.
Proof.
  unfold alias_columns. cbn [In].
  intros [<-|[<-|[<-|[<-|[<-|[<-|[<-|[<-|[]]]]]]]]]; reflexivity.
Qed.

Lemma step_key_value st raw key value (k : string) :
  key_value_line marker (strip (remove ZERO_WIDTH raw)) key value ->
  Alias.alias_get KEY_ALIAS (Alias.normalize_key key) = Some k ->
  step st raw
  = Alias.Acc
      (Alias.append_field (Alias.fields st) k
         (if String.eqb k "contact" then Alias.contact_value value else value))
      (Some k).
Proof.
  intros (lead & sp1 & d & sp2 & E & L & F1 & Hd & F2 & Nk & Tk & Fk & Nv & Tv & Fv) A.
  destruct (tidy_first_char key Tk Nk) as (x & kr & Ek & Sx).
  unfold Alias.step. rewrite E.
  assert (is_nil (lead ++ key ++ sp1 ++ d :: sp2 ++ value) = false) as ->.
  { rewrite Ek. now destruct lead. }
  assert (Re.sub LEADING [] (lead ++ key ++ sp1 ++ d :: sp2 ++ value)
          = key ++ sp1 ++ d :: sp2 ++ value) as ->.
  { rewrite Ek in *. cbn [app].
    apply leading_removed; [|exact Sx]. eapply lead_of_head, L. }
  unfold Alias.key_value.
  destruct (key_value_match key sp1 d sp2 value Nk Tk Fk F1 Hd F2 Nv Tv Fv)
    as (e & g & -> & -> & ->).
  rewrite Tk, Tv, A. cbn [Alias.section].
  now rewrite (column_not_empty k (alias_get_range KEY_ALIAS table_range _ _ A)).
Qed.

Lemma scan_from_found ws head (i : nat) (k : string) : forall n,
  (0 < i <= n)%nat ->
  Alias.alias_get KEY_ALIAS (Alias.normalize_key (join [SP] (take i ws))) = Some k ->
  (forall j, (i < j <= n)%nat ->
     Alias.alias_get KEY_ALIAS (Alias.normalize_key (join [SP] (take j ws))) = None) ->
  Alias.scan_from KEY_ALIAS n ws head
  = Some (k, strip (drop (length (join [SP] (take i ws))) head)).
Proof.
  induction n as [|n IH]; intros Hi A Hn; [lia|].
  cbn [Alias.scan_from]. destruct (Nat.eq_dec i (S n)) as [->|Hne].
  - now rewrite A.
  - rewrite (Hn (S n)) by lia. apply IH; [lia|exact A|].
    intros j Hj. apply Hn. lia.
Qed.

Lemma scan_from_none ws head : forall n,
  (forall j, (0 < j <= n)%nat ->
     Alias.alias_get KEY_ALIAS (Alias.normalize_key (join [SP] (take j ws))) = None) ->
  Alias.scan_from KEY_ALIAS n ws head = None.
Proof.
  induction n as [|n IH]; intros Hn; [reflexivity|].
  cbn [Alias.scan_from]. rewrite (Hn (S n)) by lia.
  apply IH. intros j Hj. apply Hn. lia.
Qed.

Lemma join_no_delimiter ws :
  Forall (fun w => Forall (fun c => delimiter c = false) w) ws ->
  Forall (fun c => delimiter c = false) (join [SP] ws).
Proof.
  induction 1 as [|w ws Hw _ IH]; [constructor|]. cbn [join].
  destruct ws; [exact Hw|].
  apply Forall_app. split; [exact Hw|]. now constructor.
Qed.

Lemma plain_line_head text ws st raw :
  strip (remove ZERO_WIDTH raw) = text -> plain_line marker text ws ->
  exists x r,
    text = x :: r
    /\ step st raw
       = match Alias.scan_from KEY_ALIAS (length ws) ws (join [SP] ws) with
         | Some (k_std, rest) =>
           Alias.Acc (if is_nil rest then Alias.fields st
                      else Alias.append_field (Alias.fields st) k_std rest)
                     (Some k_std)
         | None =>
           Alias.Acc
             (Alias.append_field (Alias.fields st)
                (default "content"%string
                   (Alias.section (Alias.current_section st))) text)
             (Alias.current_section st)
         end.
Proof.
  intros E (lead & -> & L & N & F & D).
  destruct (join_words_tidy ws F N) as [Tj Nj].
  destruct (tidy_first_char _ Tj Nj) as (x & r & Ej & Sx).
  assert (exists y t, lead ++ join [SP] ws = y :: t) as (y & t & Et).
  { rewrite Ej. destruct lead; simpl; eauto. }
  exists y, t. split; [exact Et|].
  unfold Alias.step. rewrite E, Et. cbn [is_nil]. rewrite <- Et.
  assert (Re.sub LEADING [] (lead ++ join [SP] ws) = join [SP] ws) as ->.
  { rewrite Ej in *. now apply leading_removed. }
  unfold Alias.key_value.
  rewrite (key_value_needs_delimiter _ (join_no_delimiter ws D)).
  unfold Alias.scan. rewrite (words_join ws F).
  destruct (Alias.scan_from _ _ _ _) as [[k rest]|]; [reflexivity|].
  now destruct (_ || _).
Qed.

Lemma step_header st raw ws (i : nat) (k : string) :
  plain_line marker (strip (remove ZERO_WIDTH raw)) ws ->
  (0 < i <= length ws)%nat ->
  Alias.alias_get KEY_ALIAS (Alias.normalize_key (join [SP] (take i ws))) = Some k ->
  (forall j, (i < j <= length ws)%nat ->
     Alias.alias_get KEY_ALIAS (Alias.normalize_key (join [SP] (take j ws))) = None) ->
  step st raw
  = Alias.Acc (Alias.append_field (Alias.fields st) k (join [SP] (drop i ws)))
              (Some k).
Proof.
  intros P Hi A Hn.
  destruct (plain_line_head _ ws st raw eq_refl P) as (x & r & _ & ->).
  rewrite (scan_from_found ws _ i k (length ws) Hi A Hn).
  destruct P as (lead & _ & _ & _ & F & _).
  rewrite (rest_behind_words ws i F Hi).
  now destruct (join [SP] (drop i ws)).
Qed.

Lemma step_plain st raw ws :
  plain_line marker (strip (remove ZERO_WIDTH raw)) ws ->
  (forall j, (0 < j <= length ws)%nat ->
     Alias.alias_get KEY_ALIAS (Alias.normalize_key (join [SP] (take j ws))) = None) ->
  step st raw
  = Alias.Acc
      (Alias.append_field (Alias.fields st)
         (default "content"%string (Alias.section (Alias.current_section st)))
         (strip (remove ZERO_WIDTH raw)))
      (Alias.current_section st).
Proof.
  intros P Hn.
  destruct (plain_line_head _ ws st raw eq_refl P) as (x & r & _ & ->).
  now rewrite (scan_from_none ws _ (length ws) Hn).
Qed.

End AliasLine.

(** X3: the first branch of [parse_detail_lines_to_fields] of pr-1.py and
    pr-2.py.  A line that is made of a key, a delimiter (a colon or a dash,
    with whitespace around it or not) and a value, behind the marker of the
    script or without marker, where the key holds no delimiter and its
    normalization is an alias, stores the value under the canonical key of
    the alias and opens that section.  The value is stored as it is, but
    for [contact], where it is cut as a contact value. *)
Theorem key_value_line_is_stored :
  forall (st : Alias.acc) (raw key value : str) (k : string),
    (key_value_line (N.eqb 0x3147) (strip (remove ZERO_WIDTH raw)) key value ->
     Alias.alias_get Pr1.KEY_ALIAS (Pr1.normalize_key key) = Some k ->
     Pr1.step st raw
     = Alias.Acc
         (Pr1.append_field (Alias.fields st) k
            (if String.eqb k "contact" then Alias.contact_value value else value))
         (Some k))
    /\ (key_value_line (fun c => mem c (U "ㅇ○"))
          (strip (remove ZERO_WIDTH raw)) key value ->
        Alias.alias_get Pr2.KEY_ALIAS (Pr2.normalize_key key) = Some k ->
        Pr2.step st raw
        = Alias.Acc
            (Pr2.append_field (Alias.fields st) k
               (if String.eqb k "contact" then Alias.contact_value value
                else value))
            (Some k)).
Proof.
  intros st raw key value k. split; intros H A.
  - exact (step_key_value Pr1.KEY_ALIAS (N.eqb 0x3147) Pr1.BULLET_PREFIXES
             pr1_table_range st raw key value k H A).
  - exact (step_key_value Pr2.KEY_ALIAS (fun c => mem c (U "ㅇ○"))
             Pr2.BULLET_PREFIXES pr2_table_range st raw key value k H A).
Qed.

Lemma key_value_line_is_stored_witness :
  Pr1.step Alias.init (U "ㅇ 지원 대상 -  등록외국인: 전체")
  = Alias.Acc (Pr1.append_field ∅ "target" (U "등록외국인: 전체"))
              (Some "target"%string).
Proof.
  refine (proj1 (key_value_line_is_stored Alias.init
                   (U "ㅇ 지원 대상 -  등록외국인: 전체")
                   (U "지원 대상") (U "등록외국인: 전체") "target") _ _).
  - exists (U "ㅇ "), [SP], 45, [SP; SP].
    split; [vm_compute; reflexivity|].
    split; [right; exists 0x3147, [SP]; repeat split; repeat constructor|].
    split; [repeat constructor|]. split; [reflexivity|].
    split; [repeat constructor|]. split; [discriminate|].
    split; [vm_compute; reflexivity|].
    split; [vm_compute; repeat constructor|].
    split; [discriminate|]. split; [vm_compute; reflexivity|].
    vm_compute. repeat constructor.
  - vm_compute. reflexivity.
Defined.

(** X4: the other branches of [parse_detail_lines_to_fields] of pr-1.py and
    pr-2.py, for a line of words that are separated by single blanks and
    hold no delimiter.  When the first [i] words are an alias and no longer
    run of first words is one, the line opens the section of that alias and
    the words behind the header are appended to it.  When no run of first
    words is an alias, the whole line, marker included, is appended to the
    open section, or to [content] when none is open. *)
Theorem line_without_delimiter :
  forall (st : Alias.acc) (raw : str) (ws : list str),
    let first_words := fun j : nat => join [SP] (take j ws) in
    (plain_line (N.eqb 0x3147) (strip (remove ZERO_WIDTH raw)) ws ->
     (forall (i : nat) (k : string),
        (0 < i <= length ws)%nat ->
        Alias.alias_get Pr1.KEY_ALIAS (Pr1.normalize_key (first_words i)) = Some k ->
        (forall j, (i < j <= length ws)%nat ->
           Alias.alias_get Pr1.KEY_ALIAS (Pr1.normalize_key (first_words j)) = None) ->
        Pr1.step st raw
        = Alias.Acc (Pr1.append_field (Alias.fields st) k (join [SP] (drop i ws)))
                    (Some k))
     /\ ((forall j, (0 < j <= length ws)%nat ->
            Alias.alias_get Pr1.KEY_ALIAS (Pr1.normalize_key (first_words j)) = None) ->
         Pr1.step st raw
         = Alias.Acc
             (Pr1.append_field (Alias.fields st)
                (default "content"%string
                   (Alias.section (Alias.current_section st)))
                (strip (remove ZERO_WIDTH raw)))
             (Alias.current_section st)))
    /\ (plain_line (fun c => mem c (U "ㅇ○")) (strip (remove ZERO_WIDTH raw)) ws ->
        (forall (i : nat) (k : string),
           (0 < i <= length ws)%nat ->
           Alias.alias_get Pr2.KEY_ALIAS (Pr2.normalize_key (first_words i)) = Some k ->
           (forall j, (i < j <= length ws)%nat ->
              Alias.alias_get Pr2.KEY_ALIAS (Pr2.normalize_key (first_words j))
              = None) ->
           Pr2.step st raw
           = Alias.Acc (Pr2.append_field (Alias.fields st) k (join [SP] (drop i ws)))
                       (Some k))
        /\ ((forall j, (0 < j <= length ws)%nat ->
               Alias.alias_get Pr2.KEY_ALIAS (Pr2.normalize_key (first_words j))
               = None) ->
            Pr2.step st raw
            = Alias.Acc
                (Pr2.append_field (Alias.fields st)
                   (default "content"%string
                      (Alias.section (Alias.current_section st)))
                   (strip (remove ZERO_WIDTH raw)))
                (Alias.current_section st))).
Proof.
  intros st raw ws first_words. split; intros P; split.
  - intros i k Hi A Hn.
    exact (step_header Pr1.KEY_ALIAS (N.eqb 0x3147) Pr1.BULLET_PREFIXES
             st raw ws i k P Hi A Hn).
  - intros Hn.
    exact (step_plain Pr1.KEY_ALIAS (N.eqb 0x3147) Pr1.BULLET_PREFIXES
             st raw ws P Hn).
  - intros i k Hi A Hn.
    exact (step_header Pr2.KEY_ALIAS (fun c => mem c (U "ㅇ○"))
             Pr2.BULLET_PREFIXES st raw ws i k P Hi A Hn).
  - intros Hn.
    exact (step_plain Pr2.KEY_ALIAS (fun c => mem c (U "ㅇ○"))
             Pr2.BULLET_PREFIXES st raw ws P Hn).
Qed.

Lemma line_without_delimiter_witness :
  Pr1.step Alias.init (U "ㅇ 주요 내용 ☞ 건강검진 지원")
  = Alias.Acc (Pr1.append_field ∅ "content" (U "☞ 건강검진 지원"))
              (Some "content"%string).
Proof.
  refine (proj1 (proj1 (line_without_delimiter Alias.init
                          (U "ㅇ 주요 내용 ☞ 건강검진 지원")
                          [U "주요"; U "내용"; U "☞"; U "건강검진"; U "지원"]) _)
            2%nat "content"%string _ _ _).
  - exists (U "ㅇ "). split; [vm_compute; reflexivity|].
    split; [right; exists 0x3147, [SP]; repeat split; repeat constructor|].
    split; [discriminate|].
    split; vm_compute; repeat constructor; discriminate.
  - simpl. lia.
  - vm_compute. reflexivity.
  - intros j Hj. simpl in Hj.
    assert (j = 3 \/ j = 4 \/ j = 5)%nat as [->|[->| ->]] by lia;
      vm_compute; reflexivity.
Defined.

(** Two blanks between the words of a header: the rest of the line is cut
    by the length of the header with single blanks, and the end of the
    header is stored with it. *)
Example header_with_two_blanks :
  Pr1.parse_detail_lines_to_fields [U "ㅇ 신청  방법 온라인"]
    !! "application_method"%string
  = Some (U "법 온라인").
Proof. vm_compute. reflexivity. Qed.

(** ** The value of a contact line *)

Section ContactValue.

Implicit Types (s t v tok : str) (r : regex).




(** A literal matches where the subject starts with it. *)
Lemma mt_lit tok : forall fuel pos s c (k : kont),
  startswith tok s = true ->
  mt (lit tok) fuel pos s c k
  = k (pos + length tok)%nat (drop (length tok) s) c.
Proof.
  unfold lit. induction tok as [|a tok IH]; intros fuel pos s c k H.
  - cbn [map seq mt length drop]. now rewrite Nat.add_0_r.
  - destruct s as [|x s]; [discriminate H|]. cbn [startswith] in H.
    apply andb_prop in H as [Ha H]. apply N.eqb_eq in Ha as <-.
    assert (mt (seq (map chr (a :: tok))) fuel pos (a :: s) c k
            = mt (seq (map chr tok)) fuel (S pos) s c k) as ->.
    { cbn [map seq]. destruct (map chr tok) eqn:M.
      - unfold chr. cbn [mt seq]. now rewrite N.eqb_refl.
      - rewrite mt_cat. unfold chr at 1. rewrite mt_cls. unfold cls_body.
        now rewrite N.eqb_refl. }
    rewrite IH by exact H. cbn [length drop].
    now rewrite <- Nat.add_succ_comm.
Qed.





Lemma startswith_app_l tok s t :
  startswith tok s = true -> startswith tok (s ++ t) = true.
Proof.
  intros H. apply startswith_spec in H as [r ->].
  rewrite <- app_assoc. apply startswith_app.
Qed.






End ContactValue.



(** ** The noise patterns and the cut pattern *)

Section NoisePatterns.

Implicit Types (s t u v w tok : str) (k : kont) (r : regex).

Lemma stop_some (lo cnt : nat) (res : result) :
  (if (lo <=? cnt)%nat then res else None) <> None
  <-> (lo <= cnt)%nat /\ res <> None.
Proof.
  destruct (lo <=? cnt)%nat eqn:E.
  - apply Nat.leb_le in E. tauto.
  - apply Nat.leb_gt in E. split; [congruence|]. intros [H _]. lia.
Qed.

(** One iteration of an unbounded repetition of a character class, greedy
    or lazy: it succeeds when it stops here or goes on. *)
Lemma rep_cls_step (p : N -> bool) (g : bool) lo k n cnt pos (x : N) s c :
  rep_loop (cls_body p) g lo None k (S n) cnt pos (x :: s) c <> None
  <-> ((lo <= cnt)%nat /\ k pos (x :: s) c <> None)
      \/ (p x = true
          /\ rep_loop (cls_body p) g lo None k n (S cnt) (S pos) s c <> None).
Proof.
  rewrite <- stop_some.
  destruct g; [rewrite rep_cls_unfold|rewrite lazy_cls_unfold];
    destruct (p x);
    destruct (rep_loop (cls_body p) _ lo None k n (S cnt) (S pos) s c);
    destruct (if (lo <=? cnt)%nat then k pos (x :: s) c else None);
    split; intros H; try discriminate;
    try (destruct H as [H|[H1 H2]]; congruence);
    try (left; discriminate); try (right; split; [reflexivity|discriminate]);
    congruence.
Qed.

Lemma rep_cls_end (p : N -> bool) (g : bool) lo k n cnt pos c :
  rep_loop (cls_body p) g lo None k (S n) cnt pos [] c <> None
  <-> (lo <= cnt)%nat /\ k pos [] c <> None.
Proof.
  rewrite <- stop_some.
  destruct g; [rewrite rep_cls_unfold|rewrite lazy_cls_unfold];
    [reflexivity|].
  destruct (if (lo <=? cnt)%nat then k pos [] c else None);
    split; congruence.
Qed.

(** An unbounded repetition of a character class succeeds exactly when
    the continuation succeeds behind some run of the class. *)
Lemma rep_cls_some (p : N -> bool) (g : bool) lo k : forall s n cnt pos c,
  (length s < n)%nat ->
  rep_loop (cls_body p) g lo None k n cnt pos s c <> None
  <-> exists m, (m <= length s)%nat /\ (lo <= cnt + m)%nat
        /\ Forall (fun x => p x = true) (take m s)
        /\ k (pos + m)%nat (drop m s) c <> None.
Proof.
  induction s as [|x s IH]; intros n cnt pos c Hn;
    (destruct n as [|n]; [simpl in Hn; lia|]).
  - rewrite rep_cls_end. split.
    + intros [H1 H2]. exists 0%nat. rewrite !Nat.add_0_r.
      split; [simpl; lia|]. split; [exact H1|]. split; [constructor|exact H2].
    + intros (m & Hm & Hlo & _ & Hk). simpl in Hm.
      assert (m = 0%nat) as -> by lia. rewrite !Nat.add_0_r in *.
      split; assumption.
  - rewrite rep_cls_step, (IH n (S cnt) (S pos) c) by (simpl in Hn; lia).
    split.
    + intros [[H1 H2]|(Hx & m & Hm & Hlo & F & Hk)].
      * exists 0%nat. rewrite !Nat.add_0_r.
        split; [simpl; lia|]. split; [exact H1|]. split; [constructor|exact H2].
      * exists (S m). split; [simpl; lia|]. split; [lia|].
        split; [now constructor|]. now rewrite <- Nat.add_succ_comm.
    + intros (m & Hm & Hlo & F & Hk). destruct m as [|m].
      * left. rewrite !Nat.add_0_r in *. split; assumption.
      * right. cbn [take] in F. inversion F as [|? ? Hx F']; subst.
        split; [exact Hx|]. exists m. split; [simpl in Hm; lia|].
        split; [lia|]. split; [exact F'|]. now rewrite Nat.add_succ_comm.
Qed.

Lemma alt_some (a b : regex) fuel pos s c k :
  mt (Alt a b) fuel pos s c k <> None
  <-> mt a fuel pos s c k <> None \/ mt b fuel pos s c k <> None.
Proof.
  cbn [mt]. destruct (mt a fuel pos s c k); split; intros H;
    try (left; discriminate); try discriminate; try (now right).
  destruct H as [H|H]; [contradiction|exact H].
Qed.

Lemma chr_some (a : N) fuel pos s c k :
  mt (chr a) fuel pos s c k <> None
  <-> exists v, s = a :: v /\ k (S pos) v c <> None.
Proof.
  unfold chr. rewrite mt_cls. unfold cls_body.
  destruct s as [|x s']; [split; [congruence|now intros (v & E & _)]|].
  destruct (N.eqb_spec a x) as [<-|Hx].
  - split; [eauto|]. now intros (v & [= <-] & H).
  - split; [congruence|]. intros (v & [= E _] & _). congruence.
Qed.

(** A literal does not match where the subject does not start with it. *)
Lemma mt_lit_none tok : forall fuel pos s c k,
  startswith tok s = false -> mt (lit tok) fuel pos s c k = None.
Proof.
  unfold lit. induction tok as [|a tok IH]; intros fuel pos s c k H;
    [discriminate H|].
  assert (mt (seq (map chr (a :: tok))) fuel pos s c k
          = mt (chr a) fuel pos s c
              (fun pos' s' c' => mt (seq (map chr tok)) fuel pos' s' c' k)) as ->.
  { cbn [map seq]. destruct (map chr tok) eqn:M; [|reflexivity].
    unfold chr. now rewrite !mt_cls. }
  unfold chr. rewrite mt_cls. unfold cls_body.
  destruct s as [|x s']; [reflexivity|]. cbn [startswith] in H.
  destruct (a =? x); [|reflexivity]. now apply IH.
Qed.

Lemma lit_some tok fuel pos s c k :
  mt (lit tok) fuel pos s c k <> None
  <-> startswith tok s = true
      /\ k (pos + length tok)%nat (drop (length tok) s) c <> None.
Proof.
  destruct (startswith tok s) eqn:E.
  - rewrite mt_lit by exact E. tauto.
  - rewrite mt_lit_none by exact E. split; [congruence|]. now intros [? _].
Qed.

(** A bracketed tag: an opening bracket, at least [lo] characters of one
    line, a closing bracket. *)
Definition bracket_tag (lo : nat) (s : str) : Prop :=
  exists u v,
    s = 91 :: u ++ 93 :: v /\ (lo <= length u)%nat
    /\ Forall (fun c => c <> LF) u.

(** The survey wordings *)
Definition survey_word (s : str) : Prop :=
  startswith (U "해당 메뉴에 대한 만족도") s = true
  \/ startswith (U "보통") s = true
  \/ exists sp v,
       Forall (fun c => isspace c = true) sp
       /\ (s = U "아주" ++ sp ++ U "만족" ++ v
           \/ s = U "아주" ++ sp ++ U "불만" ++ v).

(** Where a noise pattern starts, and where the cut pattern starts. *)
Definition noise_at (s : str) : Prop := bracket_tag 1 s \/ survey_word s.
Definition cut_at (s : str) : Prop := bracket_tag 0 s \/ survey_word s.

Lemma tag_some (lo : nat) (K : regex) (n pos : nat) s :
  (length s < S n)%nat ->
  (forall pos' s', (length s' < S n)%nat ->
     mt K (S n) pos' s' [] accept <> None <-> exists v, s' = 93 :: v) ->
  mt (Cat (chr 91) (Cat (Rep false lo None dot) K)) (S n) pos s [] accept
  <> None
  <-> bracket_tag lo s.
Proof.
  intros Hn HK. rewrite mt_cat, chr_some. unfold dot. split.
  - intros (s1 & -> & H). rewrite mt_cat, mt_rep_cls in H.
    apply rep_cls_some in H as (m & Hm & Hlo & F & Hk); [|simpl in Hn; lia].
    apply HK in Hk as [v D];
      [|rewrite length_drop; simpl in Hn; lia].
    exists (take m s1), v. split; [|split].
    + now rewrite <- D, take_drop.
    + rewrite length_take. lia.
    + eapply Forall_impl; [exact F|]. intros c Hc ->. discriminate Hc.
  - intros (u & v & -> & Hlo & F). exists (u ++ 93 :: v).
    split; [reflexivity|]. rewrite mt_cat, mt_rep_cls.
    rewrite length_cons in Hn.
    apply rep_cls_some; [lia|]. exists (length u).
    rewrite take_app_length, drop_app_length.
    split; [rewrite length_app; lia|]. split; [lia|]. split.
    + eapply Forall_impl; [exact F|]. intros c Hc.
      destruct (N.eqb_spec c LF); [contradiction|reflexivity].
    + apply HK; [|eauto]. rewrite length_app in Hn. simpl in *. lia.
Qed.

Lemma spaced_words_some (a b : str) (n pos : nat) s :
  (length s < S n)%nat ->
  mt (Cat (lit a) (Cat (star ws) (lit b))) (S n) pos s [] accept <> None
  <-> exists sp v,
        Forall (fun c => isspace c = true) sp /\ s = a ++ sp ++ b ++ v.
Proof.
  intros Hn. rewrite mt_cat, lit_some. unfold star, ws. split.
  - intros (Ha & H). apply startswith_spec in Ha as [s1 ->].
    rewrite drop_app_length, mt_cat, mt_rep_cls in H.
    rewrite length_app in Hn.
    apply rep_cls_some in H as (m & Hm & _ & F & Hk); [|lia].
    apply lit_some in Hk as [Hb _]. apply startswith_spec in Hb as [v D].
    exists (take m s1), v. split; [exact F|].
    now rewrite <- D, take_drop.
  - intros (sp & v & F & ->). split; [apply startswith_app|].
    rewrite drop_app_length, mt_cat, mt_rep_cls.
    rewrite !length_app in Hn.
    apply rep_cls_some; [rewrite !length_app; lia|]. exists (length sp).
    rewrite take_app_length, drop_app_length.
    split; [rewrite length_app; lia|]. split; [lia|]. split; [exact F|].
    apply lit_some. split; [apply startswith_app|discriminate].
Qed.

(** The shape of both patterns *)
Definition noise_shape (T : regex) (w1 a b1 w2 b2 : str) : regex :=
  Alt T
    (Alt (lit w1)
       (Alt (Cat (lit a) (Cat (star ws) (lit b1)))
          (Alt (lit w2) (Cat (lit a) (Cat (star ws) (lit b2)))))).

Lemma noise_shape_some (T : regex) (P : Prop) (w1 a b1 w2 b2 : str)
  (n pos : nat) s :
  (length s < S n)%nat ->
  (mt T (S n) pos s [] accept <> None <-> P) ->
  mt (noise_shape T w1 a b1 w2 b2) (S n) pos s [] accept <> None
  <-> P \/ (startswith w1 s = true
            \/ startswith w2 s = true
            \/ exists sp v,
                 Forall (fun c => isspace c = true) sp
                 /\ (s = a ++ sp ++ b1 ++ v \/ s = a ++ sp ++ b2 ++ v)).
Proof.
  intros Hn HT. unfold noise_shape.
  rewrite !alt_some, HT, !lit_some, !spaced_words_some by exact Hn.
  split.
  - intros [H|[[H _]|[(sp & v & F & E)|[[H _]|(sp & v & F & E)]]]].
    + now left.
    + right. now left.
    + right. right. right. exists sp, v. split; [exact F|now left].
    + right. right. now left.
    + right. right. right. exists sp, v. split; [exact F|now right].
  - intros [H|[H|[H|(sp & v & F & [E|E])]]].
    + now left.
    + right. left. split; [exact H|discriminate].
    + right. right. right. left. split; [exact H|discriminate].
    + right. right. left. exists sp, v. split; [exact F|exact E].
    + right. right. right. right. exists sp, v. split; [exact F|exact E].
Qed.

Lemma mt_match_at r (pos : nat) s :
  match_at r pos s <> None <-> mt r (S (length s)) pos s [] accept <> None.
Proof.
  unfold match_at.
  destruct (mt r (S (length s)) pos s [] accept) as [[[e s'] c']|];
    split; congruence.
Qed.

Lemma noise_pattern :
  Alias.NOISE_LINE_PAT
  = noise_shape
      (Cat (chr 91) (Cat (Rep false 1 None dot) (Cat (chr 93) (star dot))))
      (U "해당 메뉴에 대한 만족도") (U "아주") (U "만족") (U "보통") (U "불만").
Proof. reflexivity. Qed.

Lemma cut_pattern :
  Alias.NOISE_CUT
  = noise_shape (Cat (chr 91) (Cat (Rep false 0 None dot) (chr 93)))
      (U "해당 메뉴에 대한 만족도") (U "아주") (U "만족") (U "보통") (U "불만").
Proof. reflexivity. Qed.

Lemma noise_at_spec (pos : nat) s :
  match_at Alias.NOISE_LINE_PAT pos s <> None <-> noise_at s.
Proof.
  rewrite mt_match_at, noise_pattern. unfold noise_at, survey_word.
  apply noise_shape_some; [lia|]. apply tag_some; [lia|].
  intros pos' s' Hs. rewrite mt_cat, chr_some. split.
  - intros (v & E & _). eauto.
  - intros (v & ->). exists v. split; [reflexivity|].
    unfold star, dot. rewrite mt_rep_cls. simpl in Hs.
    apply rep_cls_some; [lia|]. exists 0%nat.
    split; [lia|]. split; [lia|]. split; [constructor|discriminate].
Qed.

Lemma cut_at_spec (pos : nat) s :
  match_at Alias.NOISE_CUT pos s <> None <-> cut_at s.
Proof.
  rewrite mt_match_at, cut_pattern. unfold cut_at, survey_word.
  apply noise_shape_some; [lia|]. apply tag_some; [lia|].
  intros pos' s' Hs. rewrite chr_some. split.
  - intros (v & E & _). eauto.
  - intros (v & ->). exists v. split; [reflexivity|discriminate].
Qed.

End NoisePatterns.
(** ** Where a contact header is cut *)

Section NoiseSearch.

Implicit Types (s t : str) (r : regex).

(** The leftmost match: it is a match, and there is none before it. *)
Lemma search_from_first r s : forall (pos i e : nat) (g : caps),
  search_from r pos s = Some (i, e, g) ->
  exists j, i = (pos + j)%nat /\ (j <= length s)%nat
    /\ match_at r i (drop j s) = Some (e, g)
    /\ forall j', (j' < j)%nat -> match_at r (pos + j') (drop j' s) = None.
Proof.
  induction s as [|x s IH]; intros pos i e g H; cbn [search_from] in H.
  - destruct (match_at r pos []) as [[e' c']|] eqn:E; [|discriminate].
    injection H as <- <- <-. exists 0%nat. rewrite Nat.add_0_r.
    split; [reflexivity|]. split; [simpl; lia|]. split; [exact E|]. lia.
  - destruct (match_at r pos (x :: s)) as [[e' c']|] eqn:E.
    + injection H as <- <- <-. exists 0%nat. rewrite Nat.add_0_r.
      split; [reflexivity|]. split; [simpl; lia|]. split; [exact E|]. lia.
    + apply IH in H as (j & -> & Hj & M & L). exists (S j).
      split; [lia|]. split; [simpl; lia|]. split; [exact M|].
      intros [|j'] Hlt; [now rewrite Nat.add_0_r|].
      rewrite <- Nat.add_succ_comm. apply L. lia.
Qed.

Lemma search_from_none r s : forall (pos j : nat),
  search_from r pos s = None -> (j <= length s)%nat ->
  match_at r (pos + j) (drop j s) = None.
Proof.
  induction s as [|x s IH]; intros pos j H Hj; cbn [search_from] in H.
  - simpl in Hj. assert (j = 0%nat) as -> by lia. rewrite Nat.add_0_r.
    cbn [drop]. now destruct (match_at r pos []) as [[e' c']|].
  - destruct (match_at r pos (x :: s)) as [[e' c']|] eqn:E; [discriminate|].
    destruct j as [|j]; [now rewrite Nat.add_0_r|].
    rewrite <- Nat.add_succ_comm. apply IH; [exact H|simpl in Hj; lia].
Qed.

Lemma search_from_some r s : forall (pos j : nat),
  (j <= length s)%nat -> match_at r (pos + j) (drop j s) <> None ->
  search_from r pos s <> None.
Proof.
  intros pos j Hj M E. apply M. now apply search_from_none.
Qed.

Lemma noise_at_nil : ~ noise_at [].
Proof.
  intros H. apply (noise_at_spec 0 []) in H. now apply H.
Qed.

Lemma cut_at_nil : ~ cut_at [].
Proof.
  intros H. apply (cut_at_spec 0 []) in H. now apply H.
Qed.

(** A line is noise when a noise pattern starts somewhere in it. *)
Lemma is_noise_spec (ln : str) :
  is_noise ln = true <-> exists j : nat, noise_at (drop j (strip ln)).
Proof.
  unfold is_noise, found, search. split.
  - destruct (search_from _ 0 (strip ln)) as [[[i e] g]|] eqn:E;
      [intros _|discriminate].
    apply search_from_first in E as (j & -> & _ & M & _).
    exists j. apply (noise_at_spec (0 + j)). now rewrite M.
  - intros (j & H).
    destruct (Nat.le_gt_cases j (length (strip ln))) as [Hj|Hj].
    + apply (noise_at_spec (0 + j)) in H.
      pose proof (search_from_some _ _ 0 j Hj H) as S0.
      now destruct (search_from _ 0 (strip ln)) as [[[i e] g]|].
    + rewrite drop_ge in H by lia. now apply noise_at_nil in H.
Qed.

(** The kept text of a contact header ends where the cut pattern first
    starts. *)
Lemma cut_spec (ln : str) :
  (exists b : nat,
     (b <= length (strip ln))%nat /\ cut_at (drop b (strip ln))
     /\ (forall j : nat, (j < b)%nat -> ~ cut_at (drop j (strip ln)))
     /\ cut ln = strip (take b (strip ln)))
  \/ ((forall j : nat, ~ cut_at (drop j (strip ln))) /\ cut ln = strip ln).
Proof.
  unfold cut, split_head, search.
  destruct (search_from _ 0 (strip ln)) as [[[i e] g]|] eqn:E.
  - left. apply search_from_first in E as (j & -> & Hj & M & L).
    exists j. cbn [Nat.add]. split; [exact Hj|]. split; [|split; [|reflexivity]].
    + apply (cut_at_spec (0 + j)). now rewrite M.
    + intros j' Hlt H. apply (cut_at_spec (0 + j')) in H.
      apply H, L, Hlt.
  - right. split; [|apply strip_idem]. intros j H.
    destruct (Nat.le_gt_cases j (length (strip ln))) as [Hj|Hj].
    + apply (cut_at_spec (0 + j)) in H. apply H.
      now apply search_from_none.
    + rewrite drop_ge in H by lia. now apply cut_at_nil in H.
Qed.

(** The cut pattern starts wherever a noise pattern starts, and elsewhere
    only at an empty tag. *)
Lemma noise_is_cut s : noise_at s -> cut_at s.
Proof.
  intros [(u & v & E & _ & F)|H]; [left|now right].
  exists u, v. split; [exact E|]. split; [lia|exact F].
Qed.

Lemma cut_is_noise s : cut_at s -> noise_at s \/ startswith (U "[]") s = true.
Proof.
  intros [(u & v & -> & _ & F)|H]; [|left; now right].
  destruct u as [|c u]; [right; reflexivity|].
  left. left. exists (c :: u), v. split; [reflexivity|].
  split; [simpl; lia|exact F].
Qed.

End NoiseSearch.

(** C7, as amended: [trim_noise_lines] of pr-1.py and of pr-2.py.  The scan
    ends at the first line that matches a noise pattern and is no contact
    header; that line and all later lines are dropped.  Every line before
    it is kept: any other line as it is, a contact header stripped and cut
    where the cut pattern first starts, whether the line matches a noise
    pattern or not; what remains is never empty.  A noise pattern starts
    at a bracketed tag of at least one character or at a survey wording;
    the cut pattern starts there too, and also at an empty tag. *)
Theorem noise_trimmer_contract :
  forall lines : list str,
    let stop1 := fun ln => negb (pr1_contact ln) && is_noise ln in
    let stop2 := fun ln => negb (pr2_contact ln) && is_noise ln in
    Pr1.trim_noise_lines lines
    = map (fun ln => if pr1_contact ln then cut ln else ln)
          (before_stop stop1 lines)
    /\ Pr2.trim_noise_lines lines
       = map (fun ln => if pr2_contact ln then cut ln else ln)
             (before_stop stop2 lines)
    /\ (exists dropped,
          lines = before_stop stop1 lines ++ dropped
          /\ Forall (fun ln => stop1 ln = false) (before_stop stop1 lines)
          /\ (dropped = []
              \/ exists ln rest, dropped = ln :: rest /\ stop1 ln = true))
    /\ (exists dropped,
          lines = before_stop stop2 lines ++ dropped
          /\ Forall (fun ln => stop2 ln = false) (before_stop stop2 lines)
          /\ (dropped = []
              \/ exists ln rest, dropped = ln :: rest /\ stop2 ln = true))
    /\ (forall ln : str,
          pr1_contact ln = true \/ pr2_contact ln = true -> cut ln <> [])
    /\ (forall ln : str,
          cut ln = match search Alias.NOISE_CUT (strip ln) with
                   | Some (b, _, _) => strip (take b (strip ln))
                   | None => strip ln
                   end)
    /\ (forall (pos : nat) (s : str),
          (match_at Alias.NOISE_LINE_PAT pos s <> None <-> noise_at s)
          /\ (match_at Alias.NOISE_CUT pos s <> None <-> cut_at s))
    /\ (forall ln : str,
          is_noise ln = true <-> exists j : nat, noise_at (drop j (strip ln)))
    /\ (forall ln : str,
          (exists b : nat,
             (b <= length (strip ln))%nat /\ cut_at (drop b (strip ln))
             /\ (forall j : nat, (j < b)%nat -> ~ cut_at (drop j (strip ln)))
             /\ cut ln = strip (take b (strip ln)))
          \/ ((forall j : nat, ~ cut_at (drop j (strip ln)))
              /\ cut ln = strip ln))
    /\ (forall s : str,
          (noise_at s -> cut_at s)
          /\ (cut_at s -> noise_at s \/ startswith (U "[]") s = true)).
Proof.
  intros lines stop1 stop2.
  split; [apply pr1_trim_eq|]. split; [apply pr2_trim_eq|].
  split; [apply before_stop_split|]. split; [apply before_stop_split|].
  split; [|split; [|split; [|split; [|split]]]].
  - intros ln [C|C]; apply cut_nonempty.
    + now apply pr1_header_char.
    + now apply pr2_header_char.
  - intros ln. unfold cut, split_head.
    destruct (search Alias.NOISE_CUT (strip ln)) as [[[b e] g]|];
      [reflexivity|apply strip_idem].
  - intros pos s. split; [apply noise_at_spec|apply cut_at_spec].
  - apply is_noise_spec.
  - apply cut_spec.
  - intros s. split; [apply noise_is_cut|apply cut_is_noise].
Qed.

Lemma noise_trimmer_contract_witness :
  pr1_contact (U "ㅇ 문의 : 02-123 [만족도] 보통") = true
  /\ cut (U "ㅇ 문의 : 02-123 [만족도] 보통") <> [].
Proof.
  assert (pr1_contact (U "ㅇ 문의 : 02-123 [만족도] 보통") = true) as H
    by (vm_compute; reflexivity).
  split; [exact H|].
  exact (proj1 (proj2 (proj2 (proj2 (proj2 (noise_trimmer_contract [])))))
           (U "ㅇ 문의 : 02-123 [만족도] 보통") (or_introl H)).
Defined.

(** C7 as stated fails: a contact header is not cut at the first
    occurrence of a noise pattern.  An empty tag is no noise pattern, yet
    the header is cut there: a header that matches no noise pattern is
    truncated, and one that matches is truncated before the match. *)
Lemma contact_header_is_cut_at_empty_tag :
  is_noise (U "ㅇ 문의 : 02-123 [] 1층") = false
  /\ Pr1.trim_noise_lines [U "ㅇ 문의 : 02-123 [] 1층"] = [U "ㅇ 문의 : 02-123"]
  /\ Pr2.trim_noise_lines [U "ㅇ 문의 : 02-123 [] 1층"] = [U "ㅇ 문의 : 02-123"]
  /\ split_head Alias.NOISE_LINE_PAT (U "ㅇ 문의 : 02-123 [] 보통")
     = U "ㅇ 문의 : 02-123 [] "
  /\ Pr1.trim_noise_lines [U "ㅇ 문의 : 02-123 [] 보통"] = [U "ㅇ 문의 : 02-123"]
  /\ Pr2.trim_noise_lines [U "ㅇ 문의 : 02-123 [] 보통"] = [U "ㅇ 문의 : 02-123"].
Proof. repeat split; vm_compute; reflexivity. Qed.

(** ** Key lines of junggu.py *)

Section KeywordLine.

Import Junggu.

Implicit Types (text key val r : str) (st : acc).

(** The bullets that line 201 removes, and what must follow them. *)
Abbreviation bullet c := (mem c (U "▶▷○●□■◆◇☆-–•·∙⋅●◦❍")).
Definition alnum (c : N) : bool := hangul c || ascii_letter c || ascii_digit c.
Definition wide_space (c : N) : bool := isspace c || (c =? IDSP).

Lemma bullet_is_no_space (b : N) : bullet b = true -> wide_space b = false.
Proof.
  unfold wide_space. change (U "▶▷○●□■◆◇☆-–•·∙⋅●◦❍")
    with [0x25B6; 0x25B7; 0x25CB; 0x25CF; 0x25A1; 0x25A0; 0x25C6; 0x25C7;
          0x2606; 45; 0x2013; 0x2022; 0xB7; 0x2219; 0x22C5; 0x25CF; 0x25E6;
          0x274D].
  unfold mem. cbn [existsb]. intros H.
  repeat (apply orb_prop in H as [H|H];
          [apply N.eqb_eq in H as ->; reflexivity|]).
  discriminate H.
Qed.

Lemma space_is_wide (x : N) : wide_space x = false -> isspace x = false.
Proof. unfold wide_space. intros H. now apply orb_false_iff in H as [H _]. Qed.

Lemma wide_is_space (x : N) : isspace x = false -> wide_space x = false.
Proof.
  intros H. unfold wide_space. rewrite H.
  destruct (N.eqb_spec x IDSP) as [->|]; [discriminate H|reflexivity].
Qed.

Lemma alnum_is_no_paren (x : N) : alnum x = true -> (40 =? x) = false.
Proof.
  intros H. destruct (N.eqb_spec 40 x) as [<-|]; [discriminate H|reflexivity].
Qed.

Lemma mt_ahead (a : regex) fuel pos r c (k : kont) :
  mt (Ahead a) fuel pos r c k
  = match mt a fuel pos r c (fun pos' s' c' => Some (pos', s', c')) with
    | Some (_, _, c') => k pos r c'
    | None => None
    end.
Proof. reflexivity. Qed.

(** An optional character that is not there is skipped. *)
Lemma opt_cls_skip (p : N -> bool) (k : kont) (n pos : nat) (x : N) r c :
  p x = false ->
  rep_loop (cls_body p) true 0 (Some 1%nat) k (S n) 0 pos (x :: r) c
  = k pos (x :: r) c.
Proof.
  intros H. cbn [rep_loop below Nat.ltb Nat.leb]. unfold cls_body at 1.
  now rewrite H.
Qed.

(** The shape of the bullet pattern, over any character classes. *)
Definition marked (p0 pb ps pp pa : N -> bool) : regex :=
  Cat Bos
    (Cat (Rep true 0 None (Cls p0))
       (Cat (Cls pb)
          (Cat (Rep true 0 None (Cls ps))
             (Ahead (Cat (Rep true 0 (Some 1%nat) (Cls pp)) (Cls pa)))))).

Lemma marked_mt (p0 pb ps pp pa : N -> bool) (b x : N) sp r (n : nat) :
  p0 b = false -> pb b = true -> Forall (fun c => ps c = true) sp ->
  ps x = false -> pp x = false -> pa x = true ->
  (length (b :: sp ++ x :: r) < S n)%nat ->
  mt (marked p0 pb ps pp pa) (S n) 0 (b :: sp ++ x :: r) [] accept
  = Some (S (length sp), x :: r, []).
Proof.
  intros H0 Hb F Sx Px Hx Hn. unfold marked.
  rewrite mt_cat, mt_bos, mt_cat, mt_rep_cls, rep_cls_unfold, H0.
  cbn [Nat.leb]. rewrite mt_cat, mt_cls. unfold cls_body at 1. rewrite Hb.
  rewrite mt_cat, mt_rep_cls.
  destruct (takewhile_app_stop ps sp x r F Sx) as [T D].
  apply rep_cls_max; [simpl in Hn; lia|lia|]. rewrite T, D.
  rewrite mt_ahead, mt_cat, mt_rep_cls.
  rewrite (opt_cls_skip pp _ n _ x r _ Px).
  rewrite mt_cls. unfold cls_body. rewrite Hx.
  reflexivity.
Qed.

Lemma marked_no_mt (p0 pb ps pp pa : N -> bool) (x : N) r (n : nat) :
  p0 x = false -> pb x = false ->
  mt (marked p0 pb ps pp pa) (S n) 0 (x :: r) [] accept = None.
Proof.
  intros H0 Hb. unfold marked.
  rewrite mt_cat, mt_bos, mt_cat, mt_rep_cls, rep_cls_unfold, H0.
  cbn [Nat.leb]. rewrite mt_cat, mt_cls. unfold cls_body at 1.
  now rewrite Hb.
Qed.

Lemma bullet_pattern :
  BULLET = marked wide_space (fun c => bullet c) isspace (N.eqb 40) alnum.
Proof. reflexivity. Qed.

Lemma bullet_match (b x : N) sp r :
  bullet b = true -> Forall (fun c => isspace c = true) sp -> alnum x = true ->
  isspace x = false ->
  match_at BULLET 0 (b :: sp ++ x :: r) = Some (S (length sp), []).
Proof.
  intros Hb F Hx Sx. unfold match_at. rewrite bullet_pattern.
  now rewrite (marked_mt wide_space (fun c => bullet c) isspace (N.eqb 40) alnum b x sp r _
                 (bullet_is_no_space b Hb) Hb F Sx (alnum_is_no_paren x Hx) Hx
                 (Nat.lt_succ_diag_r _)).
Qed.

Lemma bullet_no_match (x : N) r :
  bullet x = false -> wide_space x = false ->
  match_at BULLET 0 (x :: r) = None.
Proof.
  intros Hb Sx. unfold match_at. rewrite bullet_pattern.
  now rewrite (marked_no_mt wide_space (fun c => bullet c) isspace (N.eqb 40) alnum x r _
                 Sx Hb).
Qed.

Lemma bullet_anchored (repl : str) fuel pos r :
  sub_from BULLET repl fuel (S pos) r = r.
Proof. rewrite bullet_pattern. apply sub_from_anchored. Qed.

(** The line without its bullet. *)
Definition body_of (text body : str) : Prop :=
  tidy body
  /\ exists x r,
       body = x :: r
       /\ ((text = body /\ bullet x = false)
           \/ exists b sp,
                text = b :: sp ++ body /\ bullet b = true
                /\ Forall (fun c => isspace c = true) sp /\ alnum x = true).

Lemma bullet_is_no_reference (b : N) r :
  bullet b = true -> startswith (U "※") (lstrip (b :: r)) = false.
Proof.
  intros Hb. pose proof (space_is_wide b (bullet_is_no_space b Hb)) as Sb.
  unfold lstrip. rewrite dropwhile_id by exact Sb.
  change (U "※") with [0x203B]. cbn [startswith].
  destruct (N.eqb_spec 0x203B b) as [<-|]; [discriminate Hb|reflexivity].
Qed.

Lemma stripped_of_body text body : body_of text body -> stripped_of text = body.
Proof.
  intros (T & x & r & -> & [[-> Hb]|(b & sp & -> & Hb & F & Hx)]).
  - assert (isspace x = false) as Sx
      by (eapply strip_head; rewrite T; reflexivity).
    unfold stripped_of. destruct (startswith _ _); [exact T|].
    unfold Re.sub. cbn [length sub_from].
    rewrite (bullet_no_match x r Hb (wide_is_space x Sx)).
    now rewrite bullet_anchored.
  - assert (isspace x = false) as Sx
      by (eapply strip_head; rewrite T; reflexivity).
    unfold stripped_of. rewrite (bullet_is_no_reference b _ Hb).
    unfold Re.sub. cbn [length sub_from].
    rewrite (bullet_match b x sp r Hb F Hx Sx).
    cbn [Nat.ltb Nat.leb app]. rewrite Nat.sub_0_r.
    change (drop (S (length sp)) (b :: sp ++ x :: r))
      with (drop (length sp) (sp ++ x :: r)).
    rewrite drop_app_length.
    now rewrite bullet_anchored.
Qed.

Lemma before_app (p : N -> bool) key (c : N) val :
  Forall (fun x => p x = false) key -> p c = true ->
  before p (key ++ c :: val) = key /\ after p (key ++ c :: val) = Some val
  /\ existsb p (key ++ c :: val) = true.
Proof.
  intros F Hc. unfold before.
  induction F as [|x key Hx _ (IH1 & IH2 & IH3)]; cbn [app takewhile after existsb].
  - now rewrite Hc.
  - rewrite Hx. cbn [negb orb]. now rewrite IH1, IH2, IH3.
Qed.

Lemma classify_colon key (c : N) val (m : string) :
  Forall (fun x => colon x = false) key -> colon c = true ->
  auto_map_key (normalize_key key) = Some m ->
  classify (key ++ c :: val)
  = Some (m, Some (strip key ++ U " : " ++ strip val)).
Proof.
  intros F Hc A. unfold classify.
  destruct (before_app colon key c val F Hc) as (-> & -> & ->).
  rewrite A. cbn [section default].
  assert (String.eqb m "" = false) as ->; [|reflexivity].
  pose proof (auto_map_key_range _ _ A) as R. unfold junggu_columns in R.
  cbn [In] in R.
  destruct R as [<-|[<-|[<-|[<-|[<-|[<-|[]]]]]]]; reflexivity.
Qed.

End KeywordLine.

(** X9: the colon branch of [parse_detail_lines_to_fields] of junggu.py.
    Outside a locked section, a line that is made of a key, a colon (ASCII
    or full-width) and a value, behind a bullet or without bullet, whose
    normalized key holds a keyword, is stored under the column of the
    keyword as the key, [" : "] and the value: the key stays in the stored
    text.  The line opens that section, and locks it when the column is
    [method]. *)
Theorem keyword_line_is_stored :
  forall (st : Junggu.acc) (raw text key val : str) (c : N) (m : string),
    Junggu.section (Junggu.locked_section st) = None ->
    Junggu.line_text raw = Some text ->
    body_of text (key ++ c :: val) ->
    Forall (fun x => colon x = false) key -> colon c = true ->
    Junggu.auto_map_key (Junggu.normalize_key key) = Some m ->
    Junggu.step st raw
    = Junggu.Acc
        (<[m := Junggu.joined (Junggu.fields st) m
                  (strip key ++ U " : " ++ strip val)]> (Junggu.fields st))
        (Some m)
        (if String.eqb m "method" then Some "method"%string
         else Junggu.locked_section st).
Proof.
  intros st raw text key val c m L T B F Hc A.
  unfold Junggu.step. rewrite T, L, (stripped_of_body _ _ B).
  now rewrite (classify_colon key c val m F Hc A).
Qed.

Lemma keyword_line_is_stored_witness :
  Junggu.step Junggu.init (U "○ 신청방법： 방문 접수")
  = Junggu.Acc (<["method"%string := U "신청방법 : 방문 접수"]> ∅)
               (Some "method"%string) (Some "method"%string).
Proof.
  refine (keyword_line_is_stored Junggu.init (U "○ 신청방법： 방문 접수")
            (U "○ 신청방법： 방문 접수") (U "신청방법") (U " 방문 접수") 0xFF1A
            "method" _ _ _ _ _ _).
  - reflexivity.
  - vm_compute. reflexivity.
  - split; [vm_compute; reflexivity|].
    exists 0xC2E0, (U "청방법： 방문 접수"). split; [vm_compute; reflexivity|].
    right. exists 0x25CB, [SP].
    split; [vm_compute; reflexivity|]. split; [reflexivity|].
    split; [repeat constructor|reflexivity].
  - vm_compute. repeat constructor.
  - reflexivity.
  - vm_compute. reflexivity.
Defined.

(** ** Header lines of junggu.py *)

(** The dashes of the pattern of line 224 *)
Abbreviation dash c := (mem c (U "-–")).

Section KeywordHeader.

Import Junggu.

Implicit Types (text body : str) (st : acc).


(** The pattern of line 224 matches no line without dash. *)
Lemma dash_needs_dash body :
  Forall (fun c => dash c = false) body -> rmatch DASH body = None.
Proof.
  intros F. unfold rmatch, match_at, DASH. cbn [seq].
  rewrite mt_cat, mt_bos, mt_cat, mt_dead; [reflexivity|].
  intros p1 s1 c1 H1. rewrite mt_cat. apply mt_dead.
  intros p2 s2 c2 H2. rewrite mt_cat. unfold oneof. rewrite mt_cls.
  unfold cls_body. destruct s2 as [|x s2']; [reflexivity|].
  assert (suffix (x :: s2') body) as [pre E] by (now transitivity s1).
  rewrite E in F. apply Forall_app in F as [_ F].
  inversion F as [|? ? Hx _]; subst. now rewrite Hx.
Qed.

Lemma existsb_none (p : N -> bool) body :
  Forall (fun c => p c = false) body -> existsb p body = false.
Proof.
  induction 1 as [|c body H _ IH]; [reflexivity|]. cbn [existsb].
  now rewrite H, IH.
Qed.

Lemma classify_header body (m : string) :
  Forall (fun c => colon c = false /\ dash c = false) body ->
  auto_map_key (normalize_key body) = Some m ->
  classify body = Some (m, None).
Proof.
  intros F A. unfold classify.
  rewrite existsb_none
    by (eapply Forall_impl; [exact F|]; now intros c [H _]).
  rewrite dash_needs_dash
    by (eapply Forall_impl; [exact F|]; now intros c [_ H]).
  rewrite A. cbn [section].
  assert (String.eqb m "" = false) as ->; [|reflexivity].
  pose proof (auto_map_key_range _ _ A) as R. unfold junggu_columns in R.
  cbn [In] in R.
  destruct R as [<-|[<-|[<-|[<-|[<-|[<-|[]]]]]]]; reflexivity.
Qed.

Lemma classify_plain body :
  Forall (fun c => colon c = false /\ dash c = false) body ->
  auto_map_key (normalize_key body) = None ->
  classify body = None.
Proof.
  intros F A. unfold classify.
  rewrite existsb_none
    by (eapply Forall_impl; [exact F|]; now intros c [H _]).
  rewrite dash_needs_dash
    by (eapply Forall_impl; [exact F|]; now intros c [_ H]).
  now rewrite A.
Qed.

End KeywordHeader.

(** X10: the last two branches of [parse_detail_lines_to_fields] of
    junggu.py, outside a locked section, for a line without colon and
    without dash (behind a bullet or without bullet).  When the normalized
    line holds a keyword, the line only opens the section of the keyword
    (and locks it when it is [method]): its own text is stored in no
    field.  When it holds no keyword, the text of the line, bullet
    included, is appended to the open section, or to [content] when none
    is open. *)
Theorem line_without_colon :
  forall (st : Junggu.acc) (raw text body : str),
    Junggu.section (Junggu.locked_section st) = None ->
    Junggu.line_text raw = Some text ->
    body_of text body ->
    Forall (fun c => colon c = false /\ dash c = false) body ->
    (forall m : string,
       Junggu.auto_map_key (Junggu.normalize_key body) = Some m ->
       Junggu.step st raw
       = Junggu.Acc (Junggu.fields st) (Some m)
           (if String.eqb m "method" then Some "method"%string
            else Junggu.locked_section st))
    /\ (Junggu.auto_map_key (Junggu.normalize_key body) = None ->
        let target :=
          default "content"%string (Junggu.section (Junggu.current_section st)) in
        Junggu.step st raw
        = Junggu.Acc
            (<[target := Junggu.joined (Junggu.fields st) target text]>
               (Junggu.fields st))
            (Junggu.current_section st) (Junggu.locked_section st)).
Proof.
  intros st raw text body L T B F. split.
  - intros m A. unfold Junggu.step. rewrite T, L, (stripped_of_body _ _ B).
    now rewrite (classify_header body m F A).
  - intros A target. unfold Junggu.step.
    rewrite T, L, (stripped_of_body _ _ B).
    now rewrite (classify_plain body F A).
Qed.

Lemma line_without_colon_witness :
  Junggu.step (Junggu.Acc ∅ (Some "target"%string) None)
              (U "○ 방문 접수 안내")
  = Junggu.Acc ∅ (Some "contact"%string) None.
Proof.
  refine (proj1 (line_without_colon
                   (Junggu.Acc ∅ (Some "target"%string) None)
                   (U "○ 방문 접수 안내") (U "○ 방문 접수 안내")
                   (U "방문 접수 안내") _ _ _ _) "contact"%string _).
  - reflexivity.
  - vm_compute. reflexivity.
  - split; [vm_compute; reflexivity|].
    exists 0xBC29, (U "문 접수 안내"). split; [vm_compute; reflexivity|].
    right. exists 0x25CB, [SP].
    split; [vm_compute; reflexivity|]. split; [reflexivity|].
    split; [repeat constructor|reflexivity].
  - vm_compute. repeat constructor.
  - vm_compute. reflexivity.
Defined.

(** ** The category of a page of pr-1.py *)

Section Category.

Lemma first_part_clean (t : str) (first : str) (rest : list str) :
  List.filter (fun p => negb (is_nil p)) (map strip (Pr1.split_on 124 [] t))
  = first :: rest ->
  first <> [] /\ tidy first.
Proof.
  generalize (Pr1.split_on 124 [] t). intros parts.
  induction parts as [|p parts IH]; cbn [map List.filter]; [discriminate|].
  destruct (strip p) as [|c r] eqn:E; cbn [is_nil negb]; [exact IH|].
  intros [= <- _]. split; [discriminate|]. rewrite <- E. apply strip_tidy.
Qed.

Lemma category_clean (bc_text : option str) (c : str) :
  Pr1.get_category_from_breadcrumb bc_text = Some c -> c <> [] /\ tidy c.
Proof.
  unfold Pr1.get_category_from_breadcrumb.
  destruct bc_text as [t|]; [|discriminate].
  destruct (List.filter _ _) as [|first rest] eqn:E; [discriminate|].
  destruct (first_part_clean t first rest E) as [N T].
  destruct (contains _ first); [intros [= <-]; split; [discriminate|reflexivity]|].
  destruct (contains _ first); [intros [= <-]; split; [discriminate|reflexivity]|].
  now intros [= <-].
Qed.

Lemma blank_parts (parts : list str) :
  Forall (fun p => strip p = []) parts ->
  List.filter (fun p => negb (is_nil p)) (map strip parts) = [].
Proof.
  induction 1 as [|p parts Hp _ IH]; [reflexivity|].
  cbn [map List.filter]. now rewrite Hp.
Qed.

(** The first part of the breadcrumb that has text, stripped. *)
Definition first_part (bc_text : option str) (first : str) : Prop :=
  exists t blank p rest,
    bc_text = Some t /\ Pr1.split_on 124 [] t = blank ++ p :: rest
    /\ Forall (fun q => strip q = []) blank /\ strip p = first /\ first <> [].

Lemma filter_first (parts : list str) (first : str) (more : list str) :
  List.filter (fun p => negb (is_nil p)) (map strip parts) = first :: more ->
  exists blank p rest,
    parts = blank ++ p :: rest /\ Forall (fun q => strip q = []) blank
    /\ strip p = first /\ first <> [].
Proof.
  induction parts as [|q parts IH]; cbn [map List.filter]; [discriminate|].
  destruct (strip q) as [|c r] eqn:E; cbn [is_nil negb].
  - intros H. destruct (IH H) as (blank & p & rest & -> & F & Hp & N).
    exists (q :: blank), p, rest. split; [reflexivity|].
    split; [now constructor|]. now split.
  - intros [= <- _]. exists [], q, parts. split; [reflexivity|].
    split; [constructor|]. split; [exact E|discriminate].
Qed.

Lemma first_filter (blank : list str) (p : str) (rest : list str) :
  Forall (fun q => strip q = []) blank -> strip p <> [] ->
  List.filter (fun p => negb (is_nil p)) (map strip (blank ++ p :: rest))
  = strip p
    :: List.filter (fun p => negb (is_nil p)) (map strip rest).
Proof.
  intros F N. induction F as [|q blank Hq _ IH]; cbn [app map List.filter].
  - destruct (strip p); [contradiction|reflexivity].
  - now rewrite Hq.
Qed.

(** The category that the first part with text gives. *)
Definition simplified (first : str) : str :=
  if contains (U "정책") first then U "정책"
  else if contains (U "교육·문화") first then U "교육문화"
  else first.

Lemma get_of_first_part (bc_text : option str) (first : str) :
  first_part bc_text first ->
  Pr1.get_category_from_breadcrumb bc_text = Some (simplified first).
Proof.
  intros (t & blank & p & rest & -> & E & F & <- & N).
  unfold Pr1.get_category_from_breadcrumb, simplified.
  rewrite E, (first_filter blank p rest F N).
  destruct (contains _ (strip p)); [reflexivity|].
  now destruct (contains _ (strip p)).
Qed.

Lemma first_part_of_get (bc_text : option str) (c : str) :
  Pr1.get_category_from_breadcrumb bc_text = Some c ->
  exists first, first_part bc_text first /\ c = simplified first.
Proof.
  unfold Pr1.get_category_from_breadcrumb, simplified.
  destruct bc_text as [t|]; [|discriminate].
  destruct (List.filter _ _) as [|first more] eqn:E; [discriminate|].
  destruct (filter_first _ _ _ E) as (blank & p & rest & Ep & F & Hp & N).
  intros H. exists first. split.
  - exists t, blank, p, rest. now repeat split.
  - destruct (contains _ first); [now injection H|].
    destruct (contains _ first); now injection H.
Qed.

Lemma simplified_other (first : str) :
  simplified first = U "기타" <-> first = U "기타".
Proof.
  unfold simplified. split.
  - destruct (contains _ first);
      [intros E; vm_compute in E; discriminate E|].
    destruct (contains _ first);
      [intros E; vm_compute in E; discriminate E|]. trivial.
  - intros ->. vm_compute. reflexivity.
Qed.

End Category.

(** X16: the category of a page of pr-1.py is never empty and has no
    whitespace at its ends.  It is the first part of the breadcrumb that
    has text, stripped, but ["정책"] when that part holds 정책 and
    ["교육문화"] when it holds 교육·문화.  It is ["기타"] exactly when the
    page has no breadcrumb, the breadcrumb has no part with text, or its
    first part with text is 기타 itself.  Every row of the page carries
    it. *)
Theorem source_category_is_never_empty :
  forall (bc_text : option str),
    Pr1.category_of bc_text <> []
    /\ strip (Pr1.category_of bc_text) = Pr1.category_of bc_text
    /\ (Pr1.get_category_from_breadcrumb bc_text = None ->
        Pr1.category_of bc_text = U "기타")
    /\ (forall c, Pr1.get_category_from_breadcrumb bc_text = Some c ->
          Pr1.category_of bc_text = c)
    /\ (Pr1.get_category_from_breadcrumb bc_text = None
        <-> match bc_text with
            | None => True
            | Some t => Forall (fun p => strip p = []) (Pr1.split_on 124 [] t)
            end)
    /\ (forall (url text heading : str) (r : Frame.row),
          In r (Pr1.build_records (Pr1.category_of bc_text) url text heading) ->
          Frame.source_category r = Some (Pr1.category_of bc_text))
    /\ (forall first : str,
          first_part bc_text first ->
          Pr1.category_of bc_text
          = if contains (U "정책") first then U "정책"
            else if contains (U "교육·문화") first then U "교육문화"
            else first)
    /\ (Pr1.category_of bc_text = U "기타"
        <-> Pr1.get_category_from_breadcrumb bc_text = None
            \/ first_part bc_text (U "기타")).
Proof.
  intros bc.
  assert (forall c, Pr1.get_category_from_breadcrumb bc = Some c ->
                    Pr1.category_of bc = c) as Hsome.
  { intros c E. unfold Pr1.category_of. rewrite E.
    destruct (category_clean bc c E) as [N _]. now destruct c. }
  assert (Pr1.get_category_from_breadcrumb bc = None ->
          Pr1.category_of bc = U "기타") as Hnone.
  { intros E. unfold Pr1.category_of. now rewrite E. }
  assert (forall first : str,
            first_part bc first -> Pr1.category_of bc = simplified first)
    as Hfirst.
  { intros first H. apply Hsome. now apply get_of_first_part. }
  assert (Pr1.category_of bc = U "기타"
          <-> Pr1.get_category_from_breadcrumb bc = None
              \/ first_part bc (U "기타")) as Hother.
  { split.
    - intros H. destruct (Pr1.get_category_from_breadcrumb bc) as [c|] eqn:E;
        [|now left].
      right. destruct (first_part_of_get bc c E) as (first & P & Ec).
      rewrite (Hsome c eq_refl) in H. rewrite Ec in H.
      apply (proj1 (simplified_other first)) in H. subst first. exact P.
    - intros [E|P]; [now apply Hnone|].
      rewrite (Hfirst _ P). now apply (proj2 (simplified_other _)). }
  assert (forall (url text heading : str) (r : Frame.row),
            In r (Pr1.build_records (Pr1.category_of bc) url text heading) ->
            Frame.source_category r = Some (Pr1.category_of bc)) as Hrows.
  { intros url text heading r Hin. unfold Pr1.build_records in Hin.
    apply in_map_iff in Hin as (it & <- & _). reflexivity. }
  assert (Pr1.category_of bc <> []
          /\ strip (Pr1.category_of bc) = Pr1.category_of bc) as [Hne Htidy].
  { destruct (Pr1.get_category_from_breadcrumb bc) as [c|] eqn:E.
    - destruct (category_clean bc c E) as [N T].
      rewrite (Hsome c eq_refl). now split.
    - rewrite (Hnone eq_refl). split; [discriminate|reflexivity]. }
  assert (Pr1.get_category_from_breadcrumb bc = None
          <-> match bc with
              | None => True
              | Some t => Forall (fun p => strip p = []) (Pr1.split_on 124 [] t)
              end) as Hblank.
  { split.
    - intros E. unfold Pr1.get_category_from_breadcrumb in E.
      destruct bc as [t|]; [|exact I].
      revert E. generalize (Pr1.split_on 124 [] t). intros parts.
      induction parts as [|p parts IH]; [constructor|].
      cbn [map List.filter]. destruct (strip p) as [|c r] eqn:Sp.
      + cbn [is_nil negb]. intros E. constructor; [exact Sp|now apply IH].
      + cbn [is_nil negb]. intros E.
        destruct (contains _ (c :: r)); [discriminate|].
        destruct (contains _ (c :: r)); discriminate.
    - intros H. destruct bc as [t|]; [|reflexivity].
      unfold Pr1.get_category_from_breadcrumb. now rewrite (blank_parts _ H). }
  unfold simplified in Hfirst.
  split; [exact Hne|]. split; [exact Htidy|]. split; [exact Hnone|].
  split; [exact Hsome|]. split; [exact Hblank|]. split; [exact Hrows|].
  split; [exact Hfirst|exact Hother].
Qed.

Lemma source_category_is_never_empty_witness :
  Pr1.get_category_from_breadcrumb (Some (U " | 외국인 지원 정책 | 복지 "))
  = Some (U "정책")
  /\ Pr1.category_of (Some (U " | 외국인 지원 정책 | 복지 ")) = U "정책"
  /\ Pr1.category_of (Some (U " | ")) = U "기타"
  /\ Pr1.category_of (Some (U "기타 | 복지")) = U "기타".
Proof.
  assert (Pr1.get_category_from_breadcrumb (Some (U " | 외국인 지원 정책 | 복지 "))
          = Some (U "정책")) as H by (vm_compute; reflexivity).
  split; [exact H|]. split; [|split].
  - exact (proj1 (proj2 (proj2 (proj2 (source_category_is_never_empty
             (Some (U " | 외국인 지원 정책 | 복지 ")))))) (U "정책") H).
  - apply (proj1 (proj2 (proj2 (source_category_is_never_empty
             (Some (U " | ")))))).
    vm_compute. reflexivity.
  - apply (proj2 (proj2 (proj2 (proj2 (proj2 (proj2 (proj2
             (source_category_is_never_empty (Some (U "기타 | 복지")))))))))).
    right. exists (U "기타 | 복지"), [], (U "기타 "), [U " 복지"].
    split; [reflexivity|]. split; [vm_compute; reflexivity|].
    split; [constructor|]. split; [vm_compute; reflexivity|].
    vm_compute. discriminate.
Defined.

(** ** Examples *)

Example utf8_hangul : U "ㅇ 문의:1" = [0x3147; 32; 0xBB38; 0xC758; 58; 49].
Proof. reflexivity. Qed.

Example strip_example : strip (U "  a b  ") = U "a b".
Proof. reflexivity. Qed.

Example splitlines_example :
  splitlines [97; 13; 10; 98; 10; 10; 99; 10] = [[97]; [98]; []; [99]].
Proof. reflexivity. Qed.

Example lazy_key_group :
  let s := U "a:b:c" in
  match rmatch Alias.KEY_VALUE_PAT s with
  | Some (_, g) => Some (group 1 g s, group 2 g s)
  | None => None
  end = Some (U "a", U "b:c").
Proof. vm_compute. reflexivity. Qed.

Example phone_sequence :
  Alias.contact_value (U "02-3396-4114 / 02-3396-4115 확인 바랍니다")
  = U "02-3396-4114 / 02-3396-4115".
Proof. vm_compute. reflexivity. Qed.

(** The first scenario of the specification, in pr-1.py. *)
Example health_check_scenario :
  let its := Pr1.split_items
               (text_of [U "▶ 외국인 건강검진 지원"; U "ㅇ 대상 : 중구 거주 외국인";
                         U "ㅇ 기간 : 2024.1.1 ~ 12.31"]) None in
  its = [Item (U "외국인 건강검진 지원")
              [U "ㅇ 대상 : 중구 거주 외국인"; U "ㅇ 기간 : 2024.1.1 ~ 12.31"]]
  /\ Pr1.parse_detail_lines_to_fields
       [U "ㅇ 대상 : 중구 거주 외국인"; U "ㅇ 기간 : 2024.1.1 ~ 12.31"]
       !! "target"%string = Some (U "중구 거주 외국인").
Proof. split; vm_compute; reflexivity. Qed.

(** Two rows that differ in the source URL and in the blanks of
    [content] only: one is kept, the first. *)
Example near_duplicates_scenario :
  let row (content url : str) :=
    Frame.Row (Some (U "중구")) (Some (U "정책")) (Some (U "A")) None None
              (Some content) None None None None None (Some (U "▶ A")) (Some url) in
  Frame.save_records [row (U "a  b") (U "u1"); row (U "a b ") (U "u2")]
  = [Frame.canon_row (row (U "a  b") (U "u1"))].
Proof. vm_compute. reflexivity. Qed.
